(** * RED4ext (macOS port): the hooking core

    A shallow embedding of the transactional hooking engine:

    - [Platform/Hooking.cpp]: the Detours-compatible C interface
      ([DetourTransactionBegin], [DetourAttach], ...), in its two build
      configurations (Frida Gadget and native ARM64 patching);
    - [DetourTransaction.cpp]: the RAII transaction object and its state
      machine;
    - [GameStateHook.hpp]: the three-slot virtual table hook;
    - [Systems/HookingSystem.cpp]: the per-plugin hook registry.

    Pointers are integers ([Z], null is [0]).  Process memory is split in two
    stores: [mem], the byte-addressed memory that holds code (what
    [memcpy] patches), and [cells], the pointer-sized data cells that a
    [void**] designates (the plugins' "original" slots).  Calls into the
    operating system take their outcome from an oracle indexed by a clock, so
    every sequence of successes and failures is covered. *)

From Stdlib Require Import ZArith List String Bool Lia.
Import ListNotations.
Open Scope string_scope.
Open Scope list_scope.
Open Scope Z_scope.

(** ** Build configuration and environment *)

(** [RED4EXT_USE_FRIDA_GADGET] is defined in the sources as shipped;
    commenting the define out selects the native code path. *)
Inductive Backend : Type :=
| FridaGadget
| Native.

Inductive Level : Type :=
| trace
| debug
| info
| warn
| error.

Record LogEntry : Type := mkLog {
  level : Level;
  message : string
}.

(** Outcomes of the system calls made by the engine.  The [nat] argument is
    the value of the clock when the call is made. *)
Record OS : Type := mkOS {
  page_size : Z;                          (* sysconf(_SC_PAGESIZE) *)
  mmap_result : nat -> option Z;          (* None is MAP_FAILED *)
  mprotect_ok : nat -> bool;              (* mprotect(...) == 0 *)
  protect_ok : nat -> bool;               (* Platform::ProtectMemory *)
  rebind_ok : nat -> bool;                (* rebind_symbols(...) == 0 *)
  rebind_found : nat -> option Z;         (* the pointer fishhook replaces, when
                                             it finds the symbol *)
  call_result : nat -> Z -> bool;         (* what the game function at an
                                             address returns when called *)
  task_threads : nat -> option (list (Z * bool));
                                          (* thread ports, and whether
                                             thread_suspend succeeds on each *)
  self_thread : Z;                        (* mach_thread_self() *)
  resolve_hash : Z -> Z                   (* address of a hashed game symbol *)
}.

Definition NO_ERROR : Z := 0.

(** ** Global state of Hooking.cpp and of the process *)

Record Trampoline : Type := mkTrampoline {
  target : Z;
  detour : Z;
  original : Z;
  trampolineMem : Z;
  trampolineSize : Z
}.

(** The constructor sets [original] to the target. *)
Definition Trampoline_new (aTarget aDetour aTrampolineMem aSize : Z) : Trampoline :=
  mkTrampoline aTarget aDetour aTarget aTrampolineMem aSize.

Record World : Type := mkWorld {
  g_inTransaction : bool;
  g_hookCount : Z;                        (* Frida Gadget build only *)
  g_trampolines : list Trampoline;        (* native build only *)
  mem : Z -> Z;                           (* byte at each address *)
  cells : Z -> Z;                         (* pointer stored at each address *)
  logs : list LogEntry;                   (* oldest entry first *)
  calls : list Z;                         (* game functions called through a
                                             hook, oldest first *)
  clock : nat
}.

Definition set_inTransaction (b : bool) (w : World) : World :=
  mkWorld b (g_hookCount w) (g_trampolines w) (mem w) (cells w) (logs w) (calls w) (clock w).

Definition set_hookCount (n : Z) (w : World) : World :=
  mkWorld (g_inTransaction w) n (g_trampolines w) (mem w) (cells w) (logs w) (calls w) (clock w).

Definition set_trampolines (l : list Trampoline) (w : World) : World :=
  mkWorld (g_inTransaction w) (g_hookCount w) l (mem w) (cells w) (logs w) (calls w) (clock w).

Definition set_mem (m : Z -> Z) (w : World) : World :=
  mkWorld (g_inTransaction w) (g_hookCount w) (g_trampolines w) m (cells w) (logs w) (calls w) (clock w).

Definition set_cells (c : Z -> Z) (w : World) : World :=
  mkWorld (g_inTransaction w) (g_hookCount w) (g_trampolines w) (mem w) c (logs w) (calls w) (clock w).

Definition set_logs (l : list LogEntry) (w : World) : World :=
  mkWorld (g_inTransaction w) (g_hookCount w) (g_trampolines w) (mem w) (cells w) l (calls w) (clock w).

Definition set_calls (l : list Z) (w : World) : World :=
  mkWorld (g_inTransaction w) (g_hookCount w) (g_trampolines w) (mem w) (cells w) (logs w) l (clock w).

Definition set_clock (n : nat) (w : World) : World :=
  mkWorld (g_inTransaction w) (g_hookCount w) (g_trampolines w) (mem w) (cells w) (logs w) (calls w) n.

(** ** A state monad with faults

    [None] is a crash of the process (a null pointer is dereferenced). *)

Definition M (A : Type) : Type := World -> option (A * World).

Definition ret {A : Type} (a : A) : M A := fun w => Some (a, w).

Definition bind {A B : Type} (m : M A) (k : A -> M B) : M B :=
  fun w => match m w with
           | Some (a, w') => k a w'
           | None => None
           end.

Definition fault {A : Type} : M A := fun _ => None.

Declare Scope monad_scope.
Delimit Scope monad_scope with monad.
Notation "x <- c ;; k" := (bind c (fun x => k))
  (at level 61, c at next level, right associativity) : monad_scope.
Notation "c ;;; k" := (bind c (fun _ => k))
  (at level 61, right associativity) : monad_scope.
Open Scope monad_scope.

Definition gets {A : Type} (f : World -> A) : M A := fun w => Some (f w, w).

Definition modify (f : World -> World) : M unit := fun w => Some (tt, f w).

Definition log (l : Level) (s : string) : M unit :=
  modify (fun w => set_logs (logs w ++ [mkLog l s]) w).

(** Read the clock and advance it: one call into the operating system. *)
Definition tick : M nat :=
  fun w => Some (clock w, set_clock (S (clock w)) w).

(** [*p] for a [void**]: a fault at the null pointer. *)
Definition load_cell (p : Z) : M Z :=
  if p =? 0 then fault else gets (fun w => cells w p).

(** [*p = v]. *)
Definition store_cell (p v : Z) : M unit :=
  if p =? 0 then fault
  else modify (fun w => set_cells (fun a => if a =? p then v else cells w a) w).

(** ** Bytes *)

Definition byte_of (v : Z) (i : nat) : Z :=
  Z.land (Z.shiftr v (8 * Z.of_nat i)) 255.

(** Little-endian bytes of a 32-bit instruction word and of a 64-bit pointer. *)
Definition le32 (v : Z) : list Z := map (byte_of v) (seq 0 4).
Definition le64 (v : Z) : list Z := map (byte_of v) (seq 0 8).

Fixpoint store_bytes (m : Z -> Z) (a : Z) (bs : list Z) : Z -> Z :=
  match bs with
  | [] => m
  | b :: bs' => store_bytes (fun x => if x =? a then b else m x) (a + 1) bs'
  end.

Fixpoint load_bytes (m : Z -> Z) (a : Z) (n : nat) : list Z :=
  match n with
  | O => []
  | S n' => m a :: load_bytes m (a + 1) n'
  end.

Definition wrap_int32 (v : Z) : Z := (v + 2 ^ 31) mod 2 ^ 32 - 2 ^ 31.

(** ** Platform/Hooking.cpp *)

Module Hooking.

(** ARM64 encodings.  [EncodeLdrX16Imm] ignores its argument. *)
Definition EncodeLdrX16Imm (imm : Z) : Z := 0x58000050.
Definition EncodeBrX16 : Z := 0xD61F0200.

(** [(size + pageSize - 1) & ~(pageSize - 1)] on [size_t]. *)
Definition AlignToPage (os : OS) (size : Z) : Z :=
  Z.land (Z.land (size + page_size os - 1) (Z.lnot (page_size os - 1)))
         (Z.ones 64).

(** The 16 bytes of [LDR x16, #8; BR x16; .quad dest]. *)
Definition jump_sequence (dest : Z) : list Z :=
  le32 (EncodeLdrX16Imm 8) ++ le32 EncodeBrX16 ++ le64 dest.

Section WithConfig.

Variable backend : Backend.
Variable os : OS.

Definition DetourTransactionBegin : M Z :=
  inT <- gets g_inTransaction ;;
  if inT then ret (-1)
  else
    modify (set_inTransaction true) ;;;
    match backend with
    | FridaGadget =>
        log debug "[Hooking] Transaction begin (Frida Gadget mode)" ;;;
        ret NO_ERROR
    | Native => ret NO_ERROR
    end.

Definition DetourTransactionCommit : M Z :=
  inT <- gets g_inTransaction ;;
  if negb inT then ret (-1)
  else
    modify (set_inTransaction false) ;;;
    match backend with
    | FridaGadget =>
        log info "[Hooking] Transaction commit: {} hooks registered (handled by Frida Gadget)" ;;;
        ret NO_ERROR
    | Native => ret NO_ERROR
    end.

Definition DetourTransactionAbort : M Z :=
  inT <- gets g_inTransaction ;;
  if negb inT then ret (-1)
  else
    match backend with
    | FridaGadget =>
        modify (set_inTransaction false) ;;;
        modify (set_hookCount 0) ;;;
        log debug "[Hooking] Transaction aborted" ;;;
        ret NO_ERROR
    | Native =>
        (* Clean up any pending trampolines *)
        modify (set_trampolines []) ;;;
        modify (set_inTransaction false) ;;;
        ret NO_ERROR
    end.

Definition DetourUpdateThread (hThread : Z) : M Z := ret NO_ERROR.

(** [DetourAttach(void** ppPointer, void* pDetour)].  The in-out parameter is
    passed by value: the function takes the pointer stored in [*ppPointer] and
    returns the error code together with the pointer stored there on exit. *)
Definition DetourAttach (pPointer pDetour : Z) : M (Z * Z) :=
  inT <- gets g_inTransaction ;;
  if negb inT then
    log error "[Hooking] DetourAttach failed: not in transaction" ;;;
    ret (-1, pPointer)
  else
    let pTarget := pPointer in
    match backend with
    | FridaGadget =>
        if (pTarget =? 0) || (pDetour =? 0) then
          log error "[Hooking] DetourAttach failed: null pointer" ;;;
          ret (-1, pPointer)
        else
          n <- gets g_hookCount ;;
          modify (set_hookCount (wrap_int32 (n + 1))) ;;;
          log info "[Hooking] Hook #{} registered at {} -> {} (Frida Gadget handles actual hook)" ;;;
          (* *ppPointer is intentionally left as it is *)
          ret (NO_ERROR, pPointer)
    | Native =>
        if (pTarget =? 0) || (pDetour =? 0) then
          log error "[Hooking] DetourAttach failed: null pointer (target={}, detour={})" ;;;
          ret (-1, pPointer)
        else
          log debug "[Hooking] DetourAttach: target={}, detour={}" ;;;
          let trampolineSize := AlignToPage os 16 in
          t <- tick ;;
          match mmap_result os t with
          | None =>
              log error "[Hooking] DetourAttach failed: mmap RW failed, errno={}" ;;;
              ret (-1, pPointer)
          | Some pTrampolineMem =>
              log debug "[Hooking] Allocated trampoline memory at {} (RW)" ;;;
              modify (fun w =>
                set_mem (store_bytes (mem w) pTrampolineMem (jump_sequence pTarget)) w) ;;;
              t <- tick ;;
              if negb (mprotect_ok os t) then
                log error "[Hooking] DetourAttach failed: mprotect to RX failed, errno={}" ;;;
                ret (-1, pPointer)
              else
                log debug "[Hooking] Changed trampoline to RX" ;;;
                let patch := jump_sequence pDetour in
                log debug "[Hooking] Attempting to change protection for {} (16 bytes)" ;;;
                t <- tick ;;
                if negb (protect_ok os t) then
                  log error "[Hooking] DetourAttach failed: ProtectMemory failed at {}, errno={}" ;;;
                  ret (-1, pPointer)
                else
                  log debug "[Hooking] Protection changed, old={:#x}" ;;;
                  modify (fun w => set_mem (store_bytes (mem w) pTarget patch) w) ;;;
                  log debug "[Hooking] Patch written to {}" ;;;
                  _ <- tick ;;
                  modify (fun w =>
                    set_trampolines
                      (g_trampolines w ++
                       [Trampoline_new pTarget pDetour pTrampolineMem trampolineSize]) w) ;;;
                  ret (NO_ERROR, pTrampolineMem)
          end
    end.

(** [std::find_if] over [g_trampolines]: the elements before the first match,
    the match, and the elements after it. *)
Fixpoint find_trampoline (pTrampoline pDetour : Z) (l : list Trampoline)
  : option (list Trampoline * Trampoline * list Trampoline) :=
  match l with
  | [] => None
  | t :: l' =>
      if (trampolineMem t =? pTrampoline) && (detour t =? pDetour)
      then Some ([], t, l')
      else match find_trampoline pTrampoline pDetour l' with
           | Some (pre, m, post) => Some (t :: pre, m, post)
           | None => None
           end
  end.

Definition DetourDetach (pPointer pDetour : Z) : M (Z * Z) :=
  inT <- gets g_inTransaction ;;
  if negb inT then ret (-1, pPointer)
  else
    match backend with
    | FridaGadget =>
        log debug "[Hooking] DetourDetach called (Frida Gadget handles cleanup)" ;;;
        ret (NO_ERROR, pPointer)
    | Native =>
        let pTrampoline := pPointer in
        if (pTrampoline =? 0) || (pDetour =? 0) then ret (-1, pPointer)
        else
          ts <- gets g_trampolines ;;
          match find_trampoline pTrampoline pDetour ts with
          | None => ret (-1, pPointer)
          | Some (pre, trampoline, post) =>
              let pTarget := target trampoline in
              t <- tick ;;
              if negb (protect_ok os t) then ret (-1, pPointer)
              else
                (* no byte of the target is written between the two
                   protection changes *)
                _ <- tick ;;
                modify (set_trampolines (pre ++ post)) ;;;
                ret (NO_ERROR, pTarget)
          end
    end.

End WithConfig.

End Hooking.

(** ** Hook.hpp *)

Module Hook.

(** Modelled from the spec: [Hook.hpp] is not among the sources; only its
    uses are ([GetAddress], [Attach], [Detach] in [HookingSystem.cpp] and in
    [Hooks/AssertionFailed.cpp]).  A function hook holds the address it
    redirects and the detour; [Attach] and [Detach] hand the address field
    itself to [DetourAttach] and [DetourDetach] as their in-out pointer, so
    that after an attach the field is the "original" entry point (the
    untouched address or the trampoline), which [GetAddress] reports. *)
Record t : Type := mk {
  m_address : Z;
  m_detour : Z
}.

Definition of_address (aAddress aDetour : Z) : t := mk aAddress aDetour.

Definition of_hash (os : OS) (aHash aDetour : Z) : t :=
  mk (resolve_hash os aHash) aDetour.

Definition GetAddress (h : t) : Z := m_address h.

Definition Attach (backend : Backend) (os : OS) (h : t) : M (Z * t) :=
  r <- Hooking.DetourAttach backend os (m_address h) (m_detour h) ;;
  ret (fst r, mk (snd r) (m_detour h)).

Definition Detach (backend : Backend) (os : OS) (h : t) : M (Z * t) :=
  r <- Hooking.DetourDetach backend (os) (m_address h) (m_detour h) ;;
  ret (fst r, mk (snd r) (m_detour h)).

End Hook.

(** ** DetourTransaction.cpp *)

Module DetourTransaction.

Inductive State : Type :=
| Invalid
| Started
| Committed
| Aborted
| Failed.

Definition State_eqb (a b : State) : bool :=
  match a, b with
  | Invalid, Invalid | Started, Started | Committed, Committed
  | Aborted, Aborted | Failed, Failed => true
  | _, _ => false
  end.

(** [m_threads] are the thread ports suspended by the transaction; the
    source location is only used in diagnostics. *)
Record t : Type := mk {
  m_state : State;
  m_threads : list Z
}.

Section WithConfig.

Variable backend : Backend.
Variable os : OS.

(** The loop of [QueueThreadsForUpdate] over the ports of [task_threads]. *)
Fixpoint suspend_all (ports : list (Z * bool)) (acc : list Z) : M (list Z) :=
  match ports with
  | [] => ret acc
  | (port, suspended) :: rest =>
      if negb (port =? self_thread os) then
        if suspended then suspend_all rest (acc ++ [port])
        else
          log warn "Could not suspend thread {}." ;;;
          suspend_all rest acc
      else suspend_all rest acc
  end.

Definition QueueThreadsForUpdate (threads : list Z) : M (list Z) :=
  log trace "Queueing threads for detour update..." ;;;
  c <- tick ;;
  match task_threads os c with
  | None =>
      log warn "Could not retrieve task threads. Error code: {}" ;;;
      ret threads
  | Some ports =>
      ths <- suspend_all ports threads ;;
      log trace "{} thread(s) queued for detour update (excl. current thread)" ;;;
      ret ths
  end.

(** The constructor. *)
Definition new : M t :=
  log trace "Trying to start a detour transaction in '{}' ({}:{})" ;;;
  result <- Hooking.DetourTransactionBegin backend ;;
  if result =? NO_ERROR then
    log trace "Transaction was started successfully" ;;;
    ths <- QueueThreadsForUpdate [] ;;
    ret (mk Started ths)
  else
    log error "Could not start the detour transaction in '{}' ({}:{}). Detour error code: {}" ;;;
    ret (mk Invalid []).

Definition IsValid (tr : t) : bool := negb (State_eqb (m_state tr) Invalid).

Definition Commit (tr : t) : M (bool * t) :=
  log trace "Committing the transaction..." ;;;
  if negb (State_eqb (m_state tr) Started) && negb (State_eqb (m_state tr) Failed) then
    match m_state tr with
    | Invalid => log warn "The transaction is in an invalid state"
    | Committed => log warn "The transaction is already committed"
    | Aborted => log warn "The transaction is aborted, can not commit it"
    | _ => log warn "Unknown transaction state. State: {}"
    end ;;;
    ret (false, tr)
  else
    result <- Hooking.DetourTransactionCommit backend ;;
    if negb (result =? NO_ERROR) then
      log error "Could not commit the transaction. Detours error code: {}" ;;;
      ret (false, tr)
    else
      (* the suspended threads are resumed and m_threads is cleared *)
      log trace "The transaction was committed successfully" ;;;
      ret (true, mk Committed []).

Definition Abort (tr : t) : M (bool * t) :=
  log trace "Aborting the transaction..." ;;;
  if negb (State_eqb (m_state tr) Started) && negb (State_eqb (m_state tr) Failed) then
    match m_state tr with
    | Invalid => log warn "The transaction is in an invalid state"
    | Committed => log warn "The transaction is committed, can not abort it"
    | Aborted => log warn "The transaction is already aborted"
    | _ => log warn "Unknown transaction state. State: {}"
    end ;;;
    ret (false, tr)
  else
    result <- Hooking.DetourTransactionAbort backend ;;
    if negb (result =? NO_ERROR) then
      (* If this happen, we can't abort it. *)
      log error "Could not abort the transaction. Detours error code: {}" ;;;
      ret (false, mk Failed (m_threads tr))
    else
      log trace "The transaction was aborted successfully" ;;;
      ret (true, mk Aborted []).

(** The destructor; the result is the object as it is left. *)
Definition delete (tr : t) : M t :=
  if State_eqb (m_state tr) Started then
    r <- Abort tr ;;
    ret (snd r)
  else ret tr.

End WithConfig.

End DetourTransaction.

(** ** GameStateHook.hpp *)

Module GameStateHook.

Record FuncHook : Type := mkFuncHook {
  shouldExecute : bool;
  detour : Z;
  orig : Z
}.

Definition FuncHook_new (aDetour : Z) : FuncHook := mkFuncHook true aDetour 0.

Definition set_shouldExecute (b : bool) (f : FuncHook) : FuncHook :=
  mkFuncHook b (detour f) (orig f).

Definition set_orig (o : Z) (f : FuncHook) : FuncHook :=
  mkFuncHook (shouldExecute f) (detour f) o.

Record t : Type := mk {
  m_isAttached : bool;
  m_onEnter : FuncHook;
  m_onUpdate : FuncHook;
  m_onExit : FuncHook
}.

Definition new (aOnEnter aOnUpdate aOnExit : Z) : t :=
  mk false (FuncHook_new aOnEnter) (FuncHook_new aOnUpdate) (FuncHook_new aOnExit).

(** The three lifecycle slots of the virtual table. *)
Inductive Slot : Type :=
| Enter
| Update
| Exit.

Definition slot_index (s : Slot) : Z :=
  match s with
  | Enter => 3
  | Update => 4
  | Exit => 5
  end.

Definition get_slot (s : Slot) (h : t) : FuncHook :=
  match s with
  | Enter => m_onEnter h
  | Update => m_onUpdate h
  | Exit => m_onExit h
  end.

Definition set_slot (s : Slot) (f : FuncHook) (h : t) : t :=
  match s with
  | Enter => mk (m_isAttached h) f (m_onUpdate h) (m_onExit h)
  | Update => mk (m_isAttached h) (m_onEnter h) f (m_onExit h)
  | Exit => mk (m_isAttached h) (m_onEnter h) (m_onUpdate h) f
  end.

(** [vtbl[i]], a pointer-sized entry of the table at [vtbl]. *)
Definition load_entry (vtbl i : Z) : M Z :=
  if vtbl =? 0 then fault else gets (fun w => cells w (vtbl + 8 * i)).

Definition store_entry (vtbl i v : Z) : M unit :=
  if vtbl =? 0 then fault
  else modify (fun w =>
         set_cells (fun a => if a =? vtbl + 8 * i then v else cells w a) w).

Section WithOS.

Variable os : OS.

(** A call through a function pointer into the game.  Of the call only
    what the hook object sees is modelled: that it is made, and the [bool]
    that it returns.  What the game function does to the game, and a call
    back into the hook from inside it, are outside the model. *)
Definition call (f : Z) : M bool :=
  c <- tick ;;
  modify (fun w => set_calls (calls w ++ [f]) w) ;;;
  ret (call_result os c f).

Definition SwapVFuncs (aState aOnEnter aOnUpdate aOnExit : Z) : M bool :=
  vtbl <- load_cell aState ;;
  (* MemoryProtection _(addr, size, Platform::Memory_ReadWrite) *)
  log trace "Trying to change the protection at {} ({} byte(s)) to {:#x}..." ;;;
  c <- tick ;;
  if negb (protect_ok os c) then
    log warn "Could not change protection at {} ({} byte(s)) to {:#x}. Error code: {}, msg: '{}'" ;;;
    (* catch (const MemoryProtection::Exception&) *)
    log warn "Could not change / restoring the protection for '{}' state, the execution will continue but unexpected behavior might happen" ;;;
    ret false
  else
    log trace "The protection at {} was successfully changed from {:#x} to {:#x}" ;;;
    log trace "Changing 'OnEnter' function at {} from {} to {}..." ;;;
    store_entry vtbl 3 aOnEnter ;;;
    log trace "'OnEnter' function was changed successfully" ;;;
    log trace "Changing 'OnUpdate' function at {} from {} to {}..." ;;;
    store_entry vtbl 4 aOnUpdate ;;;
    log trace "'OnUpdate' function was changed successfully" ;;;
    log trace "Changing 'OnExit' function at {} from {} to {}..." ;;;
    store_entry vtbl 5 aOnExit ;;;
    log trace "'OnExit' function was changed successfully" ;;;
    (* ~MemoryProtection *)
    log trace "Trying to restore the protection at {} ({} byte(s)) to {:#x}..." ;;;
    c <- tick ;;
    (if negb (protect_ok os c) then
       log warn "Could not restore protection at {} ({} byte(s)) to {:#x}. Error code: {}, msg: '{}'"
     else
       log trace "The protection at {} was successfully restored from {:#x} to {:#x}") ;;;
    ret true.

Definition AttachAt (h : t) (aState : Z) : M (bool * t) :=
  vtbl <- load_cell aState ;;
  log trace "Changing virtual functions for '{}' state at {}..." ;;;
  e <- load_entry vtbl 3 ;;
  u <- load_entry vtbl 4 ;;
  x <- load_entry vtbl 5 ;;
  let h' := mk (m_isAttached h)
               (set_orig e (m_onEnter h))
               (set_orig u (m_onUpdate h))
               (set_orig x (m_onExit h)) in
  ok <- SwapVFuncs aState (detour (m_onEnter h')) (detour (m_onUpdate h'))
                   (detour (m_onExit h')) ;;
  if ok then
    log trace "Virtual functions for '{}' state were changed successfully" ;;;
    ret (true, h')
  else ret (false, h').

Definition DetachAt (h : t) (aState : Z) : M (bool * t) :=
  _ <- load_cell aState ;;
  log trace "Restoring virtual functions for '{}' state at {}..." ;;;
  ok <- SwapVFuncs aState (orig (m_onEnter h)) (orig (m_onUpdate h))
                   (orig (m_onExit h)) ;;
  if ok then
    log trace "Virtual functions for '{}' state were restored successfully" ;;;
    ret (true, h)
  else ret (false, h).

(** [OnEnter], [OnUpdate] and [OnExit] are the same code on the three
    members [m_onEnter], [m_onUpdate] and [m_onExit]. *)
Definition OnSlot (s : Slot) (h : t) (aState aApp : Z) : M (bool * t) :=
  if shouldExecute (get_slot s h) && negb (orig (get_slot s h) =? 0) then
    result <- call (orig (get_slot s h)) ;;
    ret (result, set_slot s (set_shouldExecute (negb result) (get_slot s h)) h)
  else ret (true, h).

Definition OnEnter := OnSlot Enter.
Definition OnUpdate := OnSlot Update.
Definition OnExit := OnSlot Exit.

(** What a client can do with a hook object after its construction. *)
Inductive Op : Type :=
| OpAttachAt (aState : Z)
| OpDetachAt (aState : Z)
| OpOn (s : Slot) (aState aApp : Z).

Definition step (h : t) (o : Op) : M t :=
  match o with
  | OpAttachAt a => r <- AttachAt h a ;; ret (snd r)
  | OpDetachAt a => r <- DetachAt h a ;; ret (snd r)
  | OpOn s a app => r <- OnSlot s h a app ;; ret (snd r)
  end.

Fixpoint steps (h : t) (l : list Op) : M t :=
  match l with
  | [] => ret h
  | o :: l' => h' <- step h o ;; steps h' l'
  end.

End WithOS.

End GameStateHook.

(** ** Systems/HookingSystem.cpp *)

Module HookingSystem.

(** A plugin is identified by the address its [shared_ptr] holds. *)
Definition Plugin : Type := Z.

Record Item : Type := mkItem {
  target : Z;
  symbol : option string;     (* None is the null [const char*] *)
  original : Z;               (* the caller's [void**], possibly null *)
  hook : Hook.t
}.

Definition Item_of_target (aTarget aDetour aOriginal : Z) : Item :=
  mkItem aTarget None aOriginal (Hook.of_address aTarget aDetour).

Definition Item_of_symbol (os : OS) (aSymbol : string) (aDetour aOriginal : Z) : Item :=
  mkItem 0 (Some aSymbol) aOriginal (Hook.of_hash os 0 aDetour).

Definition set_hook (h : Hook.t) (i : Item) : Item :=
  mkItem (target i) (symbol i) (original i) h.

(** [m_hooks], a [std::unordered_multimap]: the list of its entries in
    iteration order.  A new entry is put at the end. *)
Definition Map_t : Type := list (Plugin * Item).

Section WithConfig.

Variable backend : Backend.
Variable os : OS.

(** [rebind_symbols] belongs to fishhook, not to the engine.  Of a call only
    its result and the pointer that it stores through [rebind.replaced] are
    modelled; the binding of the symbol, which it rewrites in the images of
    the process, is not part of the world. *)
Definition QueueForDetach (aPlugin : Plugin) (aItem : Item) : M (bool * Item) :=
  match symbol aItem with
  | Some _ =>
      _ <- load_cell (original aItem) ;;      (* rebind.replacement = *aItem.original *)
      c <- tick ;;
      if negb (rebind_ok os c) then
        log warn "A hook attached by '{}' at symbol '{}' could not be detached." ;;;
        ret (false, aItem)
      else
        log trace "A hook attached by '{}' at symbol '{}' has been successfully queued for detaching" ;;;
        ret (true, aItem)
  | None =>
      log trace "Queueing a hook attached by '{}' at {} for detaching..." ;;;
      r <- Hook.Detach backend os (hook aItem) ;;
      let aItem' := set_hook (snd r) aItem in
      if negb (fst r =? NO_ERROR) then
        log warn "A hook attached by '{}' at {} could not be detached. Detour error code: {}" ;;;
        ret (false, aItem')
      else
        log trace "A hook attached by '{}' at {} has been successfully queued for detaching" ;;;
        ret (true, aItem')
  end.

(** The loop of [Shutdown] over all the entries. *)
Fixpoint detach_all (l : Map_t) (count : nat) : M (Map_t * nat) :=
  match l with
  | [] => ret ([], count)
  | (plugin, item) :: rest =>
      r <- QueueForDetach plugin item ;;
      r' <- detach_all rest (if fst r then S count else count) ;;
      ret ((plugin, snd r) :: fst r', snd r')
  end.

Definition Shutdown (m_hooks : Map_t) : M Map_t :=
  log trace "Detaching {} dangling hook(s)..." ;;;
  transaction <- DetourTransaction.new backend os ;;
  r <- detach_all m_hooks 0%nat ;;
  c <- DetourTransaction.Commit backend (transaction) ;;
  (if fst c then log trace "{} dangling hook(s) detached"
   else log trace "Could not detach {} dangling hook(s)") ;;;
  _ <- DetourTransaction.delete backend (snd c) ;;
  ret [].

(** [Attach] by symbol name. *)
Definition AttachSymbol (m_hooks : Map_t) (aPlugin : Plugin) (aSymbol : string)
    (aDetour aOriginal : Z) : M (bool * Map_t) :=
  log trace "Attaching a hook for '{}' at symbol '{}' with detour at {}..." ;;;
  c <- tick ;;
  if negb (rebind_ok os c) then
    log warn "The hook requested by '{}' at symbol '{}' could not be attached." ;;;
    ret (false, m_hooks)
  else
    match rebind_found os c with
    | Some old => if aOriginal =? 0 then ret tt else store_cell aOriginal old
    | None => ret tt
    end ;;;
    log trace "The hook requested by '{}' at symbol '{}' has been successfully attached" ;;;
    ret (true, m_hooks ++ [(aPlugin, Item_of_symbol os aSymbol aDetour aOriginal)]).

(** [Attach] by address. *)
Definition Attach (m_hooks : Map_t) (aPlugin : Plugin) (aTarget aDetour aOriginal : Z)
  : M (bool * Map_t) :=
  log trace "Attaching a hook for '{}' at {} with detour at {}..." ;;;
  transaction <- DetourTransaction.new backend os ;;
  let item := Item_of_target aTarget aDetour aOriginal in
  r <- Hook.Attach backend os (hook item) ;;
  let item := set_hook (snd r) item in
  if negb (fst r =? NO_ERROR) then
    log warn "The hook requested by '{}' at {} could not be attached. Detour error code: {}" ;;;
    _ <- DetourTransaction.delete backend transaction ;;
    ret (false, m_hooks)
  else
    c <- DetourTransaction.Commit backend transaction ;;
    if fst c then
      (if negb (aOriginal =? 0)
       then store_cell aOriginal (Hook.GetAddress (hook item))
       else ret tt) ;;;
      log trace "The hook requested by '{}' at {} has been successfully attached" ;;;
      _ <- DetourTransaction.delete backend (snd c) ;;
      ret (true, m_hooks ++ [(aPlugin, item)])
    else
      log warn "The hook requested by '{}' at {} was not attached" ;;;
      _ <- DetourTransaction.delete backend (snd c) ;;
      ret (false, m_hooks).

(** [item.target == aTarget ||
     (item.symbol && item.original && *item.original == aTarget)]. *)
Definition matches (item : Item) (aTarget : Z) : M bool :=
  if target item =? aTarget then ret true
  else
    match symbol item with
    | None => ret false
    | Some _ =>
        if original item =? 0 then ret false
        else
          v <- load_cell (original item) ;;
          ret (v =? aTarget)
    end.

(** The first loop of [Detach], over the entries of [aPlugin]. *)
Fixpoint detach_queue (aPlugin : Plugin) (aTarget : Z) (l : Map_t)
    (count : nat) (hasHook : bool) : M (Map_t * (nat * bool)) :=
  match l with
  | [] => ret ([], (count, hasHook))
  | (plugin, item) :: rest =>
      if plugin =? aPlugin then
        m <- matches item aTarget ;;
        if m then
          r <- QueueForDetach aPlugin item ;;
          r' <- detach_queue aPlugin aTarget rest
                  (if fst r then S count else count) true ;;
          ret ((plugin, snd r) :: fst r', snd r')
        else
          r' <- detach_queue aPlugin aTarget rest count hasHook ;;
          ret ((plugin, item) :: fst r', snd r')
      else
        r' <- detach_queue aPlugin aTarget rest count hasHook ;;
        ret ((plugin, item) :: fst r', snd r')
  end.

(** The second loop of [Detach]: the matching entries are erased and their
    original slots are cleared. *)
Fixpoint detach_erase (aPlugin : Plugin) (aTarget : Z) (l : Map_t) : M Map_t :=
  match l with
  | [] => ret []
  | (plugin, item) :: rest =>
      if plugin =? aPlugin then
        m <- matches item aTarget ;;
        if m then
          (if negb (original item =? 0) then store_cell (original item) 0
           else ret tt) ;;;
          detach_erase aPlugin aTarget rest
        else
          rest' <- detach_erase aPlugin aTarget rest ;;
          ret ((plugin, item) :: rest')
      else
        rest' <- detach_erase aPlugin aTarget rest ;;
        ret ((plugin, item) :: rest')
  end.

Definition Detach (m_hooks : Map_t) (aPlugin : Plugin) (aTarget : Z)
  : M (bool * Map_t) :=
  log trace "Detaching all hooks attached by '{}' at {}..." ;;;
  transaction <- DetourTransaction.new backend os ;;
  q <- detach_queue aPlugin aTarget m_hooks 0%nat false ;;
  let m_hooks := fst q in
  let count := fst (snd q) in
  let hasHook := snd (snd q) in
  if negb hasHook then
    log warn "No hooks attached by '{}' at {} were found" ;;;
    _ <- DetourTransaction.delete backend transaction ;;
    ret ((0 <? count)%nat, m_hooks)
  else if (count =? 0)%nat then
    log warn "No hooks attached by '{}' at {} were queued for detaching" ;;;
    _ <- DetourTransaction.delete backend transaction ;;
    ret ((0 <? count)%nat, m_hooks)
  else
    c <- DetourTransaction.Commit backend transaction ;;
    if fst c then
      log trace "{} hook(s) attached by '{}' at {} have been successfully detached" ;;;
      m_hooks' <- detach_erase aPlugin aTarget m_hooks ;;
      _ <- DetourTransaction.delete backend (snd c) ;;
      ret ((0 <? count)%nat, m_hooks')
    else
      _ <- DetourTransaction.delete backend (snd c) ;;
      ret ((0 <? count)%nat, m_hooks).

End WithConfig.

End HookingSystem.

(** * Specifications

    The predicates in which the properties of the engine are stated. *)

(** Total correctness of a computation from a given world: it does not
    fault, and its result and final world satisfy [Q]. *)
Definition wp {A : Type} (m : M A) (Q : A -> World -> Prop) (w : World) : Prop :=
  match m w with
  | Some (a, w') => Q a w'
  | None => False
  end.

Arguments wp {A} m Q w : simpl never.

(** The part of the world that the bookkeeping of a transaction leaves
    alone: memory, data cells and the record of calls; the log only grows. *)
Definition quiet (w w' : World) : Prop :=
  mem w' = mem w /\ cells w' = cells w /\ calls w' = calls w /\
  exists l, logs w' = logs w ++ l.

(** The world up to the clock and the log. *)
Definition steady (w w' : World) : Prop :=
  quiet w w' /\ g_inTransaction w' = g_inTransaction w /\
  g_hookCount w' = g_hookCount w /\ g_trampolines w' = g_trampolines w.

(** ** Several transaction objects

    The clients of [DetourTransaction] construct objects, commit or abort
    them and let them go out of scope.  An object that has been destroyed
    stays in the list in the state in which its destructor left it. *)

Module Transactions.

Inductive Op : Type :=
| New
| Commit (i : nat)
| Abort (i : nat)
| Delete (i : nat).

Fixpoint update {A : Type} (l : list A) (i : nat) (a : A) : list A :=
  match l, i with
  | [], _ => []
  | _ :: l', O => a :: l'
  | x :: l', S i' => x :: update l' i' a
  end.

Section WithConfig.

Variable backend : Backend.
Variable os : OS.

Definition step (objs : list DetourTransaction.t) (o : Op)
  : M (list DetourTransaction.t) :=
  match o with
  | New =>
      tr <- DetourTransaction.new backend os ;;
      ret (objs ++ [tr])
  | Commit i =>
      match nth_error objs i with
      | Some tr =>
          r <- DetourTransaction.Commit backend tr ;;
          ret (update objs i (snd r))
      | None => ret objs
      end
  | Abort i =>
      match nth_error objs i with
      | Some tr =>
          r <- DetourTransaction.Abort backend tr ;;
          ret (update objs i (snd r))
      | None => ret objs
      end
  | Delete i =>
      match nth_error objs i with
      | Some tr =>
          tr' <- DetourTransaction.delete backend tr ;;
          ret (update objs i tr')
      | None => ret objs
      end
  end.

Fixpoint run (objs : list DetourTransaction.t) (ops : list Op)
  : M (list DetourTransaction.t) :=
  match ops with
  | [] => ret objs
  | o :: ops' => objs' <- step objs o ;; run objs' ops'
  end.

End WithConfig.

Definition is_started (tr : DetourTransaction.t) : bool :=
  DetourTransaction.State_eqb (DetourTransaction.m_state tr) DetourTransaction.Started.

Definition is_failed (tr : DetourTransaction.t) : bool :=
  DetourTransaction.State_eqb (DetourTransaction.m_state tr) DetourTransaction.Failed.

(** The number of objects in the [Started] state. *)
Definition started (objs : list DetourTransaction.t) : nat :=
  List.length (filter is_started objs).

Definition weight (tr : DetourTransaction.t) : nat :=
  if is_started tr then 1%nat else 0%nat.

(** What the operations on transaction objects maintain: no object is
    [Failed], at most one is [Started], and while one is, the C interface has
    its transaction open. *)
Definition Inv (objs : list DetourTransaction.t) (w : World) : Prop :=
  (forall tr, In tr objs ->
     DetourTransaction.m_state tr <> DetourTransaction.Failed) /\
  (started objs = 0%nat \/ (started objs = 1%nat /\ g_inTransaction w = true)).

End Transactions.

(** ** Scenarios

    A process in which nothing has been hooked yet, and an operating system
    in which every call succeeds: [mmap] hands out the pages from [0x7000]
    on, one per call, and the game functions return [true]. *)

Definition world0 : World :=
  mkWorld false 0 [] (fun _ => 0) (fun _ => 0) [] [] 0.

Definition os_ok : OS :=
  mkOS 16384
       (fun c => Some (0x7000 + 16384 * Z.of_nat c))
       (fun _ => true)
       (fun _ => true)
       (fun _ => true)
       (fun _ => None)
       (fun _ _ => true)
       (fun _ => Some [])
       1
       (fun h => h).

(** What a run of a computation from [world0] shows. *)
Definition observe {A B : Type} (m : M A) (f : A -> World -> B) (w : World) : option B :=
  match m w with
  | Some (a, w') => Some (f a w')
  | None => None
  end.

(** A transaction whose abort fails, and what a later commit does with it:
    the first transaction is begun, the open transaction is committed through
    the C interface, so that the abort of the object fails and leaves it
    [Failed]; a second transaction begins, and the first object is
    committed.  The result is the state of the first object after the abort
    and after the commit. *)
Definition failed_then_committed (backend : Backend)
  : M (DetourTransaction.State * DetourTransaction.State) :=
  tr1 <- DetourTransaction.new backend os_ok ;;
  _ <- Hooking.DetourTransactionCommit backend ;;
  a <- DetourTransaction.Abort backend tr1 ;;
  _ <- DetourTransaction.new backend os_ok ;;
  c <- DetourTransaction.Commit backend (snd a) ;;
  ret (DetourTransaction.m_state (snd a), DetourTransaction.m_state (snd c)).

(** Partial correctness: if the computation does not fault, its result and
    final world satisfy [Q]. *)
Definition wlp {A : Type} (m : M A) (Q : A -> World -> Prop) (w : World) : Prop :=
  match m w with
  | Some (a, w') => Q a w'
  | None => True
  end.

Arguments wlp {A} m Q w : simpl never.

(** A game state object at [0x100] whose virtual table is at [0x200]; its
    lifecycle functions [OnEnter], [OnUpdate] and [OnExit] (slots 3 to 5) are
    at [0x1000], [0x1001] and [0x1002]. *)
Definition world_game : World :=
  set_cells (fun a =>
               if a =? 0x100 then 0x200
               else if a =? 0x200 + 8 * 3 then 0x1000
               else if a =? 0x200 + 8 * 4 then 0x1001
               else if a =? 0x200 + 8 * 5 then 0x1002
               else 0) world0.

(** The hook is attached, the original [OnEnter] runs once and reports a
    terminal result, the hook is detached and attached again, and [OnEnter]
    is entered once more. *)
Definition reattach_scenario : list GameStateHook.Op :=
  [ GameStateHook.OpAttachAt 0x100;
    GameStateHook.OpOn GameStateHook.Enter 0x100 0x300;
    GameStateHook.OpDetachAt 0x100;
    GameStateHook.OpAttachAt 0x100;
    GameStateHook.OpOn GameStateHook.Enter 0x100 0x300 ].

(** A function hook is attached and detached at once, inside one open
    transaction of the C interface.  The result is the pair of error codes of
    the attach and of the detach. *)
Definition attach_detach (backend : Backend) (os : OS) (aTarget aDetour : Z) : M (Z * Z) :=
  _ <- Hooking.DetourTransactionBegin backend ;;
  a <- Hook.Attach backend os (Hook.of_address aTarget aDetour) ;;
  d <- Hook.Detach backend os (snd a) ;;
  _ <- Hooking.DetourTransactionCommit backend ;;
  ret (fst a, fst d).

(** A scope in which a transaction object is constructed and a function hook
    is attached, and which is left without a commit or an abort: the
    destructor of the transaction runs.  The result is the error code of the
    attach and the state in which the destructor leaves the object. *)
Definition dangling_transaction (backend : Backend) (os : OS) (aTarget aDetour : Z)
  : M (Z * DetourTransaction.State) :=
  tr <- DetourTransaction.new backend os ;;
  a <- Hook.Attach backend os (Hook.of_address aTarget aDetour) ;;
  tr' <- DetourTransaction.delete backend tr ;;
  ret (fst a, DetourTransaction.m_state tr').

(** The 16 bytes at an address. *)
Definition window (w : World) (a : Z) : list Z := load_bytes (mem w) a 16.

(** ** The records that a detach request selects *)

(** The condition of [HookingSystem.matches] on the data cells [c]. *)
Definition matches_in (c : Z -> Z) (item : HookingSystem.Item) (aTarget : Z) : bool :=
  (HookingSystem.target item =? aTarget) ||
  match HookingSystem.symbol item with
  | Some _ =>
      negb (HookingSystem.original item =? 0) &&
      (c (HookingSystem.original item) =? aTarget)
  | None => false
  end.

(** Some record of [aPlugin] matches [aTarget]. *)
Definition has_match (c : Z -> Z) (aPlugin aTarget : Z) (m_hooks : HookingSystem.Map_t)
  : bool :=
  existsb (fun e => (fst e =? aPlugin) && matches_in c (snd e) aTarget) m_hooks.

(** No record by symbol has a null original slot. *)
Definition slots_present (m_hooks : HookingSystem.Map_t) : bool :=
  forallb (fun e => match HookingSystem.symbol (snd e) with
                    | Some _ => negb (HookingSystem.original (snd e) =? 0)
                    | None => true
                    end) m_hooks.

Definition no_hooks_found : LogEntry :=
  mkLog warn "No hooks attached by '{}' at {} were found".

(** Plugin [1] attaches two detours at [0x1000] and then detaches at
    [0x1000].  The result is the number of records before the detach, what
    the detach returns, and the number of records after it. *)
Definition double_attach_then_detach (backend : Backend) : M (nat * bool * nat) :=
  a1 <- HookingSystem.Attach backend os_ok [] 1 0x1000 0x2000 0x5000 ;;
  a2 <- HookingSystem.Attach backend os_ok (snd a1) 1 0x1000 0x2100 0x5008 ;;
  d <- HookingSystem.Detach backend os_ok (snd a2) 1 0x1000 ;;
  ret (List.length (snd a2), fst d, List.length (snd d)).

(** Plugin [1] rebinds the symbol [open] without asking for the original
    (a null [aOriginal]), and the registry is shut down. *)
Definition shutdown_after_symbol_hook (backend : Backend) : M HookingSystem.Map_t :=
  a <- HookingSystem.AttachSymbol os_ok [] 1 "open" 0x2000 0 ;;
  HookingSystem.Shutdown backend os_ok (snd a).

(** * More of the sources *)

(** ** Platform/MacOS.cpp: the range handed to the kernel *)

Module Platform.

(** [ProtectMemory] rounds the range it is given to whole pages before it
    calls [vm_protect]: the pair is [(alignedAddr, alignedSize)], computed on
    [uintptr_t] and [size_t]. *)
Definition ProtectMemory_range (os : OS) (aAddress aSize : Z) : Z * Z :=
  let pageSize := page_size os in
  let addr := aAddress in
  let alignedAddr := Z.land (Z.land addr (Z.lnot (pageSize - 1))) (Z.ones 64) in
  let alignedSize :=
    Z.land (Z.land (Z.land (addr + aSize - alignedAddr + pageSize - 1) (Z.ones 64))
                   (Z.lnot (pageSize - 1)))
           (Z.ones 64) in
  (alignedAddr, alignedSize).

End Platform.

(** ** Log.hpp: wide to narrow strings *)

Module Log.

(** The character that replaces what is not ASCII. *)
Definition question_mark : Z := 63.

(** One step of the loops of [Narrow]: a [wchar_t] below 128 is cast to
    [char], every other one becomes ['?']. *)
Definition narrow_char (c : Z) : Z :=
  if c <? 128 then Z.land c 255 else question_mark.

(** [Narrow(std::wstring_view)]: every character of the view. *)
Definition Narrow_view (ws : list Z) : list Z := map narrow_char ws.

(** [Narrow] of a pointer to [wchar_t], on the characters found there: [None]
    is the null pointer; the loop stops at the first zero. *)
Fixpoint narrow_until_zero (ws : list Z) : list Z :=
  match ws with
  | [] => []
  | c :: rest => if c =? 0 then [] else narrow_char c :: narrow_until_zero rest
  end.

Definition Narrow (ws : option (list Z)) : list Z :=
  match ws with
  | None => []
  | Some l => narrow_until_zero l
  end.

End Log.

(** ** Hooks/AssertionFailed.cpp and Hooks/ExecuteProcess.cpp

    The two files attach and detach one function hook each, with the same
    code up to the texts of the log entries. *)

Module Hooks.

(** The file-local state: the flag [isAttached] and the hook object. *)
Record t : Type := mk {
  isAttached : bool;
  fnc : Hook.t
}.

Record Messages : Type := mkMessages {
  msg_try_attach : string;
  msg_attach_failed : string;
  msg_attached : string;
  msg_try_detach : string;
  msg_detach_failed : string;
  msg_detached : string
}.

Definition AssertionFailed_messages : Messages :=
  mkMessages
    "Trying to attach the hook for the assertion failed function at {:#x}..."
    "Could not attach the hook for the assertion failed function. Detour error code: {}"
    "The hook for the assertion failed function was attached"
    "Trying to detach the hook for the assertion failed function at {:#x}..."
    "Could not detach the hook for the assertion failed function. Detour error code: {}"
    "The hook for the assertion failed function was detached".

Definition ExecuteProcess_messages : Messages :=
  mkMessages
    "Trying to attach the hook for execute process at {:#x}..."
    "Could not attach the hook for execute process. Detour error code: {}"
    "The hook for execute process was attached"
    "Trying to detach the hook for execute process at {:#x}..."
    "Could not detach the hook for execute process. Detour error code: {}"
    "The hook for execute process was detached".

Section WithConfig.

Variable backend : Backend.
Variable os : OS.
Variable msgs : Messages.

Definition Attach (s : t) : M (bool * t) :=
  log trace (msg_try_attach msgs) ;;;
  r <- Hook.Attach backend os (fnc s) ;;
  (if negb (fst r =? NO_ERROR) then log error (msg_attach_failed msgs)
   else log trace (msg_attached msgs)) ;;;
  ret (fst r =? NO_ERROR, mk (fst r =? NO_ERROR) (snd r)).

Definition Detach (s : t) : M (bool * t) :=
  if negb (isAttached s) then ret (false, s)
  else
    log trace (msg_try_detach msgs) ;;;
    r <- Hook.Detach backend os (fnc s) ;;
    (if negb (fst r =? NO_ERROR) then log error (msg_detach_failed msgs)
     else log trace (msg_detached msgs)) ;;;
    ret (negb (negb (fst r =? NO_ERROR)), mk (negb (fst r =? NO_ERROR)) (snd r)).

End WithConfig.

End Hooks.

(** ** Auxiliary notions for the properties below *)

(** The number that a little-endian sequence of bytes denotes. *)
Fixpoint decode_le (bs : list Z) : Z :=
  match bs with
  | [] => 0
  | b :: rest => b + 256 * decode_le rest
  end.

(** The ports that [QueueThreadsForUpdate] suspends: those that are not the
    calling thread and on which [thread_suspend] succeeds. *)
Definition suspendable (os : OS) (ports : list (Z * bool)) : list Z :=
  map fst (filter (fun p => negb (fst p =? self_thread os) && snd p) ports).

(** A record of [aPlugin] that a detach at [aTarget] could select, whatever
    the data cells hold: a record at that target, or any record by symbol. *)
Definition may_match (aPlugin aTarget : Z) (e : HookingSystem.Plugin * HookingSystem.Item)
  : bool :=
  (fst e =? aPlugin) &&
  ((HookingSystem.target (snd e) =? aTarget) ||
   match HookingSystem.symbol (snd e) with Some _ => true | None => false end).

(** The records that belong to other plugins. *)
Definition others (aPlugin : Z) (m_hooks : HookingSystem.Map_t) : HookingSystem.Map_t :=
  filter (fun e => negb (fst e =? aPlugin)) m_hooks.

(** A plugin attaches a hook by address and detaches at the same target
    twice. *)
Definition attach_detach_twice (backend : Backend) (os : OS)
    (m_hooks : HookingSystem.Map_t) (aPlugin aTarget aDetour aOriginal : Z)
  : M (bool * bool * bool * HookingSystem.Map_t) :=
  a <- HookingSystem.Attach backend os m_hooks aPlugin aTarget aDetour aOriginal ;;
  d1 <- HookingSystem.Detach backend os (snd a) aPlugin aTarget ;;
  d2 <- HookingSystem.Detach backend os (snd d1) aPlugin aTarget ;;
  ret (fst a, fst d1, fst d2, snd d2).

(** A world [w'] reached from [w] in which the flag, the count of hooks, the
    trampolines, the memory and the clock have the given values, the data
    cells and the record of calls are those of [w], and the log of [w] has
    grown. *)
Definition evolve (w w' : World) (g : bool) (hc : Z) (ts : list Trampoline)
    (m : Z -> Z) (ck : nat) : Prop :=
  g_inTransaction w' = g /\ g_hookCount w' = hc /\ g_trampolines w' = ts /\
  mem w' = m /\ clock w' = ck /\ cells w' = cells w /\ calls w' = calls w /\
  exists l, logs w' = logs w ++ l.

(** A hook object is attached and then detached.  The result is the error
    code of the attach, the error code of the detach, and the object after
    the detach. *)
Definition hook_round_trip (backend : Backend) (os : OS) (h : Hook.t)
  : M (Z * Z * Hook.t) :=
  a <- Hook.Attach backend os h ;;
  d <- Hook.Detach backend os (snd a) ;;
  ret (fst a, fst d, snd d).

(** A world [w'] reached from [w] in which the data cells and the clock
    have the given values and the memory, the record of calls and the state
    of the C interface are those of [w]. *)
Definition vstate (w w' : World) (c : Z -> Z) (ck : nat) : Prop :=
  cells w' = c /\ clock w' = ck /\ mem w' = mem w /\ calls w' = calls w /\
  g_inTransaction w' = g_inTransaction w /\ g_hookCount w' = g_hookCount w /\
  g_trampolines w' = g_trampolines w.

(** The data cells after the three lifecycle entries of the table at [vtbl]
    have been overwritten, in the order of [SwapVFuncs]. *)
Definition swapped (c : Z -> Z) (vtbl e u x : Z) : Z -> Z :=
  fun a => if a =? vtbl + 8 * 5 then x
           else if a =? vtbl + 8 * 4 then u
           else if a =? vtbl + 8 * 3 then e
           else c a.

(** A hook object is attached at a game state and detached from it.  The
    result is what the two calls returned. *)
Definition vtable_round_trip (os : OS) (h : GameStateHook.t) (aState : Z)
  : M (bool * bool * GameStateHook.t) :=
  a <- GameStateHook.AttachAt os h aState ;;
  d <- GameStateHook.DetachAt os (snd a) aState ;;
  ret (fst a, fst d, snd d).

(** A hook object is attached twice at a game state, without a detach in
    between. *)
Definition vtable_attach_twice (os : OS) (h : GameStateHook.t) (aState : Z)
  : M (bool * bool * GameStateHook.t) :=
  a1 <- GameStateHook.AttachAt os h aState ;;
  a2 <- GameStateHook.AttachAt os (snd a1) aState ;;
  ret (fst a1, fst a2, snd a2).

(** A scope that constructs a transaction, commits it and leaves: the
    result is what [Commit] returned and the state in which the object is
    destroyed. *)
Definition committed_scope (backend : Backend) (os : OS)
  : M (bool * DetourTransaction.State) :=
  tr <- DetourTransaction.new backend os ;;
  c <- DetourTransaction.Commit backend tr ;;
  tr' <- DetourTransaction.delete backend (snd c) ;;
  ret (fst c, DetourTransaction.m_state tr').

(** ** What a detach request erases *)

(** The records that a detach of [aPlugin] at [aTarget] selects on the data
    cells [c]: [has_match] says that there is one. *)
Definition selected (c : Z -> Z) (aPlugin aTarget : Z)
    (e : HookingSystem.Plugin * HookingSystem.Item) : bool :=
  (fst e =? aPlugin) && matches_in c (snd e) aTarget.

(** The hook map without them. *)
Definition unselected (c : Z -> Z) (aPlugin aTarget : Z)
    (m_hooks : HookingSystem.Map_t) : HookingSystem.Map_t :=
  filter (fun e => negb (selected c aPlugin aTarget e)) m_hooks.

(** Every record of [aPlugin] is a record by address. *)
Definition by_address (aPlugin : Z) (m_hooks : HookingSystem.Map_t) : bool :=
  forallb (fun e => negb (fst e =? aPlugin) ||
                    match HookingSystem.symbol (snd e) with
                    | None => true
                    | Some _ => false
                    end) m_hooks.

(** A registry of two plugins: plugin [1] has two hooks at [0x1000] and one
    at [0x1800], plugin [2] has one at [0x1000]. *)
Definition registry_of_two : HookingSystem.Map_t :=
  [ (1, HookingSystem.Item_of_target 0x1000 0x2000 0x5000);
    (2, HookingSystem.Item_of_target 0x1000 0x2200 0x5010);
    (1, HookingSystem.Item_of_target 0x1800 0x2300 0);
    (1, HookingSystem.Item_of_target 0x1000 0x2100 0x5008) ].

(** * Reasoning principles *)

Lemma wp_ret {A : Type} (a : A) (Q : A -> World -> Prop) (w : World) :
  Q a w -> wp (ret a) Q w.
Proof. intro H; exact H. Qed.

Lemma wp_bind {A B : Type} (m : M A) (k : A -> M B) (Q : B -> World -> Prop) (w : World) :
  wp m (fun a w' => wp (k a) Q w') w -> wp (bind m k) Q w.
Proof.
  unfold wp, bind. destruct (m w) as [[a w']|]; auto.
Qed.

Lemma wp_bind_inv {A B : Type} (m : M A) (k : A -> M B) (Q : B -> World -> Prop) (w : World) :
  wp (bind m k) Q w -> wp m (fun a w' => wp (k a) Q w') w.
Proof.
  unfold wp, bind. destruct (m w) as [[a w']|]; auto.
Qed.

Lemma wp_mono {A : Type} (m : M A) (Q Q' : A -> World -> Prop) (w : World) :
  (forall a w', Q a w' -> Q' a w') -> wp m Q w -> wp m Q' w.
Proof.
  unfold wp. intros H. destruct (m w) as [[a w']|]; auto.
Qed.

Lemma wp_run {A : Type} (m : M A) (Q : A -> World -> Prop) (w : World) :
  wp m Q w <-> exists a w', m w = Some (a, w') /\ Q a w'.
Proof.
  unfold wp. split.
  - destruct (m w) as [[a w']|]; [|contradiction]. intro H. exists a, w'. auto.
  - intros (a & w' & E & H). rewrite E. exact H.
Qed.

Lemma wp_gets {A : Type} (f : World -> A) (Q : A -> World -> Prop) (w : World) :
  Q (f w) w -> wp (gets f) Q w.
Proof. intro H; exact H. Qed.

Lemma wp_modify (f : World -> World) (Q : unit -> World -> Prop) (w : World) :
  Q tt (f w) -> wp (modify f) Q w.
Proof. intro H; exact H. Qed.

Lemma wp_log (l : Level) (s : string) (Q : unit -> World -> Prop) (w : World) :
  Q tt (set_logs (logs w ++ [mkLog l s]) w) -> wp (log l s) Q w.
Proof. intro H; exact H. Qed.

Lemma wp_tick (Q : nat -> World -> Prop) (w : World) :
  Q (clock w) (set_clock (S (clock w)) w) -> wp tick Q w.
Proof. intro H; exact H. Qed.

Lemma quiet_refl (w : World) : quiet w w.
Proof.
  repeat split. exists []. now rewrite app_nil_r.
Qed.

Lemma quiet_trans (w1 w2 w3 : World) : quiet w1 w2 -> quiet w2 w3 -> quiet w1 w3.
Proof.
  intros (M1 & C1 & K1 & l1 & L1) (M2 & C2 & K2 & l2 & L2).
  repeat split; try congruence.
  exists (l1 ++ l2). rewrite L2, L1. now rewrite app_assoc.
Qed.

Lemma quiet_log (w : World) (l : Level) (s : string) :
  quiet w (set_logs (logs w ++ [mkLog l s]) w).
Proof. repeat split. now exists [mkLog l s]. Qed.

Lemma quiet_clock (w : World) (n : nat) : quiet w (set_clock n w).
Proof. repeat split. exists []. now rewrite app_nil_r. Qed.

Lemma quiet_inTransaction (w : World) (b : bool) : quiet w (set_inTransaction b w).
Proof. repeat split. exists []. now rewrite app_nil_r. Qed.

Lemma quiet_hookCount (w : World) (n : Z) : quiet w (set_hookCount n w).
Proof. repeat split. exists []. now rewrite app_nil_r. Qed.

Lemma quiet_trampolines (w : World) (l : list Trampoline) : quiet w (set_trampolines l w).
Proof. repeat split. exists []. now rewrite app_nil_r. Qed.

Lemma quiet_In (w w' : World) (e : LogEntry) :
  quiet w w' -> In e (logs w) -> In e (logs w').
Proof.
  intros (_ & _ & _ & l & L) H. rewrite L. apply in_or_app. now left.
Qed.

Create HintDb quiet.

#[local] Hint Resolve quiet_refl quiet_log quiet_clock quiet_inTransaction
  quiet_hookCount quiet_trampolines : quiet.

Ltac run_monad :=
  unfold wp, bind, ret, gets, modify, log, tick, fault; cbn.

(** Closes the goals that say what a run has left alone. *)
Ltac frame :=
  repeat split; cbn; auto;
  try first
    [ now (exists []; rewrite app_nil_r)
    | now (eexists; rewrite <- ?app_assoc; reflexivity) ].

Lemma Begin_spec (backend : Backend) (w : World) :
  wp (Hooking.DetourTransactionBegin backend)
     (fun r w' =>
        quiet w w' /\ g_inTransaction w' = true /\
        g_hookCount w' = g_hookCount w /\ g_trampolines w' = g_trampolines w /\
        clock w' = clock w /\
        (if g_inTransaction w then r = -1 /\ w' = w else r = NO_ERROR)) w.
Proof.
  unfold Hooking.DetourTransactionBegin. run_monad.
  destruct (g_inTransaction w) eqn:E; cbn; [frame|].
  destruct backend; frame.
Qed.

Lemma Commit_spec (backend : Backend) (w : World) :
  wp (Hooking.DetourTransactionCommit backend)
     (fun r w' =>
        quiet w w' /\ g_inTransaction w' = false /\
        g_hookCount w' = g_hookCount w /\ g_trampolines w' = g_trampolines w /\
        clock w' = clock w /\
        (if g_inTransaction w then r = NO_ERROR else r = -1 /\ w' = w)) w.
Proof.
  unfold Hooking.DetourTransactionCommit. run_monad.
  destruct (g_inTransaction w) eqn:E; cbn; [|frame].
  destruct backend; frame.
Qed.

Lemma Abort_spec (backend : Backend) (w : World) :
  wp (Hooking.DetourTransactionAbort backend)
     (fun r w' =>
        quiet w w' /\ g_inTransaction w' = false /\ clock w' = clock w /\
        (if g_inTransaction w
         then r = NO_ERROR /\
              match backend with
              | FridaGadget => g_hookCount w' = 0 /\ g_trampolines w' = g_trampolines w
              | Native => g_trampolines w' = [] /\ g_hookCount w' = g_hookCount w
              end
         else r = -1 /\ w' = w)) w.
Proof.
  unfold Hooking.DetourTransactionAbort. run_monad.
  destruct (g_inTransaction w) eqn:E; cbn; [|frame].
  destruct backend; frame.
Qed.

(** ** The transaction object *)

Lemma steady_refl (w : World) : steady w w.
Proof. repeat split; auto. exists []. now rewrite app_nil_r. Qed.

Lemma steady_trans (w1 w2 w3 : World) : steady w1 w2 -> steady w2 w3 -> steady w1 w3.
Proof.
  intros (Q1 & A1 & B1 & C1) (Q2 & A2 & B2 & C2).
  split; [eapply quiet_trans; eauto | repeat split; congruence].
Qed.

Lemma steady_log (w : World) (l : Level) (s : string) :
  steady w (set_logs (logs w ++ [mkLog l s]) w).
Proof. frame. Qed.

Lemma steady_clock (w : World) (n : nat) : steady w (set_clock n w).
Proof. frame. Qed.

Lemma wp_log_steady (l : Level) (s : string) (Q : unit -> World -> Prop) (w : World) :
  (forall w', steady w w' -> Q tt w') -> wp (log l s) Q w.
Proof. intro H. apply wp_log, H, steady_log. Qed.

Lemma suspend_all_spec (os : OS) (ports : list (Z * bool)) :
  forall (acc : list Z) (w : World),
    wp (DetourTransaction.suspend_all os ports acc) (fun _ w' => steady w w') w.
Proof.
  induction ports as [|[port ok] rest IH]; intros acc w; cbn.
  - apply wp_ret, steady_refl.
  - destruct (negb (port =? self_thread os)); [destruct ok|]; try apply IH.
    apply wp_bind, wp_log_steady. intros w1 S1.
    eapply wp_mono; [|apply IH]. cbn. intros _ w2 S2.
    eapply steady_trans; eauto.
Qed.

Lemma QueueThreadsForUpdate_spec (os : OS) (threads : list Z) (w : World) :
  wp (DetourTransaction.QueueThreadsForUpdate os threads) (fun _ w' => steady w w') w.
Proof.
  unfold DetourTransaction.QueueThreadsForUpdate.
  apply wp_bind, wp_log_steady. intros w1 S1.
  apply wp_bind, wp_tick.
  assert (S2 : steady w (set_clock (S (clock w1)) w1))
    by (eapply steady_trans; [eauto | apply steady_clock]).
  destruct (task_threads os (clock w1)) as [ports|].
  - apply wp_bind. eapply wp_mono; [|apply suspend_all_spec]. cbn. intros ths w3 S3.
    apply wp_bind, wp_log_steady. intros w4 S4. apply wp_ret.
    eauto using steady_trans.
  - apply wp_bind, wp_log_steady. intros w3 S3. apply wp_ret.
    eauto using steady_trans.
Qed.

Import DetourTransaction.

Ltac fin :=
  split; [ eauto using quiet_trans | repeat split; try congruence ].

Lemma new_spec (backend : Backend) (os : OS) (w : World) :
  wp (DetourTransaction.new backend os)
     (fun tr w' =>
        quiet w w' /\ g_inTransaction w' = true /\
        g_hookCount w' = g_hookCount w /\ g_trampolines w' = g_trampolines w /\
        (if g_inTransaction w then tr = mk Invalid [] else m_state tr = Started)) w.
Proof.
  unfold new.
  apply wp_bind, wp_log_steady. intros w1 (Q1 & A1 & B1 & C1).
  apply wp_bind. eapply wp_mono; [|apply Begin_spec]. cbn.
  intros r w2 (Q2 & A2 & B2 & C2 & _ & R).
  rewrite A1 in R. destruct (g_inTransaction w) eqn:E.
  - destruct R as [-> ->]. cbn.
    apply wp_bind, wp_log_steady. intros w3 (Q3 & A3 & B3 & C3). apply wp_ret.
    fin.
  - subst r. cbn.
    apply wp_bind, wp_log_steady. intros w3 (Q3 & A3 & B3 & C3).
    apply wp_bind. eapply wp_mono; [|apply QueueThreadsForUpdate_spec]. cbn.
    intros ths w4 (Q4 & A4 & B4 & C4). apply wp_ret.
    fin.
Qed.

Lemma Commit_obj_spec (backend : Backend) (tr : t) (w : World) :
  wp (Commit backend tr)
     (fun r w' =>
        quiet w w' /\
        g_hookCount w' = g_hookCount w /\ g_trampolines w' = g_trampolines w /\
        match m_state tr with
        | Started | Failed =>
            g_inTransaction w' = false /\
            (if g_inTransaction w then r = (true, mk Committed [])
             else r = (false, tr))
        | _ => r = (false, tr) /\ g_inTransaction w' = g_inTransaction w
        end) w.
Proof.
  unfold Commit.
  apply wp_bind, wp_log_steady. intros w1 (Q1 & A1 & B1 & C1).
  destruct (m_state tr) eqn:St; cbn.
  1,3,4: apply wp_bind, wp_log_steady; intros w2 (Q2 & A2 & B2 & C2); apply wp_ret;
    fin.
  all: apply wp_bind; (eapply wp_mono; [|apply Commit_spec]); cbn;
    intros r w2 (Q2 & A2 & B2 & C2 & _ & R); rewrite A1 in R;
    destruct (g_inTransaction w) eqn:E;
    [ subst r; cbn; apply wp_bind, wp_log_steady; intros w3 (Q3 & A3 & B3 & C3);
      apply wp_ret; fin
    | destruct R as [-> ->]; cbn; apply wp_bind, wp_log_steady;
      intros w3 (Q3 & A3 & B3 & C3);
      apply wp_ret; fin ].
Qed.

Lemma Abort_obj_spec (backend : Backend) (tr : t) (w : World) :
  wp (Abort backend tr)
     (fun r w' =>
        quiet w w' /\
        match m_state tr with
        | Started | Failed =>
            g_inTransaction w' = false /\
            (if g_inTransaction w
             then r = (true, mk Aborted []) /\
                  match backend with
                  | FridaGadget =>
                      g_hookCount w' = 0 /\ g_trampolines w' = g_trampolines w
                  | Native =>
                      g_trampolines w' = [] /\ g_hookCount w' = g_hookCount w
                  end
             else r = (false, mk Failed (m_threads tr)) /\
                  g_hookCount w' = g_hookCount w /\
                  g_trampolines w' = g_trampolines w)
        | _ => r = (false, tr) /\ g_inTransaction w' = g_inTransaction w /\
               g_hookCount w' = g_hookCount w /\ g_trampolines w' = g_trampolines w
        end) w.
Proof.
  unfold Abort.
  apply wp_bind, wp_log_steady. intros w1 (Q1 & A1 & B1 & C1).
  destruct (m_state tr) eqn:St; cbn.
  1,3,4: apply wp_bind, wp_log_steady; intros w2 (Q2 & A2 & B2 & C2); apply wp_ret;
    fin.
  all: apply wp_bind; (eapply wp_mono; [|apply Abort_spec]); cbn;
    intros r w2 (Q2 & A2 & _ & R); rewrite A1 in R;
    destruct (g_inTransaction w) eqn:E;
    [ destruct R as [-> R]; cbn; apply wp_bind, wp_log_steady;
      intros w3 (Q3 & A3 & B3 & C3); apply wp_ret;
      split; [eauto using quiet_trans|];
      split; [congruence|]; split; [reflexivity|];
      destruct backend; destruct R; split; congruence
    | destruct R as [-> ->]; cbn; apply wp_bind, wp_log_steady;
      intros w3 (Q3 & A3 & B3 & C3);
      apply wp_ret; fin ].
Qed.

Lemma delete_spec (backend : Backend) (tr : t) (w : World) :
  wp (delete backend tr)
     (fun tr' w' =>
        quiet w w' /\
        match m_state tr with
        | Started =>
            g_inTransaction w' = false /\
            (if g_inTransaction w
             then tr' = mk Aborted [] /\
                  match backend with
                  | FridaGadget =>
                      g_hookCount w' = 0 /\ g_trampolines w' = g_trampolines w
                  | Native =>
                      g_trampolines w' = [] /\ g_hookCount w' = g_hookCount w
                  end
             else tr' = mk Failed (m_threads tr) /\
                  g_hookCount w' = g_hookCount w /\
                  g_trampolines w' = g_trampolines w)
        | _ => tr' = tr /\ w' = w
        end) w.
Proof.
  unfold delete. destruct (m_state tr) eqn:St; cbn;
    try (apply wp_ret; split; [apply quiet_refl | auto]).
  apply wp_bind. eapply wp_mono; [|apply Abort_obj_spec]. cbv beta.
  rewrite St. intros r w1 (Q1 & A1 & R). apply wp_ret.
  split; [exact Q1|]. split; [exact A1|].
  destruct (g_inTransaction w); destruct R as [-> R]; cbn; auto.
Qed.

(** * The transaction state machine *)

(** C4, as stated, fails: a transaction that is [Failed] because its abort
    failed is moved to [Committed] by a later [Commit], as soon as the C
    interface has a transaction open again. *)
Lemma C4_counterexample :
  observe (failed_then_committed FridaGadget) (fun r _ => r) world0
  = Some (Failed, Committed).
Proof. reflexivity. Qed.

(** C4, amended: [Commit] and [Abort] do not reject a [Failed] transaction;
    they call [DetourTransactionCommit], resp. [DetourTransactionAbort],
    again.  The transaction stays [Failed] when that call fails (no
    transaction is open in the C interface) and becomes [Committed], resp.
    [Aborted], when it succeeds. *)
Theorem C4_failed_follows_the_interface
    (backend : Backend) (tr : t) (w : World) (Hfailed : m_state tr = Failed) :
  wp (Commit backend tr)
     (fun r _ =>
        r = if g_inTransaction w then (true, mk Committed []) else (false, tr)) w /\
  wp (Abort backend tr)
     (fun r _ =>
        r = if g_inTransaction w then (true, mk Aborted []) else (false, tr)) w.
Proof.
  split.
  - eapply wp_mono; [|apply Commit_obj_spec]. cbv beta. rewrite Hfailed.
    intros r w' (_ & _ & _ & _ & R). destruct (g_inTransaction w); exact R.
  - eapply wp_mono; [|apply Abort_obj_spec]. cbv beta. rewrite Hfailed.
    intros r w' (_ & _ & R).
    destruct (g_inTransaction w); destruct R as [-> _]; auto.
    destruct tr as [st ths]. cbn in *. now subst st.
Qed.

Lemma C4_witness :
  wp (Commit Native (mk Failed []))
     (fun r _ => r = (false, mk Failed [])) world0 /\
  wp (Abort Native (mk Failed []))
     (fun r _ => r = (false, mk Failed [])) world0.
Proof.
  exact (C4_failed_follows_the_interface Native (mk Failed []) world0 eq_refl).
Defined.

(** ** At most one started transaction *)

Module TransactionsFacts.

Import Transactions.

Lemma started_app (objs : list t) (tr : t) :
  started (objs ++ [tr]) = (started objs + weight tr)%nat.
Proof.
  unfold started, weight. rewrite filter_app, length_app. cbn.
  now destruct (is_started tr).
Qed.

Lemma started_update (objs : list t) :
  forall (i : nat) (tr tr' : t),
    nth_error objs i = Some tr ->
    (started (update objs i tr') + weight tr = started objs + weight tr')%nat.
Proof.
  unfold started, weight.
  induction objs as [|x objs IH]; intros [|i] tr tr' H; cbn in *; try discriminate.
  - injection H as ->. destruct (is_started tr), (is_started tr'); cbn; lia.
  - specialize (IH i tr tr' H). destruct (is_started x); cbn; lia.
Qed.

Lemma In_update (objs : list t) :
  forall (i : nat) (tr' x : t),
    In x (update objs i tr') -> x = tr' \/ In x objs.
Proof.
  induction objs as [|y objs IH]; intros [|i] tr' x H; cbn in *; auto.
  - destruct H as [<-|H]; auto.
  - destruct H as [<-|H]; auto. destruct (IH i tr' x H); auto.
Qed.

Lemma update_same (objs : list t) :
  forall (i : nat) (tr : t), nth_error objs i = Some tr -> update objs i tr = objs.
Proof.
  induction objs as [|y objs IH]; intros [|i] tr H; cbn in *; try discriminate; auto.
  - now injection H as ->.
  - now rewrite IH.
Qed.

Lemma weight_started (tr : t) : m_state tr = Started -> weight tr = 1%nat.
Proof. unfold weight, is_started. now intros ->. Qed.

Lemma weight_other (tr : t) : m_state tr <> Started -> weight tr = 0%nat.
Proof. unfold weight, is_started. destruct (m_state tr); cbn; congruence. Qed.

Lemma started_pos (objs : list t) (i : nat) (tr : t) :
  nth_error objs i = Some tr -> m_state tr = Started -> (1 <= started objs)%nat.
Proof.
  intros H St. pose proof (started_update objs i tr tr H).
  revert i H H0. unfold started.
  induction objs as [|x objs IH]; intros [|i] H _; cbn in *; try discriminate.
  - injection H as ->. unfold is_started at 1. rewrite St. cbn. lia.
  - destruct (is_started x); cbn; [lia|].
    apply (IH i H). apply (started_update objs i tr tr H).
Qed.

(** An attempt to commit, abort or destroy the object at [i]: the shape
    shared by the three cases of [step]. *)
Lemma Inv_finish (objs : list t) (i : nat) (tr tr' : t) (w w' : World) :
  Inv objs w ->
  nth_error objs i = Some tr ->
  (m_state tr = Started ->
     g_inTransaction w = true -> m_state tr' <> Started /\ m_state tr' <> Failed) ->
  (m_state tr <> Started -> tr' = tr /\ g_inTransaction w' = g_inTransaction w) ->
  Inv (update objs i tr') w'.
Proof.
  intros [NF Cnt] Hi HS HO.
  pose proof (started_update objs i tr tr' Hi) as U.
  destruct (DetourTransaction.State_eqb (m_state tr) Started) eqn:E.
  - assert (St : m_state tr = Started) by (destruct (m_state tr); cbn in E; congruence).
    pose proof (started_pos objs i tr Hi St) as P.
    destruct Cnt as [Z0|[One G]]; [lia|].
    destruct (HS St G) as [N1 N2].
    rewrite (weight_started tr St), (weight_other tr' N1) in U.
    split; [|left; lia].
    intros x Hx. destruct (In_update _ _ _ _ Hx) as [->|Hx']; auto.
  - assert (St : m_state tr <> Started) by (destruct (m_state tr); cbn in E; congruence).
    destruct (HO St) as [-> G]. rewrite (update_same objs i tr Hi).
    split; [exact NF|]. rewrite G. exact Cnt.
Qed.

Lemma step_spec (backend : Backend) (os : OS) (objs : list t) (o : Op) (w : World) :
  Inv objs w -> wp (step backend os objs o) Inv w.
Proof.
  intros I. destruct o as [|i|i|i]; cbn.
  - apply wp_bind. eapply wp_mono; [|apply new_spec]. cbv beta.
    intros tr w' (_ & G & _ & _ & R). apply wp_ret.
    destruct I as [NF Cnt]. split.
    + intros x Hx. apply in_app_or in Hx. destruct Hx as [Hx|[<-|[]]]; auto.
      destruct (g_inTransaction w); [subst tr; discriminate | congruence].
    + rewrite started_app.
      destruct (g_inTransaction w) eqn:E.
      * subst tr. cbn. destruct Cnt as [Z0|[One _]];
          [left; lia | right; split; [lia | exact G]].
      * rewrite (weight_started tr R).
        destruct Cnt as [Z0|[_ F]]; [right; split; auto; lia | discriminate].
  - destruct (nth_error objs i) as [tr|] eqn:Hi; [|now apply wp_ret].
    apply wp_bind. eapply wp_mono; [|apply Commit_obj_spec]. cbv beta.
    intros r w' (_ & _ & _ & R). apply wp_ret.
    apply (Inv_finish objs i tr (snd r) w w' I Hi).
    + intros St G. rewrite St, G in R. destruct R as [_ ->]. cbn. split; discriminate.
    + intros St. destruct (m_state tr) eqn:E; try congruence.
      * destruct R as [-> G]. auto.
      * destruct R as [-> G]. auto.
      * destruct R as [-> G]. auto.
      * destruct I as [NF _]. exfalso. apply (NF tr); auto.
        eapply nth_error_In; eauto.
  - destruct (nth_error objs i) as [tr|] eqn:Hi; [|now apply wp_ret].
    apply wp_bind. eapply wp_mono; [|apply Abort_obj_spec]. cbv beta.
    intros r w' (_ & R). apply wp_ret.
    apply (Inv_finish objs i tr (snd r) w w' I Hi).
    + intros St G. rewrite St, G in R. destruct R as [_ [-> _]]. cbn. split; discriminate.
    + intros St. destruct (m_state tr) eqn:E; try congruence.
      * destruct R as (-> & G & _). auto.
      * destruct R as (-> & G & _). auto.
      * destruct R as (-> & G & _). auto.
      * destruct I as [NF _]. exfalso. apply (NF tr); auto.
        eapply nth_error_In; eauto.
  - destruct (nth_error objs i) as [tr|] eqn:Hi; [|now apply wp_ret].
    apply wp_bind. eapply wp_mono; [|apply delete_spec]. cbv beta.
    intros tr' w' (_ & R). apply wp_ret.
    apply (Inv_finish objs i tr tr' w w' I Hi).
    + intros St G. rewrite St, G in R. destruct R as [_ [-> _]]. cbn. split; discriminate.
    + intros St. destruct (m_state tr) eqn:E; try congruence;
        destruct R as [-> ->]; auto.
Qed.

Lemma run_spec (backend : Backend) (os : OS) (ops : list Op) :
  forall (objs : list t) (w : World),
    Inv objs w -> wp (run backend os objs ops) Inv w.
Proof.
  induction ops as [|o ops IH]; intros objs w I; cbn.
  - now apply wp_ret.
  - apply wp_bind. eapply wp_mono; [|apply step_spec; exact I]. cbv beta.
    intros objs' w' I'. now apply IH.
Qed.

End TransactionsFacts.

(** C2: while a transaction is open, a second [DetourTransactionBegin] fails
    at once with the error code [-1] and changes nothing.  For the
    transaction objects: after any sequence of constructions, commits, aborts
    and destructions, at most one object is [Started]; while one is, the C
    interface has its transaction open, and the construction of another object
    leaves that object [Invalid] and every other object, the flag, the hook
    bookkeeping, the memory and the data cells as they were. *)
Theorem C2_single_started_transaction (backend : Backend) (os : OS) :
  (forall w, g_inTransaction w = true ->
     Hooking.DetourTransactionBegin backend w = Some (-1, w)) /\
  (forall ops w0,
     wp (Transactions.run backend os [] ops)
        (fun objs w =>
           (Transactions.started objs <= 1)%nat /\
           (Transactions.started objs = 1%nat ->
              g_inTransaction w = true /\
              wp (Transactions.step backend os objs Transactions.New)
                 (fun objs' w' => objs' = objs ++ [mk Invalid []] /\ steady w w')
                 w)) w0).
Proof.
  split.
  - intros w G. pose proof (Begin_spec backend w) as H.
    apply wp_run in H. destruct H as (r & w' & E & _ & _ & _ & _ & _ & R).
    rewrite G in R. destruct R as [-> ->]. exact E.
  - intros ops w0.
    eapply wp_mono; [|apply TransactionsFacts.run_spec].
    + cbv beta. intros objs w [NF Cnt]. split.
      * destruct Cnt as [->|[-> _]]; lia.
      * intros One. destruct Cnt as [Z0|[_ G]]; [lia|]. split; [exact G|].
        cbn. apply wp_bind. eapply wp_mono; [|apply new_spec]. cbv beta.
        intros tr w' (Q & G' & B & C & R). apply wp_ret.
        rewrite G in R. subst tr. split; [reflexivity|].
        repeat split; try congruence; apply Q.
    + split; [intros tr []|left; reflexivity].
Qed.

Lemma C2_witness :
  Hooking.DetourTransactionBegin Native (set_inTransaction true world0)
  = Some (-1, set_inTransaction true world0).
Proof.
  apply (proj1 (C2_single_started_transaction Native os_ok)). reflexivity.
Defined.

(** * The virtual table hook *)

Lemma wlp_bind {A B : Type} (m : M A) (k : A -> M B) (Q : B -> World -> Prop) (w : World) :
  wlp m (fun a w' => wlp (k a) Q w') w -> wlp (bind m k) Q w.
Proof.
  unfold wlp, bind. destruct (m w) as [[a w']|]; auto.
Qed.

Lemma wlp_any {A : Type} (m : M A) (Q : A -> World -> Prop) (w : World) :
  (forall a w', Q a w') -> wlp m Q w.
Proof.
  unfold wlp. intro H. destruct (m w) as [[a w']|]; auto.
Qed.

Lemma wlp_run {A : Type} (m : M A) (Q : A -> World -> Prop) (w : World) :
  wlp m Q w <-> (forall a w', m w = Some (a, w') -> Q a w').
Proof.
  unfold wlp. split.
  - intros H a w' E. now rewrite E in H.
  - intros H. destruct (m w) as [[a w']|]; auto.
Qed.

Module GameStateHookFacts.

Import GameStateHook.

Lemma get_set_slot (s s' : Slot) (f : FuncHook) (h : t) :
  get_slot s (set_slot s' f h) = if
    match s, s' with
    | Enter, Enter | Update, Update | Exit, Exit => true
    | _, _ => false
    end then f else get_slot s h.
Proof. destruct s, s', h; reflexivity. Qed.

(** [OnSlot] never faults, and it is a skip unless the flag is set and an
    original was captured. *)
Lemma OnSlot_run (os : OS) (s : Slot) (h : t) (aState aApp : Z) (w : World) :
  OnSlot os s h aState aApp w =
  if shouldExecute (get_slot s h) && negb (orig (get_slot s h) =? 0)
  then
    let result := call_result os (clock w) (orig (get_slot s h)) in
    Some ((result, set_slot s (set_shouldExecute (negb result) (get_slot s h)) h),
          set_calls (calls w ++ [orig (get_slot s h)]) (set_clock (S (clock w)) w))
  else Some ((true, h), w).
Proof.
  unfold OnSlot.
  destruct (shouldExecute (get_slot s h) && negb (orig (get_slot s h) =? 0));
    reflexivity.
Qed.

Lemma AttachAt_flags (os : OS) (h : t) (aState : Z) (w : World) :
  wlp (AttachAt os h aState)
      (fun r _ => forall s, shouldExecute (get_slot s (snd r))
                            = shouldExecute (get_slot s h)) w.
Proof.
  unfold AttachAt.
  apply wlp_bind, wlp_any. intros vtbl w1.
  apply wlp_bind, wlp_any. intros _ w2.
  apply wlp_bind, wlp_any. intros e w3.
  apply wlp_bind, wlp_any. intros u w4.
  apply wlp_bind, wlp_any. intros x w5.
  apply wlp_bind, wlp_any. intros ok w6.
  destruct ok.
  - apply wlp_bind, wlp_any. intros _ w7. unfold wlp, ret. intros []; reflexivity.
  - unfold wlp, ret. intros []; reflexivity.
Qed.

Lemma DetachAt_same (os : OS) (h : t) (aState : Z) (w : World) :
  wlp (DetachAt os h aState) (fun r _ => snd r = h) w.
Proof.
  unfold DetachAt.
  apply wlp_bind, wlp_any. intros vtbl w1.
  apply wlp_bind, wlp_any. intros _ w2.
  apply wlp_bind, wlp_any. intros ok w3.
  destruct ok.
  - apply wlp_bind, wlp_any. intros _ w4. reflexivity.
  - reflexivity.
Qed.

(** No operation on the hook object sets a flag that is cleared. *)
Lemma step_keeps_cleared (os : OS) (s : Slot) (h : t) (o : Op) (w : World) :
  shouldExecute (get_slot s h) = false ->
  wlp (step os h o) (fun h' _ => shouldExecute (get_slot s h') = false) w.
Proof.
  intros F. destruct o as [a|a|s' a app]; cbn.
  - apply wlp_bind. pose proof (AttachAt_flags os h a w) as H.
    unfold wlp in *. destruct (AttachAt os h a w) as [[r w']|]; auto.
    unfold ret. now rewrite H.
  - apply wlp_bind. pose proof (DetachAt_same os h a w) as H.
    unfold wlp in *. destruct (DetachAt os h a w) as [[r w']|]; auto.
    unfold ret. now rewrite H.
  - unfold wlp, bind. rewrite OnSlot_run.
    destruct (shouldExecute (get_slot s' h) && negb (orig (get_slot s' h) =? 0)) eqn:E;
      cbn; auto.
    rewrite get_set_slot.
    destruct s, s'; auto; cbn in *; rewrite F in E; discriminate.
Qed.

Lemma steps_keep_cleared (os : OS) (s : Slot) (ops : list Op) :
  forall (h : t) (w : World),
    shouldExecute (get_slot s h) = false ->
    wlp (steps os h ops) (fun h' _ => shouldExecute (get_slot s h') = false) w.
Proof.
  induction ops as [|o ops IH]; intros h w F; cbn.
  - exact F.
  - apply wlp_bind. pose proof (step_keeps_cleared os s h o w F) as H.
    unfold wlp in *. destruct (step os h o w) as [[h' w']|]; auto.
    apply IH, H.
Qed.

End GameStateHookFacts.

Import GameStateHook.

(** C5, as stated, fails: after the original [OnEnter] has reported a
    terminal result, the hook is detached and attached again, and [OnEnter]
    is entered again.  The original at [0x1000] has been called once in all,
    and the flag of the slot is still cleared: attaching again has not reset
    it. *)
Lemma C5_counterexample :
  observe (steps os_ok (new 0x11 0x12 0x13) reattach_scenario)
          (fun h w => (orig (m_onEnter h), shouldExecute (m_onEnter h), calls w))
          world_game
  = Some (0x1000, false, [0x1000]).
Proof. reflexivity. Qed.

(** C5, amended: once the original handler of a slot has run and returned
    [true], the flag of the slot is cleared, and it stays cleared through
    every later operation on the hook object, [AttachAt] and [DetachAt]
    included: every later [OnEnter], [OnUpdate] or [OnExit] on that slot
    returns [true] without calling the original.  Only the constructor sets
    the flag. *)
Theorem C5_suppression_outlives_reattach
    (os : OS) (s : Slot) (h : t) (aState aApp : Z) (w : World)
    (Hflag : shouldExecute (get_slot s h) = true)
    (Horig : orig (get_slot s h) <> 0)
    (Hterminal : call_result os (clock w) (orig (get_slot s h)) = true) :
  wp (OnSlot os s h aState aApp)
     (fun r1 w1 =>
        fst r1 = true /\
        calls w1 = calls w ++ [orig (get_slot s h)] /\
        forall ops h2 w2,
          steps os (snd r1) ops w1 = Some (h2, w2) ->
          shouldExecute (get_slot s h2) = false /\
          forall aState' aApp',
            OnSlot os s h2 aState' aApp' w2 = Some ((true, h2), w2)) w.
Proof.
  unfold wp. rewrite GameStateHookFacts.OnSlot_run, Hflag.
  apply Z.eqb_neq in Horig. rewrite Horig. cbn. rewrite Hterminal. cbn.
  split; [reflexivity|]. split; [reflexivity|].
  intros ops h2 w2 E.
  assert (F : shouldExecute (get_slot s h2) = false).
  { pose proof (GameStateHookFacts.steps_keep_cleared os s ops
                  (set_slot s (set_shouldExecute false (get_slot s h)) h)
                  (set_calls (calls w ++ [orig (get_slot s h)])
                             (set_clock (S (clock w)) w))) as H.
    unfold wlp in H. rewrite E in H. apply H.
    rewrite GameStateHookFacts.get_set_slot. now destruct s. }
  split; [exact F|].
  intros a app. rewrite GameStateHookFacts.OnSlot_run, F. reflexivity.
Qed.

Lemma C5_witness :
  wp (OnSlot os_ok Enter (mk false (mkFuncHook true 0x11 0x1000)
                             (FuncHook_new 0x12) (FuncHook_new 0x13)) 0x100 0x300)
     (fun r1 w1 =>
        fst r1 = true /\
        calls w1 = [0x1000] /\
        forall ops h2 w2,
          steps os_ok (snd r1) ops w1 = Some (h2, w2) ->
          shouldExecute (get_slot Enter h2) = false /\
          forall aState' aApp',
            OnSlot os_ok Enter h2 aState' aApp' w2 = Some ((true, h2), w2))
     world_game.
Proof.
  apply (C5_suppression_outlives_reattach os_ok Enter
           (mk false (mkFuncHook true 0x11 0x1000)
               (FuncHook_new 0x12) (FuncHook_new 0x13)) 0x100 0x300 world_game).
  - reflexivity.
  - cbn. lia.
  - reflexivity.
Defined.

(** C10: a lifecycle call that skips the original handler, because the flag
    of the slot is cleared or because no original was captured, returns
    [true] and changes nothing; a call that returns [false] has called a
    captured original with the flag set, and [false] is what that original
    returned. *)
Theorem C10_skipped_call_returns_true
    (os : OS) (s : Slot) (h : t) (aState aApp : Z) (w : World) :
  (shouldExecute (get_slot s h) = false \/ orig (get_slot s h) = 0 ->
   OnSlot os s h aState aApp w = Some ((true, h), w)) /\
  (forall h' w',
     OnSlot os s h aState aApp w = Some ((false, h'), w') ->
     shouldExecute (get_slot s h) = true /\
     orig (get_slot s h) <> 0 /\
     call_result os (clock w) (orig (get_slot s h)) = false /\
     calls w' = calls w ++ [orig (get_slot s h)]).
Proof.
  rewrite GameStateHookFacts.OnSlot_run. split.
  - intros [F|N].
    + now rewrite F.
    + rewrite N. cbn. now rewrite andb_false_r.
  - intros h' w' E.
    destruct (shouldExecute (get_slot s h)) eqn:F; cbn in E; [|discriminate].
    destruct (orig (get_slot s h) =? 0) eqn:N; cbn in E; [discriminate|].
    apply Z.eqb_neq in N. injection E as R _ W.
    repeat split; auto. now subst w'.
Qed.

Lemma C10_witness :
  OnSlot os_ok Exit (new 0x11 0x12 0x13) 0x100 0x300 world_game
  = Some ((true, new 0x11 0x12 0x13), world_game).
Proof.
  apply (proj1 (C10_skipped_call_returns_true os_ok Exit (new 0x11 0x12 0x13)
                  0x100 0x300 world_game)).
  right. reflexivity.
Defined.

(** * Function hooks *)

Lemma store_bytes_below (bs : list Z) :
  forall (m : Z -> Z) (a x : Z), x < a -> store_bytes m a bs x = m x.
Proof.
  induction bs as [|b bs IH]; intros m a x L; cbn; auto.
  rewrite IH by lia. destruct (x =? a) eqn:E; auto.
  apply Z.eqb_eq in E. lia.
Qed.

Lemma load_store_bytes (bs : list Z) :
  forall (m : Z -> Z) (a : Z),
    load_bytes (store_bytes m a bs) a (List.length bs) = bs.
Proof.
  induction bs as [|b bs IH]; intros m a; cbn; auto.
  rewrite IH. rewrite store_bytes_below by lia.
  now rewrite Z.eqb_refl.
Qed.

Lemma window_patched (m : Z -> Z) (a dest : Z) :
  load_bytes (store_bytes m a (Hooking.jump_sequence dest)) a 16
  = Hooking.jump_sequence dest.
Proof. exact (load_store_bytes (Hooking.jump_sequence dest) m a). Qed.

Arguments window w a : simpl never.
Arguments store_bytes m a bs : simpl never.
Arguments load_bytes m a n : simpl never.
Arguments Hooking.jump_sequence dest : simpl never.

Lemma evolve_start (w : World) :
  evolve w w (g_inTransaction w) (g_hookCount w) (g_trampolines w) (mem w) (clock w).
Proof. repeat split. exists []. now rewrite app_nil_r. Qed.

Section Evolve.

Variables (w w1 : World) (g : bool) (hc : Z) (ts : list Trampoline)
          (m : Z -> Z) (ck : nat).
Hypothesis E : evolve w w1 g hc ts m ck.

Lemma wp_log_ev (l : Level) (s : string) (Q : unit -> World -> Prop) :
  (forall w2, evolve w w2 g hc ts m ck -> Q tt w2) -> wp (log l s) Q w1.
Proof.
  intros H. apply wp_log, H.
  destruct E as (A & B & C & D & F & G & K & l0 & L).
  repeat split; try assumption.
  exists (l0 ++ [mkLog l s]). cbn. rewrite L. now rewrite app_assoc.
Qed.

Lemma wp_tick_ev (Q : nat -> World -> Prop) :
  (forall w2, evolve w w2 g hc ts m (S ck) -> Q ck w2) -> wp tick Q w1.
Proof.
  intros H. apply wp_tick.
  destruct E as (A & B & C & D & F & G & K & L).
  rewrite F. apply H. repeat split; assumption.
Qed.

Lemma wp_store_ev (a : Z) (bs : list Z) (Q : unit -> World -> Prop) :
  (forall w2, evolve w w2 g hc ts (store_bytes m a bs) ck -> Q tt w2) ->
  wp (modify (fun w0 => set_mem (store_bytes (mem w0) a bs) w0)) Q w1.
Proof.
  intros H. apply wp_modify, H.
  destruct E as (A & B & C & D & F & G & K & L).
  repeat split; try assumption. cbn. now rewrite D.
Qed.

Lemma wp_push_ev (t : Trampoline) (Q : unit -> World -> Prop) :
  (forall w2, evolve w w2 g hc (ts ++ [t]) m ck -> Q tt w2) ->
  wp (modify (fun w0 => set_trampolines (g_trampolines w0 ++ [t]) w0)) Q w1.
Proof.
  intros H. apply wp_modify, H.
  destruct E as (A & B & C & D & F & G & K & L).
  repeat split; try assumption. cbn. now rewrite C.
Qed.

Lemma wp_count_ev (n : Z) (Q : unit -> World -> Prop) :
  (forall w2, evolve w w2 g n ts m ck -> Q tt w2) ->
  wp (modify (set_hookCount n)) Q w1.
Proof.
  intros H. apply wp_modify, H.
  destruct E as (A & B & C & D & F & G & K & L).
  repeat split; assumption.
Qed.

End Evolve.

Lemma DetourAttach_spec (backend : Backend) (os : OS) (p d : Z) (w : World) :
  wp (Hooking.DetourAttach backend os p d)
     (fun r w' =>
        cells w' = cells w /\ calls w' = calls w /\
        g_inTransaction w' = g_inTransaction w /\
        (exists l, logs w' = logs w ++ l) /\
        (fst r = NO_ERROR \/
         (fst r = -1 /\ snd r = p /\ g_trampolines w' = g_trampolines w /\
          g_hookCount w' = g_hookCount w)) /\
        (fst r = NO_ERROR ->
         g_inTransaction w = true /\ p <> 0 /\ d <> 0 /\
         match backend with
         | FridaGadget =>
             snd r = p /\ mem w' = mem w /\ g_trampolines w' = g_trampolines w
         | Native =>
             mmap_result os (clock w) = Some (snd r) /\
             window w' p = Hooking.jump_sequence d /\
             g_trampolines w' =
               g_trampolines w ++
               [Trampoline_new p d (snd r) (Hooking.AlignToPage os 16)]
         end)) w.
Proof.
  pose proof (evolve_start w) as E0.
  unfold Hooking.DetourAttach.
  apply wp_bind, wp_gets.
  destruct (g_inTransaction w) eqn:G; cbn [negb].
  2: { apply wp_bind. apply (wp_log_ev _ _ _ _ _ _ _ E0). intros w1 E1.
       apply wp_ret. destruct E1 as (A & B & C & D & F & K1 & K2 & L). cbn [fst snd].
       repeat split; try assumption; try discriminate. right. repeat split; assumption. }
  destruct backend.
  - destruct ((p =? 0) || (d =? 0)) eqn:N.
    + apply wp_bind. apply (wp_log_ev _ _ _ _ _ _ _ E0). intros w1 E1.
      apply wp_ret. destruct E1 as (A & B & C & D & F & K1 & K2 & L). cbn [fst snd].
      repeat split; try assumption; try discriminate. right. repeat split; assumption.
    + apply orb_false_elim in N. destruct N as [Np Nd]. apply Z.eqb_neq in Np, Nd.
      apply wp_bind, wp_gets.
      apply wp_bind. apply (wp_count_ev _ _ _ _ _ _ _ E0). intros w1 E1.
      apply wp_bind. apply (wp_log_ev _ _ _ _ _ _ _ E1). intros w2 E2.
      apply wp_ret. destruct E2 as (A & B & C & D & F & K1 & K2 & L). cbn [fst snd].
      repeat split; try assumption. now left.
  - destruct ((p =? 0) || (d =? 0)) eqn:N.
    + apply wp_bind. apply (wp_log_ev _ _ _ _ _ _ _ E0). intros w1 E1.
      apply wp_ret. destruct E1 as (A & B & C & D & F & K1 & K2 & L). cbn [fst snd].
      repeat split; try assumption; try discriminate. right. repeat split; assumption.
    + apply orb_false_elim in N. destruct N as [Np Nd]. apply Z.eqb_neq in Np, Nd.
      apply wp_bind. apply (wp_log_ev _ _ _ _ _ _ _ E0). intros w1 E1.
      apply wp_bind. apply (wp_tick_ev _ _ _ _ _ _ _ E1). intros w2 E2.
      destruct (mmap_result os (clock w)) as [tm|] eqn:Mm.
      2: { apply wp_bind. apply (wp_log_ev _ _ _ _ _ _ _ E2). intros w3 E3.
           apply wp_ret. destruct E3 as (A & B & C & D & F & K1 & K2 & L).
           cbn [fst snd].
           repeat split; try assumption; try discriminate.
           right. repeat split; assumption. }
      apply wp_bind. apply (wp_log_ev _ _ _ _ _ _ _ E2). intros w3 E3.
      apply wp_bind. apply (wp_store_ev _ _ _ _ _ _ _ E3). intros w4 E4.
      apply wp_bind. apply (wp_tick_ev _ _ _ _ _ _ _ E4). intros w5 E5.
      destruct (mprotect_ok os (S (clock w))); cbn [negb].
      2: { apply wp_bind. apply (wp_log_ev _ _ _ _ _ _ _ E5). intros w6 E6.
           apply wp_ret. destruct E6 as (A & B & C & D & F & K1 & K2 & L).
           cbn [fst snd].
           repeat split; try assumption; try discriminate.
           right. repeat split; assumption. }
      apply wp_bind. apply (wp_log_ev _ _ _ _ _ _ _ E5). intros w6 E6.
      apply wp_bind. apply (wp_log_ev _ _ _ _ _ _ _ E6). intros w7 E7.
      apply wp_bind. apply (wp_tick_ev _ _ _ _ _ _ _ E7). intros w8 E8.
      destruct (protect_ok os (S (S (clock w)))); cbn [negb].
      2: { apply wp_bind. apply (wp_log_ev _ _ _ _ _ _ _ E8). intros w9 E9.
           apply wp_ret. destruct E9 as (A & B & C & D & F & K1 & K2 & L).
           cbn [fst snd].
           repeat split; try assumption; try discriminate.
           right. repeat split; assumption. }
      apply wp_bind. apply (wp_log_ev _ _ _ _ _ _ _ E8). intros w9 E9.
      apply wp_bind. apply (wp_store_ev _ _ _ _ _ _ _ E9). intros w10 E10.
      apply wp_bind. apply (wp_log_ev _ _ _ _ _ _ _ E10). intros w11 E11.
      apply wp_bind. apply (wp_tick_ev _ _ _ _ _ _ _ E11). intros w12 E12.
      apply wp_bind. apply (wp_push_ev _ _ _ _ _ _ _ E12). intros w13 E13.
      apply wp_ret. destruct E13 as (A & B & C & D & F & K1 & K2 & L).
      cbn [fst snd].
      repeat split; try assumption; try (now left).
      unfold window. rewrite D. apply window_patched.
Qed.

Lemma wp_conj {A : Type} (m : M A) (Q1 Q2 : A -> World -> Prop) (w : World) :
  wp m Q1 w -> wp m Q2 w -> wp m (fun a w' => Q1 a w' /\ Q2 a w') w.
Proof.
  unfold wp. destruct (m w) as [[a w']|]; auto.
Qed.

Lemma DetourAttach_frida_mem (os : OS) (p d : Z) (w : World) :
  wp (Hooking.DetourAttach FridaGadget os p d) (fun _ w' => mem w' = mem w) w.
Proof.
  unfold Hooking.DetourAttach. run_monad.
  destruct (g_inTransaction w); cbn; auto.
  destruct ((p =? 0) || (d =? 0)); cbn; auto.
Qed.

Lemma DetourAttach_mem (backend : Backend) (os : OS) (p d : Z) (w : World) :
  wp (Hooking.DetourAttach backend os p d)
     (fun _ w' => backend = FridaGadget -> mem w' = mem w) w.
Proof.
  destruct backend.
  - eapply wp_mono; [|apply DetourAttach_frida_mem]. auto.
  - pose proof (DetourAttach_spec Native os p d w) as H.
    eapply wp_mono; [|exact H]. cbv beta. intros; discriminate.
Qed.

Lemma DetourDetach_spec (backend : Backend) (os : OS) (p d : Z) (w : World) :
  wp (Hooking.DetourDetach backend os p d)
     (fun r w' =>
        quiet w w' /\
        g_inTransaction w' = g_inTransaction w /\
        g_hookCount w' = g_hookCount w /\
        (fst r = NO_ERROR \/
         (fst r = -1 /\ snd r = p /\ g_trampolines w' = g_trampolines w)) /\
        (fst r = NO_ERROR ->
         g_inTransaction w = true /\
         match backend with
         | FridaGadget => snd r = p /\ g_trampolines w' = g_trampolines w
         | Native =>
             exists pre t post,
               Hooking.find_trampoline p d (g_trampolines w) = Some (pre, t, post) /\
               snd r = target t /\ g_trampolines w' = pre ++ post
         end)) w.
Proof.
  unfold Hooking.DetourDetach. run_monad.
  destruct (g_inTransaction w) eqn:G; cbn.
  2: { frame; try discriminate; right; frame. }
  destruct backend; cbn.
  - frame.
  - destruct ((p =? 0) || (d =? 0)) eqn:N; cbn.
    + frame; try discriminate; right; frame.
    + destruct (Hooking.find_trampoline p d (g_trampolines w))
        as [[[pre t] post]|] eqn:F; cbn.
      2: { frame; try discriminate; right; frame. }
      destruct (protect_ok os (clock w)); cbn.
      2: { frame; try discriminate; right; frame. }
      frame. exists pre, t, post. frame.
Qed.

Lemma Hook_Attach_spec (backend : Backend) (os : OS) (h : Hook.t) (w : World) :
  wp (Hook.Attach backend os h)
     (fun r w' =>
        cells w' = cells w /\ calls w' = calls w /\
        g_inTransaction w' = g_inTransaction w /\
        (exists l, logs w' = logs w ++ l) /\
        Hook.m_detour (snd r) = Hook.m_detour h /\
        (fst r = NO_ERROR \/
         (fst r = -1 /\ snd r = h /\ g_trampolines w' = g_trampolines w /\
          g_hookCount w' = g_hookCount w)) /\
        (fst r = NO_ERROR ->
         g_inTransaction w = true /\ Hook.m_address h <> 0 /\ Hook.m_detour h <> 0 /\
         match backend with
         | FridaGadget =>
             snd r = h /\ mem w' = mem w /\ g_trampolines w' = g_trampolines w
         | Native =>
             mmap_result os (clock w) = Some (Hook.m_address (snd r)) /\
             window w' (Hook.m_address h) = Hooking.jump_sequence (Hook.m_detour h) /\
             g_trampolines w' =
               g_trampolines w ++
               [Trampoline_new (Hook.m_address h) (Hook.m_detour h)
                  (Hook.m_address (snd r)) (Hooking.AlignToPage os 16)]
         end) /\
        (backend = FridaGadget -> mem w' = mem w)) w.
Proof.
  unfold Hook.Attach. apply wp_bind.
  eapply wp_mono;
    [|apply wp_conj; [apply DetourAttach_spec | apply DetourAttach_mem]]. cbv beta.
  intros [c p'] w' ((C & K & G & L & D & S) & F). apply wp_ret. cbn in *.
  destruct h as [a dt]. cbn in *.
  repeat (split; [assumption || reflexivity|]). split; [|split; [|exact F]].
  - destruct D as [D|(D1 & D2 & D3 & D4)]; [now left|right]. subst. auto.
  - intros E. destruct (S E) as (S1 & S2 & S3 & S4).
    repeat (split; [assumption|]).
    destruct backend; [|exact S4]. destruct S4 as (-> & S5 & S6). auto.
Qed.

Lemma Hook_Detach_spec (backend : Backend) (os : OS) (h : Hook.t) (w : World) :
  wp (Hook.Detach backend os h)
     (fun r w' =>
        quiet w w' /\
        g_inTransaction w' = g_inTransaction w /\
        g_hookCount w' = g_hookCount w /\
        (fst r = NO_ERROR -> g_inTransaction w = true)) w.
Proof.
  unfold Hook.Detach. apply wp_bind.
  eapply wp_mono; [|apply DetourDetach_spec]. cbv beta.
  intros [c p'] w' (Q & G & C & _ & S). apply wp_ret. cbn in *.
  repeat (split; [assumption|]). intros E. now destruct (S E).
Qed.

(** In the Frida Gadget build neither the attach nor the detach writes to
    memory. *)
Lemma attach_detach_frida (os : OS) (aTarget aDetour : Z) (w : World) :
  wp (attach_detach FridaGadget os aTarget aDetour) (fun _ w' => mem w' = mem w) w.
Proof.
  unfold attach_detach.
  apply wp_bind. eapply wp_mono; [|apply Begin_spec]. cbv beta.
  intros r1 w1 ((M1 & _) & _).
  apply wp_bind. eapply wp_mono; [|apply Hook_Attach_spec]. cbv beta.
  intros r2 w2 (_ & _ & _ & _ & _ & _ & _ & F). specialize (F eq_refl).
  apply wp_bind. eapply wp_mono; [|apply Hook_Detach_spec]. cbv beta.
  intros r3 w3 ((M3 & _) & _).
  apply wp_bind. eapply wp_mono; [|apply Commit_spec]. cbv beta.
  intros r4 w4 ((M4 & _) & _). apply wp_ret. congruence.
Qed.

(** In the native build a successful attach leaves the jump to the detour at
    the target, and the detach, successful or not, leaves it there. *)
Lemma attach_detach_native (os : OS) (aTarget aDetour : Z) (w : World) :
  wp (attach_detach Native os aTarget aDetour)
     (fun r w' => fst r = NO_ERROR ->
                  window w' aTarget = Hooking.jump_sequence aDetour) w.
Proof.
  unfold attach_detach.
  apply wp_bind. eapply wp_mono; [|apply Begin_spec]. cbv beta.
  intros r1 w1 _.
  apply wp_bind. eapply wp_mono; [|apply Hook_Attach_spec]. cbv beta.
  intros r2 w2 (_ & _ & _ & _ & _ & _ & S & _).
  apply wp_bind. eapply wp_mono; [|apply Hook_Detach_spec]. cbv beta.
  intros r3 w3 ((M3 & _) & _).
  apply wp_bind. eapply wp_mono; [|apply Commit_spec]. cbv beta.
  intros r4 w4 ((M4 & _) & _). apply wp_ret. cbn.
  intros E. destruct (S E) as (_ & _ & _ & _ & W & _). cbn in W.
  unfold window in *. congruence.
Qed.

(** C1 fails in the native build.  The 16 bytes at [0x1000] are zero before
    the attach; the attach to the detour [0x2000] and the detach both report
    success, and afterwards the bytes at [0x1000] are still the jump to the
    detour ([LDR x16, #8; BR x16; .quad 0x2000]): the detach restores
    nothing. *)
Lemma C1_native_detach_keeps_the_patch :
  window world0 0x1000 = [0; 0; 0; 0; 0; 0; 0; 0; 0; 0; 0; 0; 0; 0; 0; 0] /\
  observe (attach_detach Native os_ok 0x1000 0x2000)
          (fun r w => (r, window w 0x1000)) world0
  = Some ((NO_ERROR, NO_ERROR),
          [0x50; 0x00; 0x00; 0x58; 0x00; 0x02; 0x1F; 0xD6;
           0x00; 0x20; 0x00; 0x00; 0x00; 0x00; 0x00; 0x00]).
Proof. split; reflexivity. Qed.

(** C3 fails in the native build.  A transaction is constructed, a hook from
    [0x1000] to [0x2000] is attached successfully, and the transaction is
    destroyed without a commit.  The destructor aborts the transaction
    ([Aborted]) and the list of trampolines is emptied, but the bytes at
    [0x1000], zero before, are still the jump to the detour: the hook stays
    installed. *)
Lemma C3_native_abort_keeps_the_patch :
  window world0 0x1000 = [0; 0; 0; 0; 0; 0; 0; 0; 0; 0; 0; 0; 0; 0; 0; 0] /\
  observe (dangling_transaction Native os_ok 0x1000 0x2000)
          (fun r w => (r, g_inTransaction w, g_trampolines w, window w 0x1000)) world0
  = Some ((NO_ERROR, DetourTransaction.Aborted), false, [],
          [0x50; 0x00; 0x00; 0x58; 0x00; 0x02; 0x1F; 0xD6;
           0x00; 0x20; 0x00; 0x00; 0x00; 0x00; 0x00; 0x00]).
Proof. split; reflexivity. Qed.

(** The destructor aborts a started transaction that was neither committed
    nor aborted.  In the Frida Gadget build this resets the count of
    registered hooks and the memory is as before; in the native build the
    trampolines are dropped while the jump written by a successful attach
    stays at the target. *)
Lemma dangling_transaction_spec
    (backend : Backend) (os : OS) (aTarget aDetour : Z) (w : World) :
  g_inTransaction w = false ->
  wp (dangling_transaction backend os aTarget aDetour)
     (fun r w' =>
        snd r = DetourTransaction.Aborted /\ g_inTransaction w' = false /\
        match backend with
        | FridaGadget => g_hookCount w' = 0 /\ mem w' = mem w
        | Native =>
            g_trampolines w' = [] /\
            (fst r = NO_ERROR -> window w' aTarget = Hooking.jump_sequence aDetour)
        end) w.
Proof.
  intros G. unfold dangling_transaction.
  apply wp_bind. eapply wp_mono; [|apply new_spec]. cbv beta.
  intros tr w1 ((M1 & _) & G1 & _ & _ & St). rewrite G in St.
  apply wp_bind. eapply wp_mono; [|apply Hook_Attach_spec]. cbv beta.
  intros a w2 (_ & _ & G2 & _ & _ & _ & S & F).
  apply wp_bind. eapply wp_mono; [|apply delete_spec]. cbv beta.
  rewrite St, G2, G1. intros tr' w3 ((M3 & _) & G3 & -> & H3). apply wp_ret.
  cbn. repeat split; auto.
  destruct backend; destruct H3 as [H3 H4]; split; auto.
  - rewrite M3, (F eq_refl). exact M1.
  - intros E. destruct (S E) as (_ & _ & _ & _ & W & _). cbn in W.
    unfold window in *. congruence.
Qed.

(** * The hook registry *)

Lemma wp_store_cell (p v : Z) (Q : unit -> World -> Prop) (w : World) :
  p <> 0 ->
  Q tt (set_cells (fun a => if a =? p then v else cells w a) w) ->
  wp (store_cell p v) Q w.
Proof.
  intros N H. unfold store_cell. apply Z.eqb_neq in N. rewrite N. exact H.
Qed.

Lemma wp_log_quiet (l : Level) (s : string) (Q : unit -> World -> Prop) (w : World) :
  (forall w', steady w w' -> clock w' = clock w -> Q tt w') -> wp (log l s) Q w.
Proof. intro H. apply wp_log, H; [apply steady_log | reflexivity]. Qed.

(** What [HookingSystem::Attach] by address does, in both builds. *)
Lemma HookingSystem_Attach_spec
    (backend : Backend) (os : OS) (m_hooks : HookingSystem.Map_t)
    (aPlugin aTarget aDetour aOriginal : Z) (w : World) :
  wp (HookingSystem.Attach backend os m_hooks aPlugin aTarget aDetour aOriginal)
     (fun r w' =>
        calls w' = calls w /\
        if fst r then
          exists address : Z,
            snd r = m_hooks ++
                    [(aPlugin,
                      HookingSystem.mkItem aTarget None aOriginal
                        (Hook.mk address aDetour))] /\
            (aOriginal <> 0 -> cells w' aOriginal = address) /\
            (forall p, p <> aOriginal -> cells w' p = cells w p) /\
            aTarget <> 0 /\ aDetour <> 0 /\
            match backend with
            | FridaGadget => address = aTarget
            | Native => exists c, mmap_result os c = Some address
            end
        else cells w' = cells w /\ snd r = m_hooks) w.
Proof.
  unfold HookingSystem.Attach.
  apply wp_bind, wp_log_quiet. intros w1 ((_ & C1 & K1 & _) & _) _.
  apply wp_bind. eapply wp_mono; [|apply new_spec]. cbv beta.
  intros tr w2 ((_ & C2 & K2 & _) & _).
  apply wp_bind. eapply wp_mono; [|apply Hook_Attach_spec]. cbv beta.
  intros [code h] w3 (C3 & K3 & _ & _ & Dt & _ & S & _). cbn [fst snd] in *.
  destruct (code =? NO_ERROR) eqn:E; cbn [negb].
  - apply Z.eqb_eq in E. destruct (S E) as (_ & Nt & Nd & B). clear S.
    cbn in Nt, Nd, Dt.
    apply wp_bind. eapply wp_mono; [|apply Commit_obj_spec]. cbv beta.
    intros [ok tr'] w4 ((_ & C4 & K4 & _) & _). cbn [fst snd].
    destruct ok.
    + assert (A : match backend with
                  | FridaGadget => Hook.m_address h = aTarget
                  | Native => exists c, mmap_result os c = Some (Hook.m_address h)
                  end).
      { destruct backend.
        - destruct B as (-> & _). reflexivity.
        - destruct B as (B & _). eauto. }
      destruct h as [address dt]. cbn in Dt, A. subst dt.
      apply wp_bind.
      destruct (aOriginal =? 0) eqn:O; cbn [negb].
      * apply Z.eqb_eq in O.
        apply wp_ret.
        apply wp_bind, wp_log_quiet. intros w5 ((_ & C5 & K5 & _) & _) _.
        apply wp_bind. eapply wp_mono; [|apply delete_spec]. cbv beta.
        intros tr'' w6 ((_ & C6 & K6 & _) & _). apply wp_ret. cbn [fst snd].
        split; [congruence|]. exists address.
        split; [reflexivity|]. split; [intros; contradiction|].
        split; [intros; congruence|]. auto.
      * apply Z.eqb_neq in O.
        apply wp_store_cell; [exact O|].
        apply wp_bind, wp_log_quiet. intros w5 ((_ & C5 & K5 & _) & _) _.
        apply wp_bind. eapply wp_mono; [|apply delete_spec]. cbv beta.
        intros tr'' w6 ((_ & C6 & K6 & _) & _). apply wp_ret. cbn [fst snd].
        cbn in C5, K5.
        split; [congruence|]. exists address.
        split; [reflexivity|].
        split; [intros _; rewrite C6, C5; cbn; now rewrite Z.eqb_refl|].
        split; [|auto].
        intros p Np. rewrite C6, C5. apply Z.eqb_neq in Np. rewrite Np. congruence.
    + apply wp_bind, wp_log_quiet. intros w5 ((_ & C5 & K5 & _) & _) _.
      apply wp_bind. eapply wp_mono; [|apply delete_spec]. cbv beta.
      intros tr'' w6 ((_ & C6 & K6 & _) & _). apply wp_ret. cbn [fst snd].
      repeat split; congruence.
  - apply wp_bind, wp_log_quiet. intros w4 ((_ & C4 & K4 & _) & _) _.
    apply wp_bind. eapply wp_mono; [|apply delete_spec]. cbv beta.
    intros tr'' w5 ((_ & C5 & K5 & _) & _). apply wp_ret. cbn [fst snd].
    repeat split; congruence.
Qed.


(** A successful attach in each build: the slot receives the target itself
    in the Frida Gadget build and the trampoline page in the native one. *)
Example Attach_example :
  observe (HookingSystem.Attach FridaGadget os_ok [] 1 0x1000 0x2000 0x5000)
          (fun r w => (fst r, List.length (snd r), cells w 0x5000)) world0
  = Some (true, 1%nat, 0x1000) /\
  observe (HookingSystem.Attach Native os_ok [] 1 0x1000 0x2000 0x5000)
          (fun r w => (fst r, List.length (snd r), cells w 0x5000)) world0
  = Some (true, 1%nat, 0x7000 + 16384).
Proof. split; reflexivity. Qed.

(** C7, as stated, fails in the Frida Gadget build: plugin [1] attaches the
    detour [0x2000] at [0x1000]; the attach succeeds and the original
    reported in the caller's slot is [0x1000], the target itself. *)
Lemma C7_counterexample :
  observe (HookingSystem.Attach FridaGadget os_ok [] 1 0x1000 0x2000 0x5000)
          (fun r w => (fst r, cells w 0x5000)) world0
  = Some (true, 0x1000).
Proof. reflexivity. Qed.

(** C7, amended: a successful [Attach] by address has a non-null target and
    a non-null detour, and the original that it reports in the caller's slot
    is, in the Frida Gadget build, the target address itself
    ([DetourAttach] leaves the pointer as it is) and, in the native build,
    the address of the trampoline page returned by [mmap]; the latter differs
    from the target and from the detour when [mmap] never returns either. *)
Theorem C7_reported_original
    (backend : Backend) (os : OS) (m_hooks : HookingSystem.Map_t)
    (aPlugin aTarget aDetour aOriginal : Z) (w : World)
    (Hslot : aOriginal <> 0) :
  wp (HookingSystem.Attach backend os m_hooks aPlugin aTarget aDetour aOriginal)
     (fun r w' =>
        fst r = true ->
        aTarget <> 0 /\ aDetour <> 0 /\
        match backend with
        | FridaGadget => cells w' aOriginal = aTarget
        | Native =>
            (exists c, mmap_result os c = Some (cells w' aOriginal)) /\
            ((forall c, mmap_result os c <> Some aTarget /\
                        mmap_result os c <> Some aDetour) ->
             cells w' aOriginal <> aTarget /\ cells w' aOriginal <> aDetour)
        end) w.
Proof.
  eapply wp_mono; [|apply HookingSystem_Attach_spec]. cbv beta.
  intros [ok hooks'] w' [_ H] E. cbn [fst snd] in *. subst ok.
  destruct H as (address & _ & S & _ & Nt & Nd & B).
  specialize (S Hslot). rewrite S.
  split; [exact Nt|]. split; [exact Nd|].
  destruct backend; [exact B|].
  split; [exact B|].
  intros Fresh. destruct B as [c B].
  destruct (Fresh c) as [F1 F2]. rewrite B in F1, F2.
  split; congruence.
Qed.

Lemma C7_witness :
  wp (HookingSystem.Attach FridaGadget os_ok [] 1 0x1000 0x2000 0x5000)
     (fun r w' =>
        fst r = true -> 0x1000 <> 0 /\ 0x2000 <> 0 /\ cells w' 0x5000 = 0x1000)
     world0.
Proof.
  apply (C7_reported_original FridaGadget os_ok [] 1 0x1000 0x2000 0x5000 world0).
  discriminate.
Defined.

Lemma matches_run (item : HookingSystem.Item) (aTarget : Z) (w : World) :
  HookingSystem.matches item aTarget w
  = Some (matches_in (cells w) item aTarget, w).
Proof.
  unfold HookingSystem.matches, matches_in.
  destruct (HookingSystem.target item =? aTarget); [reflexivity|].
  destruct (HookingSystem.symbol item); [|reflexivity].
  unfold load_cell.
  destruct (HookingSystem.original item =? 0); reflexivity.
Qed.

(** Without a matching record the first loop of [Detach] changes nothing. *)
Lemma detach_queue_no_match
    (backend : Backend) (os : OS) (aPlugin aTarget : Z) (l : HookingSystem.Map_t) :
  forall (count : nat) (hasHook : bool) (w : World),
    has_match (cells w) aPlugin aTarget l = false ->
    HookingSystem.detach_queue backend os aPlugin aTarget l count hasHook w
    = Some ((l, (count, hasHook)), w).
Proof.
  induction l as [|[plugin item] rest IH]; intros count hasHook w H; cbn in *.
  - reflexivity.
  - apply orb_false_elim in H. destruct H as [H1 H2].
    destruct (plugin =? aPlugin); cbn in H1.
    + unfold bind at 1. rewrite matches_run, H1.
      unfold bind. rewrite (IH count hasHook w H2). reflexivity.
    + unfold bind. rewrite (IH count hasHook w H2). reflexivity.
Qed.

(** C8, as stated, fails: [Detach] returns a [bool], which as a number is
    [1] for [true]; here two records are removed by the call that returns
    it. *)
Lemma C8_counterexample :
  observe (double_attach_then_detach FridaGadget)
          (fun r _ => (r, Z.b2z (snd (fst r)),
                       Z.of_nat (fst (fst r)) - Z.of_nat (snd r))) world0
  = Some ((2%nat, true, 0%nat), 1, 2).
Proof. reflexivity. Qed.

(** Without a matching record [Detach] returns [false], warns, and changes
    neither the hook map nor the data cells nor the memory. *)
Lemma Detach_no_match
    (backend : Backend) (os : OS) (m_hooks : HookingSystem.Map_t)
    (aPlugin aTarget : Z) (w : World) :
  has_match (cells w) aPlugin aTarget m_hooks = false ->
  wp (HookingSystem.Detach backend os m_hooks aPlugin aTarget)
     (fun r w' =>
        r = (false, m_hooks) /\ In no_hooks_found (logs w') /\
        cells w' = cells w /\ mem w' = mem w) w.
Proof.
  intros Hnone.
  unfold HookingSystem.Detach.
  apply wp_bind, wp_log_quiet. intros w1 ((M1 & C1 & _) & _) _.
  apply wp_bind. eapply wp_mono; [|apply new_spec]. cbv beta.
  intros tr w2 ((M2 & C2 & _) & _).
  apply wp_bind. unfold wp at 1.
  rewrite detach_queue_no_match by (rewrite C2, C1; exact Hnone).
  cbn [fst snd negb].
  apply wp_bind, wp_log. 
  apply wp_bind. eapply wp_mono; [|apply delete_spec]. cbv beta.
  intros tr' w3 (Q3 & _). apply wp_ret.
  split; [reflexivity|]. split.
  - apply (quiet_In _ _ _ Q3). cbn. apply in_or_app. right. now left.
  - destruct Q3 as (M3 & C3 & _). cbn in M3, C3. split; congruence.
Qed.

(** A [Detach] that returns [true] had a record to detach. *)
Lemma Detach_true_has_match
    (backend : Backend) (os : OS) (m_hooks : HookingSystem.Map_t)
    (aPlugin aTarget : Z) (w : World) :
  wlp (HookingSystem.Detach backend os m_hooks aPlugin aTarget)
      (fun r _ => fst r = true ->
                  has_match (cells w) aPlugin aTarget m_hooks = true) w.
Proof.
  destruct (has_match (cells w) aPlugin aTarget m_hooks) eqn:H.
  - apply wlp_any. auto.
  - pose proof (Detach_no_match backend os m_hooks aPlugin aTarget w H) as D.
    unfold wp, wlp in *.
    destruct (HookingSystem.Detach backend os m_hooks aPlugin aTarget w)
      as [[r w']|]; auto.
    destruct D as [-> _]. discriminate.
Qed.

(** ** Shutdown *)

Lemma QueueForDetach_total
    (backend : Backend) (os : OS) (aPlugin : Z) (aItem : HookingSystem.Item) (w : World) :
  match HookingSystem.symbol aItem with
  | Some _ => HookingSystem.original aItem <> 0
  | None => True
  end ->
  wp (HookingSystem.QueueForDetach backend os aPlugin aItem) (fun _ _ => True) w.
Proof.
  unfold HookingSystem.QueueForDetach.
  destruct (HookingSystem.symbol aItem) as [s|]; intros H.
  - apply wp_bind. unfold load_cell. apply Z.eqb_neq in H. rewrite H.
    apply wp_gets. apply wp_bind, wp_tick.
    destruct (negb (rebind_ok os (clock w))); apply wp_bind, wp_log, wp_ret; exact I.
  - apply wp_bind, wp_log. apply wp_bind.
    eapply wp_mono; [|apply Hook_Detach_spec]. cbv beta. intros r w' _.
    destruct (negb (fst r =? NO_ERROR)); apply wp_bind, wp_log, wp_ret; exact I.
Qed.

Lemma detach_all_total (backend : Backend) (os : OS) (l : HookingSystem.Map_t) :
  forall (count : nat) (w : World),
    slots_present l = true ->
    wp (HookingSystem.detach_all backend os l count) (fun _ _ => True) w.
Proof.
  induction l as [|[plugin item] rest IH]; intros count w H; cbn in *.
  - exact I.
  - apply andb_prop in H. destruct H as [H1 H2].
    apply wp_bind. eapply wp_mono; [|apply QueueForDetach_total].
    + cbv beta. intros r w1 _. apply wp_bind.
      eapply wp_mono; [|apply IH; exact H2]. cbv beta. intros r' w2 _. exact I.
    + destruct (HookingSystem.symbol item); [|exact I].
      apply Z.eqb_neq. now apply negb_true_iff.
Qed.

(** When every record by symbol has an original slot, [Shutdown] runs to
    its end, whatever the individual detaches and the commit report, and the
    hook map is empty afterwards. *)
Lemma Shutdown_spec
    (backend : Backend) (os : OS) (m_hooks : HookingSystem.Map_t) (w : World) :
  slots_present m_hooks = true ->
  wp (HookingSystem.Shutdown backend os m_hooks) (fun r _ => r = []) w.
Proof.
  intros H. unfold HookingSystem.Shutdown.
  apply wp_bind, wp_log.
  apply wp_bind. eapply wp_mono; [|apply new_spec]. cbv beta. intros tr w1 _.
  apply wp_bind. eapply wp_mono; [|apply detach_all_total; exact H]. cbv beta.
  intros r w2 _.
  apply wp_bind. eapply wp_mono; [|apply Commit_obj_spec]. cbv beta.
  intros c w3 _.
  apply wp_bind. destruct (fst c); apply wp_log.
  all: apply wp_bind; (eapply wp_mono; [|apply delete_spec]); cbv beta;
    intros tr' w4 _; reflexivity.
Qed.

(** C9 fails on a record by symbol whose original slot is null.  Plugin [1]
    rebinds [open] without an original slot: the attach succeeds and the
    record is stored.  [Shutdown] then dereferences the null slot in
    [QueueForDetach] and the process faults before the map is cleared. *)
Lemma C9_shutdown_faults_on_null_slot :
  observe (HookingSystem.AttachSymbol os_ok [] 1 "open" 0x2000 0)
          (fun r _ => (fst r, map (fun e => HookingSystem.original (snd e)) (snd r)))
          world0
  = Some (true, [0]) /\
  shutdown_after_symbol_hook FridaGadget world0 = None /\
  shutdown_after_symbol_hook Native world0 = None.
Proof. repeat split; reflexivity. Qed.

(** * Further properties of the sources *)

(** ** Page arithmetic *)

Lemma land_lnot_pow2 (x k : Z) :
  0 <= k -> Z.land x (Z.lnot (2 ^ k - 1)) = 2 ^ k * (x / 2 ^ k).
Proof.
  intros Hk. rewrite <- Z.ldiff_land.
  replace (2 ^ k - 1) with (Z.ones k) by (rewrite Z.ones_equiv; lia).
  rewrite Z.ldiff_ones_r by exact Hk.
  rewrite Z.shiftl_mul_pow2, Z.shiftr_div_pow2 by exact Hk. lia.
Qed.

Lemma round_down_bounds (x p : Z) :
  0 < p -> p * (x / p) <= x < p * (x / p) + p.
Proof.
  intros Hp. pose proof (Z.div_mod x p ltac:(lia)).
  pose proof (Z.mod_pos_bound x p Hp). lia.
Qed.

Lemma mul_mod_zero (p q : Z) : (p * q) mod p = 0.
Proof. rewrite Z.mul_comm. apply Z_mod_mult. Qed.

Lemma round_down_fits (x p m : Z) :
  0 < p -> 0 <= x -> x < m -> 0 <= p * (x / p) < m.
Proof.
  intros Hp Hx Hm. destruct (round_down_bounds x p Hp) as [B1 _]. split.
  - apply Z.mul_nonneg_nonneg; [|apply Z.div_pos]; assumption || apply Z.lt_le_incl, Hp.
  - eapply Z.le_lt_trans; [exact B1 | exact Hm].
Qed.

Lemma land_page (x k : Z) :
  0 <= k -> 0 <= x < 2 ^ 64 ->
  Z.land (Z.land x (Z.lnot (2 ^ k - 1))) (Z.ones 64) = 2 ^ k * (x / 2 ^ k).
Proof.
  intros Hk [Hx Hm]. rewrite land_lnot_pow2 by exact Hk.
  assert (P : 0 < 2 ^ k) by (apply Z.pow_pos_nonneg; [reflexivity | exact Hk]).
  rewrite Z.land_ones by (intro; discriminate).
  apply Z.mod_small. apply round_down_fits; assumption.
Qed.

(** X1.  For a page size that is a power of two, [AlignToPage] rounds a size
    up to the next multiple of the page: the result is a multiple of the page
    size, it is at least the size, and it exceeds it by less than one page
    (as long as the sum does not leave 64 bits). *)
Theorem AlignToPage_rounds_up (os : OS) (k size : Z)
    (Hk : 0 <= k) (Hpage : page_size os = 2 ^ k)
    (Hsize : 0 <= size) (Hfit : size + 2 ^ k - 1 < 2 ^ 64) :
  Hooking.AlignToPage os size mod 2 ^ k = 0 /\
  size <= Hooking.AlignToPage os size < size + 2 ^ k.
Proof.
  assert (P : 0 < 2 ^ k) by (apply Z.pow_pos_nonneg; [reflexivity | exact Hk]).
  unfold Hooking.AlignToPage. rewrite Hpage.
  assert (F : 0 <= size + 2 ^ k - 1 < 2 ^ 64)
    by (revert P Hsize Hfit; generalize (2 ^ k), (2 ^ 64); clear; intros; lia).
  rewrite (land_page _ k Hk F).
  pose proof (round_down_bounds (size + 2 ^ k - 1) (2 ^ k) P) as B.
  split; [apply mul_mod_zero|].
  revert B. generalize (2 ^ k * ((size + 2 ^ k - 1) / 2 ^ k)).
  generalize (2 ^ k). clear. intros p r B. lia.
Qed.

Lemma AlignToPage_witness :
  Hooking.AlignToPage os_ok 16 mod 2 ^ 14 = 0 /\
  16 <= Hooking.AlignToPage os_ok 16 < 16 + 2 ^ 14.
Proof.
  apply (AlignToPage_rounds_up os_ok 14 16); cbn; lia.
Defined.

(** X2.  For a page size that is a power of two, and a range that ends at
    least one page before the end of the 64-bit address space, the range
    that [ProtectMemory] hands to the kernel starts on a page boundary at or
    below the address, less than one page below it, spans whole pages, and
    covers every byte of the range that was asked for. *)
Theorem ProtectMemory_range_covers (os : OS) (k aAddress aSize : Z)
    (Hk : 0 <= k) (Hpage : page_size os = 2 ^ k)
    (Haddr : 0 <= aAddress) (Hsize : 0 <= aSize)
    (Hfit : aAddress + aSize + 2 ^ k <= 2 ^ 64) :
  let r := Platform.ProtectMemory_range os aAddress aSize in
  fst r mod 2 ^ k = 0 /\ snd r mod 2 ^ k = 0 /\
  fst r <= aAddress < fst r + 2 ^ k /\
  aAddress + aSize <= fst r + snd r < aAddress + aSize + 2 ^ k.
Proof.
  assert (P : 0 < 2 ^ k) by (apply Z.pow_pos_nonneg; [reflexivity | exact Hk]).
  unfold Platform.ProtectMemory_range. cbn [fst snd]. rewrite Hpage.
  assert (F : 0 <= aAddress < 2 ^ 64)
    by (revert P Haddr Hsize Hfit; generalize (2 ^ k), (2 ^ 64); clear; intros; lia).
  rewrite (land_page aAddress k Hk F).
  pose proof (round_down_bounds aAddress (2 ^ k) P) as B.
  pose proof (round_down_fits aAddress (2 ^ k) (2 ^ 64) P (proj1 F) (proj2 F)) as N.
  set (a := 2 ^ k * (aAddress / 2 ^ k)) in *.
  assert (F' : 0 <= aAddress + aSize - a + 2 ^ k - 1 < 2 ^ 64)
    by (revert P Haddr Hsize Hfit B N; generalize a, (2 ^ k), (2 ^ 64); clear;
        intros; lia).
  rewrite (Z.land_ones (aAddress + aSize - a + 2 ^ k - 1)) by (intro; discriminate).
  rewrite (Z.mod_small (aAddress + aSize - a + 2 ^ k - 1)) by exact F'.
  rewrite (land_page _ k Hk F').
  pose proof (round_down_bounds (aAddress + aSize - a + 2 ^ k - 1) (2 ^ k) P) as B'.
  split; [apply mul_mod_zero|]. split; [apply mul_mod_zero|].
  revert B B'. generalize (2 ^ k * ((aAddress + aSize - a + 2 ^ k - 1) / 2 ^ k)).
  generalize a, (2 ^ k). clear. intros a p s B B'. lia.
Qed.

Lemma ProtectMemory_range_witness :
  let r := Platform.ProtectMemory_range os_ok 0x1000 16 in
  fst r mod 2 ^ 14 = 0 /\ snd r mod 2 ^ 14 = 0 /\
  fst r <= 0x1000 < fst r + 2 ^ 14 /\
  0x1000 + 16 <= fst r + snd r < 0x1000 + 16 + 2 ^ 14.
Proof.
  apply (ProtectMemory_range_covers os_ok 14 0x1000 16); cbn; lia.
Defined.

(** ** The jump sequence *)

Lemma byte_of_div (v : Z) (i : nat) :
  byte_of v i = (v / 2 ^ (8 * Z.of_nat i)) mod 256.
Proof.
  unfold byte_of. rewrite Z.shiftr_div_pow2 by lia.
  change 255 with (Z.ones 8). now rewrite Z.land_ones by lia.
Qed.

Lemma decode_le_bytes (v : Z) (n : nat) :
  forall s : nat,
    decode_le (map (byte_of v) (seq s n))
    = (v / 2 ^ (8 * Z.of_nat s)) mod 2 ^ (8 * Z.of_nat n).
Proof.
  induction n as [|n IH]; intros s.
  - cbn [seq map decode_le]. now rewrite Z.mod_1_r.
  - cbn [seq map decode_le]. rewrite IH, byte_of_div.
    replace (2 ^ (8 * Z.of_nat (S n))) with (256 * 2 ^ (8 * Z.of_nat n)).
    2: { replace (8 * Z.of_nat (S n)) with (8 + 8 * Z.of_nat n) by lia.
         rewrite Z.pow_add_r by lia. reflexivity. }
    rewrite Z.rem_mul_r by (try apply Z.pow_pos_nonneg; lia).
    rewrite Z.div_div by (try apply Z.pow_pos_nonneg; lia).
    replace (2 ^ (8 * Z.of_nat s) * 256) with (2 ^ (8 * Z.of_nat (S s))).
    2: { replace (8 * Z.of_nat (S s)) with (8 * Z.of_nat s + 8) by lia.
         rewrite Z.pow_add_r by lia. reflexivity. }
    reflexivity.
Qed.

Lemma byte_of_range (v : Z) (i : nat) : 0 <= byte_of v i < 256.
Proof. rewrite byte_of_div. apply Z.mod_pos_bound. lia. Qed.

(** X3.  The jump sequence written by the native [DetourAttach] is 16 bytes
    long, each a byte; its first eight bytes are the two instructions
    [LDR x16, #8] and [BR x16] in little-endian order, whatever the
    destination, and its last eight bytes are the destination in
    little-endian order: read back as a number they give the destination,
    for every 64-bit address. *)
Theorem jump_sequence_encodes_destination (dest : Z)
    (Hdest : 0 <= dest < 2 ^ 64) :
  List.length (Hooking.jump_sequence dest) = 16%nat /\
  Forall (fun b => 0 <= b < 256) (Hooking.jump_sequence dest) /\
  firstn 8 (Hooking.jump_sequence dest)
  = [0x50; 0x00; 0x00; 0x58; 0x00; 0x02; 0x1F; 0xD6] /\
  decode_le (skipn 8 (Hooking.jump_sequence dest)) = dest.
Proof.
  unfold Hooking.jump_sequence, le32, le64. repeat split.
  - apply Forall_app. split; [|apply Forall_app; split];
      apply Forall_forall; intros b Hb; apply in_map_iff in Hb;
      destruct Hb as (i & <- & _); apply byte_of_range.
  - change (skipn 8 (map (byte_of (Hooking.EncodeLdrX16Imm 8)) (seq 0 4) ++
                     map (byte_of Hooking.EncodeBrX16) (seq 0 4) ++
                     map (byte_of dest) (seq 0 8)))
      with (map (byte_of dest) (seq 0 8)).
    rewrite decode_le_bytes. cbn [Z.of_nat Z.mul Z.pow]. rewrite Z.div_1_r.
    apply Z.mod_small. exact Hdest.
Qed.

Lemma jump_sequence_witness :
  List.length (Hooking.jump_sequence 0x2000) = 16%nat /\
  Forall (fun b => 0 <= b < 256) (Hooking.jump_sequence 0x2000) /\
  firstn 8 (Hooking.jump_sequence 0x2000)
  = [0x50; 0x00; 0x00; 0x58; 0x00; 0x02; 0x1F; 0xD6] /\
  decode_le (skipn 8 (Hooking.jump_sequence 0x2000)) = 0x2000.
Proof.
  apply (jump_sequence_encodes_destination 0x2000). lia.
Defined.

(** ** [DetourAttach] and [DetourDetach] *)

Lemma store_bytes_outside (bs : list Z) :
  forall (m : Z -> Z) (a x : Z),
    x < a \/ a + Z.of_nat (List.length bs) <= x -> store_bytes m a bs x = m x.
Proof.
  induction bs as [|b bs IH]; intros m a x H; [reflexivity|].
  change (store_bytes m a (b :: bs))
    with (store_bytes (fun y => if y =? a then b else m y) (a + 1) bs).
  cbn [List.length] in H. rewrite IH by lia.
  destruct (x =? a) eqn:E; [|reflexivity]. apply Z.eqb_eq in E. lia.
Qed.

Lemma load_bytes_ext (n : nat) :
  forall (m m' : Z -> Z) (a : Z),
    (forall x, a <= x < a + Z.of_nat n -> m' x = m x) ->
    load_bytes m' a n = load_bytes m a n.
Proof.
  induction n as [|n IH]; intros m m' a H; [reflexivity|].
  change (load_bytes m' a (S n)) with (m' a :: load_bytes m' (a + 1) n).
  change (load_bytes m a (S n)) with (m a :: load_bytes m (a + 1) n).
  rewrite H by lia. f_equal. apply IH. intros x Hx. apply H. lia.
Qed.

Lemma jump_sequence_length (dest : Z) :
  List.length (Hooking.jump_sequence dest) = 16%nat.
Proof. reflexivity. Qed.

(** Everything that the native [DetourAttach] does: either it succeeds, the
    three system calls having succeeded, and has written the jump to the
    target at the trampoline and then the jump to the detour at the target;
    or it fails, and the only bytes it may have written are those of the
    trampoline. *)
Lemma DetourAttach_native_run (os : OS) (p d : Z) (w : World) :
  wp (Hooking.DetourAttach Native os p d)
     (fun r w' =>
        (fst r = NO_ERROR /\
         g_inTransaction w = true /\ p <> 0 /\ d <> 0 /\
         mmap_result os (clock w) = Some (snd r) /\
         mprotect_ok os (S (clock w)) = true /\
         protect_ok os (S (S (clock w))) = true /\
         evolve w w' true (g_hookCount w)
           (g_trampolines w ++
            [Trampoline_new p d (snd r) (Hooking.AlignToPage os 16)])
           (store_bytes (store_bytes (mem w) (snd r) (Hooking.jump_sequence p))
                        p (Hooking.jump_sequence d))
           (S (S (S (S (clock w)))))) \/
        (fst r = -1 /\ snd r = p /\
         (g_inTransaction w = false \/ p = 0 \/ d = 0 \/
          mmap_result os (clock w) = None \/
          mprotect_ok os (S (clock w)) = false \/
          protect_ok os (S (S (clock w))) = false) /\
         exists m ck,
           evolve w w' (g_inTransaction w) (g_hookCount w) (g_trampolines w) m ck /\
           (m = mem w \/
            exists tm, mmap_result os (clock w) = Some tm /\
                       m = store_bytes (mem w) tm (Hooking.jump_sequence p)))) w.
Proof.
  pose proof (evolve_start w) as E0.
  unfold Hooking.DetourAttach.
  apply wp_bind, wp_gets.
  destruct (g_inTransaction w) eqn:G; cbn [negb].
  2: { apply wp_bind. apply (wp_log_ev _ _ _ _ _ _ _ E0). intros w1 E1.
       apply wp_ret. right. cbn [fst snd]. repeat split; auto.
       exists (mem w), (clock w). auto. }
  destruct ((p =? 0) || (d =? 0)) eqn:N.
  { apply wp_bind. apply (wp_log_ev _ _ _ _ _ _ _ E0). intros w1 E1.
    apply wp_ret. right. cbn [fst snd]. repeat split; auto.
    - apply orb_true_iff in N. destruct N as [N|N]; apply Z.eqb_eq in N; auto.
    - exists (mem w), (clock w). auto. }
  apply orb_false_elim in N. destruct N as [Np Nd]. apply Z.eqb_neq in Np, Nd.
  apply wp_bind. apply (wp_log_ev _ _ _ _ _ _ _ E0). intros w1 E1.
  apply wp_bind. apply (wp_tick_ev _ _ _ _ _ _ _ E1). intros w2 E2.
  destruct (mmap_result os (clock w)) as [tm|] eqn:Mm.
  2: { apply wp_bind. apply (wp_log_ev _ _ _ _ _ _ _ E2). intros w3 E3.
       apply wp_ret. right. cbn [fst snd]. repeat split; auto 6.
       exists (mem w), (S (clock w)). auto. }
  apply wp_bind. apply (wp_log_ev _ _ _ _ _ _ _ E2). intros w3 E3.
  apply wp_bind. apply (wp_store_ev _ _ _ _ _ _ _ E3). intros w4 E4.
  apply wp_bind. apply (wp_tick_ev _ _ _ _ _ _ _ E4). intros w5 E5.
  destruct (mprotect_ok os (S (clock w))) eqn:Mp; cbn [negb].
  2: { apply wp_bind. apply (wp_log_ev _ _ _ _ _ _ _ E5). intros w6 E6.
       apply wp_ret. right. cbn [fst snd]. repeat split; auto 6.
       eexists _, _. split; [exact E6|]. right. eauto. }
  apply wp_bind. apply (wp_log_ev _ _ _ _ _ _ _ E5). intros w6 E6.
  apply wp_bind. apply (wp_log_ev _ _ _ _ _ _ _ E6). intros w7 E7.
  apply wp_bind. apply (wp_tick_ev _ _ _ _ _ _ _ E7). intros w8 E8.
  destruct (protect_ok os (S (S (clock w)))) eqn:Pr; cbn [negb].
  2: { apply wp_bind. apply (wp_log_ev _ _ _ _ _ _ _ E8). intros w9 E9.
       apply wp_ret. right. cbn [fst snd]. repeat split; auto 7.
       eexists _, _. split; [exact E9|]. right. eauto. }
  apply wp_bind. apply (wp_log_ev _ _ _ _ _ _ _ E8). intros w9 E9.
  apply wp_bind. apply (wp_store_ev _ _ _ _ _ _ _ E9). intros w10 E10.
  apply wp_bind. apply (wp_log_ev _ _ _ _ _ _ _ E10). intros w11 E11.
  apply wp_bind. apply (wp_tick_ev _ _ _ _ _ _ _ E11). intros w12 E12.
  apply wp_bind. apply (wp_push_ev _ _ _ _ _ _ _ E12). intros w13 E13.
  apply wp_ret. left. cbn [fst snd]. repeat split; auto; apply E13.
Qed.

Lemma window_store_same (m : Z -> Z) (a dest : Z) :
  load_bytes (store_bytes m a (Hooking.jump_sequence dest)) a 16
  = Hooking.jump_sequence dest.
Proof. exact (load_store_bytes (Hooking.jump_sequence dest) m a). Qed.

Lemma window_store_apart (m : Z -> Z) (a b dest : Z) :
  a + 16 <= b \/ b + 16 <= a ->
  load_bytes (store_bytes m a (Hooking.jump_sequence dest)) b 16
  = load_bytes m b 16.
Proof.
  intros H. apply load_bytes_ext. intros x Hx.
  apply store_bytes_outside. rewrite jump_sequence_length. lia.
Qed.

(** X4.  The native [DetourAttach] succeeds exactly when a transaction is
    open, the target and the detour are not null, and [mmap], [mprotect] and
    [ProtectMemory] all succeed.  When it fails it returns [-1], leaves the
    caller's pointer and the list of trampolines as they were, and, the page
    from [mmap] being apart from the target, not one of the 16 bytes at the
    target has changed: no partial patch is left. *)
Theorem native_attach_all_or_nothing (os : OS) (p d : Z) (w : World)
    (Hapart : forall tm, mmap_result os (clock w) = Some tm ->
                         tm + 16 <= p \/ p + 16 <= tm) :
  wp (Hooking.DetourAttach Native os p d)
     (fun r w' =>
        (fst r = NO_ERROR <->
         g_inTransaction w = true /\ p <> 0 /\ d <> 0 /\
         mmap_result os (clock w) <> None /\
         mprotect_ok os (S (clock w)) = true /\
         protect_ok os (S (S (clock w))) = true) /\
        (fst r <> NO_ERROR ->
         fst r = -1 /\ snd r = p /\ g_trampolines w' = g_trampolines w /\
         window w' p = window w p)) w.
Proof.
  eapply wp_mono; [|apply DetourAttach_native_run]. cbv beta.
  intros r w' [S|F].
  - destruct S as (R & G & Np & Nd & Mm & Mp & Pr & _). split.
    + split; [intros _|intros _; exact R]. repeat split; auto. congruence.
    + intros N. contradiction.
  - destruct F as (R & Ptr & Why & m & ck & E & Hm). split.
    + split; [intros C; rewrite R in C; discriminate|].
      intros (G & Np & Nd & Mm & Mp & Pr).
      destruct Why as [W|[W|[W|[W|[W|W]]]]]; congruence.
    + intros _. destruct E as (_ & _ & T & D & _).
      repeat split; auto. unfold window. rewrite D.
      destruct Hm as [->|(tm & Mm & ->)]; [reflexivity|].
      apply window_store_apart. destruct (Hapart tm Mm); lia.
Qed.

Lemma native_attach_all_or_nothing_witness :
  wp (Hooking.DetourAttach Native os_ok 0x1000 0x2000)
     (fun r w' =>
        (fst r = NO_ERROR <->
         false = true /\ 0x1000 <> 0 /\ 0x2000 <> 0 /\
         Some 0x7000 <> None /\ true = true /\ true = true) /\
        (fst r <> NO_ERROR ->
         fst r = -1 /\ snd r = 0x1000 /\ g_trampolines w' = [] /\
         window w' 0x1000 = window world0 0x1000)) world0.
Proof.
  apply (native_attach_all_or_nothing os_ok 0x1000 0x2000 world0).
  intros tm H. cbn in H. injection H as <-. lia.
Defined.

(** X5.  When the native [DetourAttach] succeeds, the pointer it hands back
    is the page that [mmap] returned; the 16 bytes at the target are the
    jump to the detour, the 16 bytes at that page are a jump to the target
    address, every other byte of memory is as before, and one trampoline
    record for this target, detour and page has been added at the end of
    the list. *)
Theorem native_attach_writes_two_jumps (os : OS) (p d : Z) (w : World)
    (Hapart : forall tm, mmap_result os (clock w) = Some tm ->
                         tm + 16 <= p \/ p + 16 <= tm) :
  wp (Hooking.DetourAttach Native os p d)
     (fun r w' =>
        fst r = NO_ERROR ->
        mmap_result os (clock w) = Some (snd r) /\
        window w' p = Hooking.jump_sequence d /\
        window w' (snd r) = Hooking.jump_sequence p /\
        (forall x, (x < p \/ p + 16 <= x) -> (x < snd r \/ snd r + 16 <= x) ->
                   mem w' x = mem w x) /\
        g_trampolines w' =
          g_trampolines w ++
          [Trampoline_new p d (snd r) (Hooking.AlignToPage os 16)]) w.
Proof.
  eapply wp_mono; [|apply DetourAttach_native_run]. cbv beta.
  intros r w' [S|F] R.
  2: { destruct F as (C & _). rewrite C in R. discriminate. }
  destruct S as (_ & G & Np & Nd & Mm & Mp & Pr & E).
  destruct E as (_ & _ & T & D & _).
  split; [exact Mm|]. unfold window. rewrite D.
  split; [apply window_store_same|].
  split; [|split; [|exact T]].
  - rewrite window_store_apart by (destruct (Hapart _ Mm); lia).
    apply window_store_same.
  - intros x Hp Ht.
    rewrite store_bytes_outside by (rewrite jump_sequence_length; lia).
    apply store_bytes_outside. rewrite jump_sequence_length. lia.
Qed.

Lemma native_attach_writes_two_jumps_witness :
  wp (Hooking.DetourAttach Native os_ok 0x1000 0x2000)
     (fun r w' =>
        fst r = NO_ERROR ->
        Some (0x7000 + 16384 * 5) = Some (snd r) /\
        window w' 0x1000 = Hooking.jump_sequence 0x2000 /\
        window w' (snd r) = Hooking.jump_sequence 0x1000 /\
        (forall x, (x < 0x1000 \/ 0x1000 + 16 <= x) ->
                   (x < snd r \/ snd r + 16 <= x) ->
                   mem w' x = 0) /\
        g_trampolines w' =
          [] ++ [Trampoline_new 0x1000 0x2000 (snd r) (Hooking.AlignToPage os_ok 16)])
     (set_clock 5 (set_inTransaction true world0)).
Proof.
  apply (native_attach_writes_two_jumps os_ok 0x1000 0x2000
           (set_clock 5 (set_inTransaction true world0))).
  intros tm H. cbn in H. injection H as <-. lia.
Defined.

(** X6.  In both builds [DetourAttach] refuses to work outside a
    transaction and on a null target or detour: it returns [-1], leaves the
    caller's pointer as it was, logs one error, and changes nothing else,
    neither the flag, the count of hooks, the trampolines, the memory, the
    data cells nor the clock (no system call is made). *)
Theorem DetourAttach_rejects (backend : Backend) (os : OS) (p d : Z) (w : World)
    (Hbad : g_inTransaction w = false \/ p = 0 \/ d = 0) :
  wp (Hooking.DetourAttach backend os p d)
     (fun r w' =>
        r = (-1, p) /\
        g_inTransaction w' = g_inTransaction w /\ g_hookCount w' = g_hookCount w /\
        g_trampolines w' = g_trampolines w /\ mem w' = mem w /\
        cells w' = cells w /\ calls w' = calls w /\ clock w' = clock w /\
        exists msg, logs w' = logs w ++ [mkLog error msg]) w.
Proof.
  unfold Hooking.DetourAttach.
  apply wp_bind, wp_gets.
  destruct (g_inTransaction w) eqn:G; cbn [negb].
  2: { apply wp_bind, wp_log, wp_ret. cbn. repeat split; auto. eexists. reflexivity. }
  assert (N : (p =? 0) || (d =? 0) = true).
  { destruct Hbad as [H|[->| ->]]; [discriminate|reflexivity|apply orb_true_r]. }
  destruct backend; rewrite N;
    apply wp_bind, wp_log, wp_ret; cbn; repeat split; auto; eexists; reflexivity.
Qed.

Lemma DetourAttach_rejects_witness :
  wp (Hooking.DetourAttach Native os_ok 0x1000 0x2000)
     (fun r w' =>
        r = (-1, 0x1000) /\
        g_inTransaction w' = false /\ g_hookCount w' = 0 /\
        g_trampolines w' = [] /\ mem w' = mem world0 /\
        cells w' = cells world0 /\ calls w' = [] /\ clock w' = 0%nat /\
        exists msg, logs w' = [] ++ [mkLog error msg]) world0.
Proof.
  apply (DetourAttach_rejects Native os_ok 0x1000 0x2000 world0).
  left. reflexivity.
Defined.

(** Everything that [DetourAttach] does in the Frida Gadget build. *)
Lemma DetourAttach_frida_run (os : OS) (p d : Z) (w : World) :
  wp (Hooking.DetourAttach FridaGadget os p d)
     (fun r w' =>
        (fst r = NO_ERROR <-> g_inTransaction w = true /\ p <> 0 /\ d <> 0) /\
        (fst r = NO_ERROR \/ fst r = -1) /\
        snd r = p /\
        g_hookCount w' =
          (if fst r =? NO_ERROR then wrap_int32 (g_hookCount w + 1)
           else g_hookCount w) /\
        g_inTransaction w' = g_inTransaction w /\
        g_trampolines w' = g_trampolines w /\ mem w' = mem w /\
        cells w' = cells w /\ clock w' = clock w) w.
Proof.
  unfold Hooking.DetourAttach.
  apply wp_bind, wp_gets.
  destruct (g_inTransaction w) eqn:G; cbn [negb].
  2: { apply wp_bind, wp_log, wp_ret. cbn. repeat split; auto; try discriminate.
       intros (C & _). discriminate. }
  destruct ((p =? 0) || (d =? 0)) eqn:N.
  - apply wp_bind, wp_log, wp_ret. cbn. repeat split; auto; try discriminate.
    intros (_ & Np & Nd).
    apply orb_true_iff in N. destruct N as [N|N]; apply Z.eqb_eq in N; contradiction.
  - apply orb_false_elim in N. destruct N as [Np Nd]. apply Z.eqb_neq in Np, Nd.
    apply wp_bind, wp_gets. apply wp_bind, wp_modify. apply wp_bind, wp_log, wp_ret.
    cbn. repeat split; auto.
Qed.

(** X7.  In the Frida Gadget build [DetourAttach] succeeds exactly when a
    transaction is open and the target and the detour are not null; a
    success counts one more registered hook (on 32 bits) and touches neither
    the caller's pointer nor the memory, the trampolines, the data cells or
    the clock. *)
Theorem frida_attach_only_counts (os : OS) (p d : Z) (w : World) :
  wp (Hooking.DetourAttach FridaGadget os p d)
     (fun r w' =>
        (fst r = NO_ERROR <-> g_inTransaction w = true /\ p <> 0 /\ d <> 0) /\
        (fst r = NO_ERROR \/ fst r = -1) /\
        snd r = p /\
        g_hookCount w' =
          (if fst r =? NO_ERROR then wrap_int32 (g_hookCount w + 1)
           else g_hookCount w) /\
        g_inTransaction w' = g_inTransaction w /\
        g_trampolines w' = g_trampolines w /\ mem w' = mem w /\
        cells w' = cells w /\ clock w' = clock w) w.
Proof. apply DetourAttach_frida_run. Qed.

Lemma find_trampoline_fresh (tm d p sz : Z) (ts : list Trampoline) :
  (forall t', In t' ts -> trampolineMem t' <> tm) ->
  Hooking.find_trampoline tm d (ts ++ [Trampoline_new p d tm sz])
  = Some (ts, Trampoline_new p d tm sz, []).
Proof.
  intros F. induction ts as [|x ts IH]; cbn.
  - now rewrite !Z.eqb_refl.
  - assert (N : (trampolineMem x =? tm) = false)
      by (apply Z.eqb_neq, F; now left).
    rewrite N. cbn. rewrite IH; [reflexivity|].
    intros t' H. apply F. now right.
Qed.

(** Everything that [DetourDetach] does in the Frida Gadget build. *)
Lemma DetourDetach_frida_run (os : OS) (p d : Z) (w : World) :
  wp (Hooking.DetourDetach FridaGadget os p d)
     (fun r w' =>
        r = (if g_inTransaction w then (NO_ERROR, p) else (-1, p)) /\
        g_inTransaction w' = g_inTransaction w /\
        g_hookCount w' = g_hookCount w /\ g_trampolines w' = g_trampolines w /\
        mem w' = mem w /\ cells w' = cells w /\ clock w' = clock w) w.
Proof.
  unfold Hooking.DetourDetach.
  apply wp_bind, wp_gets.
  destruct (g_inTransaction w) eqn:G; cbn [negb].
  - apply wp_bind, wp_log, wp_ret. cbn. repeat split; auto.
  - apply wp_ret. repeat split; auto.
Qed.

(** Everything that the native [DetourDetach] does. *)
Lemma DetourDetach_native_run (os : OS) (p d : Z) (w : World) :
  wp (Hooking.DetourDetach Native os p d)
     (fun r w' =>
        mem w' = mem w /\ cells w' = cells w /\ logs w' = logs w /\
        g_inTransaction w' = g_inTransaction w /\
        ((exists pre t post,
            Hooking.find_trampoline p d (g_trampolines w) = Some (pre, t, post) /\
            g_inTransaction w = true /\ protect_ok os (clock w) = true /\
            r = (NO_ERROR, target t) /\ g_trampolines w' = pre ++ post) \/
         (r = (-1, p) /\ g_trampolines w' = g_trampolines w /\
          (g_inTransaction w = false \/ p = 0 \/ d = 0 \/
           Hooking.find_trampoline p d (g_trampolines w) = None \/
           protect_ok os (clock w) = false)))) w.
Proof.
  unfold Hooking.DetourDetach.
  apply wp_bind, wp_gets.
  destruct (g_inTransaction w) eqn:G; cbn [negb].
  2: { apply wp_ret. repeat (split; [solve [auto]|]). right.
       split; [reflexivity|]. split; [reflexivity|]. auto. }
  destruct ((p =? 0) || (d =? 0)) eqn:N.
  { apply wp_ret. repeat (split; [solve [auto]|]). right.
    split; [reflexivity|]. split; [reflexivity|].
    apply orb_true_iff in N. destruct N as [N|N]; apply Z.eqb_eq in N; auto. }
  apply wp_bind, wp_gets.
  destruct (Hooking.find_trampoline p d (g_trampolines w)) as [[[pre t] post]|] eqn:F.
  2: { apply wp_ret. repeat (split; [solve [auto]|]). right.
       split; [reflexivity|]. split; [reflexivity|]. auto 6. }
  apply wp_bind, wp_tick.
  destruct (protect_ok os (clock w)) eqn:Pr; cbn [negb].
  2: { apply wp_ret. cbn. repeat (split; [solve [auto]|]). right.
       split; [reflexivity|]. split; [reflexivity|]. auto 7. }
  apply wp_bind, wp_tick. apply wp_bind, wp_modify. apply wp_ret. cbn.
  repeat (split; [solve [auto]|]). left. exists pre, t, post. auto.
Qed.

(** X8.  A detach undoes what the attach did to the hook object.  After a
    successful [Attach] of a hook, a successful [Detach] leaves its address
    and detour as they were before the attach, and the list of trampolines
    as it was.  In the Frida Gadget build the detach always succeeds and the
    count of registered hooks keeps the hook (it is not counted down); in
    the native build, the page from [mmap] being neither null nor that of an
    existing trampoline, the detach succeeds exactly when its [ProtectMemory]
    does. *)
Theorem hook_detach_undoes_attach (backend : Backend) (os : OS) (h : Hook.t) (w : World)
    (Hfresh : forall t tm, In t (g_trampolines w) ->
                           mmap_result os (clock w) = Some tm ->
                           trampolineMem t <> tm)
    (Hpage : mmap_result os (clock w) <> Some 0) :
  wp (hook_round_trip backend os h)
     (fun r w' =>
        fst (fst r) = NO_ERROR ->
        (snd (fst r) = NO_ERROR ->
         snd r = h /\ g_trampolines w' = g_trampolines w) /\
        match backend with
        | FridaGadget =>
            snd (fst r) = NO_ERROR /\
            g_hookCount w' = wrap_int32 (g_hookCount w + 1)
        | Native =>
            snd (fst r) = NO_ERROR <-> protect_ok os (S (S (S (S (clock w))))) = true
        end) w.
Proof.
  unfold hook_round_trip, Hook.Attach, Hook.Detach.
  destruct h as [a dt]. cbn [Hook.m_address Hook.m_detour].
  apply wp_bind, wp_bind. destruct backend.
  - eapply wp_mono; [|apply DetourAttach_frida_run]. cbv beta.
    intros [ca pa] w1 (Iff & _ & Ptr & Hc & G1 & T1 & _). cbn [fst snd] in *.
    apply wp_ret. cbn [fst snd Hook.m_address Hook.m_detour].
    apply wp_bind, wp_bind.
    eapply wp_mono; [|apply DetourDetach_frida_run]. cbv beta.
    intros [cd pd] w2 (Res & G2 & Hc2 & T2 & _).
    apply wp_ret, wp_ret. cbn [fst snd]. intros E.
    rewrite E in Hc. cbn in Hc. apply Iff in E. destruct E as (G & _).
    rewrite G1, G in Res. injection Res as -> ->. subst pa.
    split; [intros _; split; congruence|]. split; congruence.
  - eapply wp_mono; [|apply DetourAttach_native_run]. cbv beta.
    intros [ca tm] w1 R. cbn [fst snd] in *.
    apply wp_ret. cbn [fst snd Hook.m_address Hook.m_detour].
    apply wp_bind, wp_bind.
    eapply wp_mono; [|apply DetourDetach_native_run]. cbv beta.
    intros [cd pd] w2 (_ & _ & _ & _ & D).
    apply wp_ret, wp_ret. cbn [fst snd]. intros E.
    destruct R as [R|(C & _)]; [|cbn in C; rewrite C in E; discriminate].
    destruct R as (_ & G & Np & Nd & Mm & _ & _ & Ev).
    destruct Ev as (G1 & _ & T1 & _ & Ck & _).
    assert (F : Hooking.find_trampoline tm dt (g_trampolines w1)
                = Some (g_trampolines w, 
                        Trampoline_new a dt tm (Hooking.AlignToPage os 16), [])).
    { rewrite T1. apply find_trampoline_fresh.
      intros t' Ht'. eapply Hfresh; eauto. }
    rewrite F, G1, Ck in D.
    destruct D as [(pre & t & post & Eq & _ & Pr & Res & T2)|(Res & T2 & Why)].
    + injection Eq as <- <- <-. injection Res as -> ->. cbn [target Trampoline_new].
      split; [|tauto]. intros _. split; [reflexivity|].
      rewrite T2. apply app_nil_r.
    + injection Res as -> ->. split; [intros C; discriminate|].
      split; [intros C; discriminate|]. intros Pr.
      destruct Why as [W|[W|[W|[W|W]]]]; try congruence.
Qed.

Lemma hook_detach_undoes_attach_witness :
  wp (hook_round_trip Native os_ok (Hook.mk 0x1000 0x2000))
     (fun r w' =>
        fst (fst r) = NO_ERROR ->
        (snd (fst r) = NO_ERROR ->
         snd r = Hook.mk 0x1000 0x2000 /\ g_trampolines w' = []) /\
        (snd (fst r) = NO_ERROR <-> true = true))
     (set_inTransaction true world0).
Proof.
  apply (hook_detach_undoes_attach Native os_ok (Hook.mk 0x1000 0x2000)
           (set_inTransaction true world0)).
  - intros t tm [].
  - discriminate.
Defined.

(** ** More on transactions *)

Lemma suspend_all_result (os : OS) (ports : list (Z * bool)) :
  forall (acc : list Z) (w : World),
    wp (DetourTransaction.suspend_all os ports acc)
       (fun r w' => r = acc ++ suspendable os ports /\ clock w' = clock w) w.
Proof.
  unfold suspendable.
  induction ports as [|[port ok] rest IH]; intros acc w.
  - apply wp_ret. now rewrite app_nil_r.
  - cbn [DetourTransaction.suspend_all filter fst snd].
    destruct (negb (port =? self_thread os)); cbn [andb].
    + destruct ok.
      * eapply wp_mono; [|apply IH]. cbv beta. intros r w' [-> C].
        split; [|exact C]. cbn [map fst]. now rewrite <- app_assoc.
      * apply wp_bind, wp_log. eapply wp_mono; [|apply IH]. cbv beta.
        intros r w' [-> C]. split; [reflexivity|exact C].
    + apply IH.
Qed.

Lemma suspendable_not_self (os : OS) (ports : list (Z * bool)) :
  ~ In (self_thread os) (suspendable os ports).
Proof.
  unfold suspendable. intros H. apply in_map_iff in H.
  destruct H as ([port ok] & E & H). apply filter_In in H. destruct H as [_ H].
  cbn in *. subst port. rewrite Z.eqb_refl in H. discriminate.
Qed.

(** X9.  The constructor of [DetourTransaction] yields a valid object
    exactly when no transaction was open; either way a transaction is open
    afterwards.  The threads that a valid object holds suspended are, in
    the order of [task_threads], the ports other than the calling thread on
    which [thread_suspend] succeeded - the calling thread is never among
    them - and none at all when [task_threads] fails; an invalid object holds
    none. *)
Theorem constructor_suspends_the_others (backend : Backend) (os : OS) (w : World) :
  wp (DetourTransaction.new backend os)
     (fun tr w' =>
        DetourTransaction.IsValid tr = negb (g_inTransaction w) /\
        g_inTransaction w' = true /\
        DetourTransaction.m_threads tr =
          (if g_inTransaction w then []
           else match task_threads os (clock w) with
                | Some ports => suspendable os ports
                | None => []
                end) /\
        ~ In (self_thread os) (DetourTransaction.m_threads tr)) w.
Proof.
  unfold DetourTransaction.new.
  apply wp_bind, wp_log_quiet. intros w1 (_ & G1 & _) C1.
  apply wp_bind. eapply wp_mono; [|apply Begin_spec]. cbv beta.
  intros r w2 (_ & G2 & _ & _ & C2 & R). rewrite G1 in R.
  destruct (g_inTransaction w) eqn:G.
  - destruct R as [-> ->]. cbn.
    apply wp_bind, wp_log_quiet. intros w3 (_ & G3 & _) _. apply wp_ret.
    cbn. repeat split; auto; congruence.
  - subst r. cbn.
    apply wp_bind, wp_log_quiet. intros w3 (_ & G3 & _) C3.
    apply wp_bind. unfold DetourTransaction.QueueThreadsForUpdate.
    apply wp_bind, wp_log_quiet. intros w4 (_ & G4 & _) C4.
    apply wp_bind, wp_tick.
    assert (Ck : clock w4 = clock w) by congruence. rewrite Ck.
    destruct (task_threads os (clock w)) as [ports|].
    + apply wp_bind.
      eapply wp_mono;
        [|apply wp_conj; [apply suspend_all_result | apply suspend_all_spec]].
      cbv beta. intros ths w5 [[-> _] (_ & G5 & _)]. cbn [app]. cbn in G5.
      apply wp_bind, wp_log_quiet. intros w6 (_ & G6 & _) _. apply wp_ret, wp_ret.
      cbn. repeat split; auto.
      * congruence.
      * apply suspendable_not_self.
    + apply wp_bind, wp_log_quiet. intros w5 (_ & G5 & _) _. apply wp_ret, wp_ret.
      cbn. repeat split; auto; try (cbn in G5; congruence).
Qed.

(** X10.  A transaction that is [Invalid], [Committed] or [Aborted] can be
    neither committed nor aborted: both calls return [false], leave the
    object as it is, log a warning, and make no call into the C interface:
    the flag, the count of hooks, the trampolines, the memory, the data
    cells and the clock are as before. *)
Theorem finished_transaction_is_rejected
    (backend : Backend) (tr : DetourTransaction.t) (w : World)
    (Hdone : DetourTransaction.m_state tr <> DetourTransaction.Started /\
             DetourTransaction.m_state tr <> DetourTransaction.Failed) :
  wp (DetourTransaction.Commit backend tr)
     (fun r w' =>
        r = (false, tr) /\
        (exists msg, In (mkLog warn msg) (logs w')) /\
        g_inTransaction w' = g_inTransaction w /\ g_hookCount w' = g_hookCount w /\
        g_trampolines w' = g_trampolines w /\ mem w' = mem w /\
        cells w' = cells w /\ clock w' = clock w) w /\
  wp (DetourTransaction.Abort backend tr)
     (fun r w' =>
        r = (false, tr) /\
        (exists msg, In (mkLog warn msg) (logs w')) /\
        g_inTransaction w' = g_inTransaction w /\ g_hookCount w' = g_hookCount w /\
        g_trampolines w' = g_trampolines w /\ mem w' = mem w /\
        cells w' = cells w /\ clock w' = clock w) w.
Proof.
  destruct Hdone as [N1 N2].
  unfold DetourTransaction.Commit, DetourTransaction.Abort.
  split.
  all: apply wp_bind, wp_log;
    destruct (DetourTransaction.m_state tr) eqn:St; try congruence;
    cbn [DetourTransaction.State_eqb negb andb];
    apply wp_bind, wp_log, wp_ret; cbn;
    (split; [reflexivity|]); (split; [|repeat split; reflexivity]);
    eexists; apply in_or_app; right; left; reflexivity.
Qed.

Lemma finished_transaction_is_rejected_witness :
  wp (DetourTransaction.Commit Native
        (DetourTransaction.mk DetourTransaction.Committed []))
     (fun r w' =>
        r = (false, DetourTransaction.mk DetourTransaction.Committed []) /\
        (exists msg, In (mkLog warn msg) (logs w')) /\
        g_inTransaction w' = g_inTransaction world0 /\
        g_hookCount w' = g_hookCount world0 /\
        g_trampolines w' = g_trampolines world0 /\ mem w' = mem world0 /\
        cells w' = cells world0 /\ clock w' = clock world0) world0.
Proof.
  refine (proj1 (finished_transaction_is_rejected Native
                   (DetourTransaction.mk DetourTransaction.Committed []) world0
                   (conj _ _))); discriminate.
Defined.

(** X11.  No transaction object is ever [Failed] as long as the C interface
    is only used through [DetourTransaction] objects: after any sequence of
    constructions, commits, aborts and destructions, every object is
    [Invalid], [Started], [Committed] or [Aborted]. *)
Theorem no_object_ever_fails (backend : Backend) (os : OS)
    (ops : list Transactions.Op) (w0 : World) :
  wp (Transactions.run backend os [] ops)
     (fun objs _ =>
        forall tr, In tr objs ->
                   DetourTransaction.m_state tr <> DetourTransaction.Failed) w0.
Proof.
  eapply wp_mono; [|apply TransactionsFacts.run_spec].
  - cbv beta. intros objs w [NF _]. exact NF.
  - split; [intros tr []|left; reflexivity].
Qed.

(** ** More on the virtual table hook *)

Lemma vstate_start (w : World) : vstate w w (cells w) (clock w).
Proof. repeat split. Qed.

Section VState.

Variables (w w1 : World) (c : Z -> Z) (ck : nat).
Hypothesis E : vstate w w1 c ck.

Lemma wp_log_vs (l : Level) (s : string) (Q : unit -> World -> Prop) :
  (forall w2, vstate w w2 c ck -> Q tt w2) -> wp (log l s) Q w1.
Proof. intros H. apply wp_log, H. exact E. Qed.

Lemma wp_tick_vs (Q : nat -> World -> Prop) :
  (forall w2, vstate w w2 c (S ck) -> Q ck w2) -> wp tick Q w1.
Proof.
  intros H. apply wp_tick. destruct E as (A & B & C). rewrite B.
  apply H. repeat split; try assumption; apply C.
Qed.

Lemma wp_store_entry_vs (vtbl i v : Z) (Q : unit -> World -> Prop) :
  vtbl <> 0 ->
  (forall w2, vstate w w2 (fun a => if a =? vtbl + 8 * i then v else c a) ck ->
              Q tt w2) ->
  wp (GameStateHook.store_entry vtbl i v) Q w1.
Proof.
  intros N H. unfold GameStateHook.store_entry.
  apply Z.eqb_neq in N. rewrite N.
  apply wp_modify, H. destruct E as (A & B & C).
  repeat split; try assumption; try apply C. cbn. now rewrite A.
Qed.

Lemma wp_load_cell_vs (p : Z) (Q : Z -> World -> Prop) :
  p <> 0 -> Q (c p) w1 -> wp (load_cell p) Q w1.
Proof.
  intros N H. unfold load_cell. apply Z.eqb_neq in N. rewrite N.
  apply wp_gets. destruct E as (A & _). now rewrite A.
Qed.

Lemma wp_load_entry_vs (vtbl i : Z) (Q : Z -> World -> Prop) :
  vtbl <> 0 -> Q (c (vtbl + 8 * i)) w1 -> wp (GameStateHook.load_entry vtbl i) Q w1.
Proof.
  intros N H. unfold GameStateHook.load_entry. apply Z.eqb_neq in N. rewrite N.
  apply wp_gets. destruct E as (A & _). now rewrite A.
Qed.

End VState.

(** What [SwapVFuncs] does on a state object with a virtual table. *)
Lemma SwapVFuncs_run (os : OS) (aState e u x : Z) (w w1 : World) (c : Z -> Z) (ck : nat) :
  vstate w w1 c ck -> aState <> 0 -> c aState <> 0 ->
  wp (GameStateHook.SwapVFuncs os aState e u x)
     (fun ok w' =>
        ok = protect_ok os ck /\
        if ok then vstate w w' (swapped c (c aState) e u x) (S (S ck))
        else vstate w w' c (S ck)) w1.
Proof.
  intros E Na Nv. unfold GameStateHook.SwapVFuncs.
  apply wp_bind. apply (wp_load_cell_vs _ _ _ _ E); [exact Na|].
  apply wp_bind. apply (wp_log_vs _ _ _ _ E). intros w2 E2.
  apply wp_bind. apply (wp_tick_vs _ _ _ _ E2). intros w3 E3.
  destruct (protect_ok os ck) eqn:P; cbn [negb].
  - apply wp_bind. apply (wp_log_vs _ _ _ _ E3). intros w4 E4.
    apply wp_bind. apply (wp_log_vs _ _ _ _ E4). intros w5 E5.
    apply wp_bind. apply (wp_store_entry_vs _ _ _ _ E5); [exact Nv|]. intros w6 E6.
    apply wp_bind. apply (wp_log_vs _ _ _ _ E6). intros w7 E7.
    apply wp_bind. apply (wp_log_vs _ _ _ _ E7). intros w8 E8.
    apply wp_bind. apply (wp_store_entry_vs _ _ _ _ E8); [exact Nv|]. intros w9 E9.
    apply wp_bind. apply (wp_log_vs _ _ _ _ E9). intros w10 E10.
    apply wp_bind. apply (wp_log_vs _ _ _ _ E10). intros w11 E11.
    apply wp_bind. apply (wp_store_entry_vs _ _ _ _ E11); [exact Nv|]. intros w12 E12.
    apply wp_bind. apply (wp_log_vs _ _ _ _ E12). intros w13 E13.
    apply wp_bind. apply (wp_log_vs _ _ _ _ E13). intros w14 E14.
    apply wp_bind. apply (wp_tick_vs _ _ _ _ E14). intros w15 E15.
    apply wp_bind.
    destruct (negb (protect_ok os (S ck)));
      apply (wp_log_vs _ _ _ _ E15); intros w16 E16; apply wp_ret;
      (split; [reflexivity | exact E16]).
  - apply wp_bind. apply (wp_log_vs _ _ _ _ E3). intros w4 E4.
    apply wp_bind. apply (wp_log_vs _ _ _ _ E4). intros w5 E5.
    apply wp_ret. split; [reflexivity | exact E5].
Qed.

(** What [AttachAt] does on a state object with a virtual table. *)
Lemma AttachAt_run (os : OS) (h : t) (aState : Z) (w w1 : World) (c : Z -> Z) (ck : nat) :
  vstate w w1 c ck -> aState <> 0 -> c aState <> 0 ->
  wp (AttachAt os h aState)
     (fun r w' =>
        fst r = protect_ok os ck /\
        snd r = mk (m_isAttached h)
                   (set_orig (c (c aState + 8 * 3)) (m_onEnter h))
                   (set_orig (c (c aState + 8 * 4)) (m_onUpdate h))
                   (set_orig (c (c aState + 8 * 5)) (m_onExit h)) /\
        if fst r
        then vstate w w'
               (swapped c (c aState) (detour (m_onEnter h)) (detour (m_onUpdate h))
                        (detour (m_onExit h))) (S (S ck))
        else vstate w w' c (S ck)) w1.
Proof.
  intros E Na Nv. unfold AttachAt.
  apply wp_bind. apply (wp_load_cell_vs _ _ _ _ E); [exact Na|].
  apply wp_bind. apply (wp_log_vs _ _ _ _ E). intros w2 E2.
  apply wp_bind. apply (wp_load_entry_vs _ _ _ _ E2); [exact Nv|].
  apply wp_bind. apply (wp_load_entry_vs _ _ _ _ E2); [exact Nv|].
  apply wp_bind. apply (wp_load_entry_vs _ _ _ _ E2); [exact Nv|].
  apply wp_bind. eapply wp_mono; [|apply (SwapVFuncs_run _ _ _ _ _ _ _ _ _ E2 Na Nv)].
  cbv beta. intros ok w3 [-> R]. cbn [m_onEnter m_onUpdate m_onExit set_orig detour] in *.
  destruct (protect_ok os ck).
  - apply wp_bind. apply (wp_log_vs _ _ _ _ R). intros w4 E4. apply wp_ret.
    cbn [fst snd]. repeat split; apply E4.
  - apply wp_ret. cbn [fst snd]. repeat split; apply R.
Qed.

(** What [DetachAt] does on a state object with a virtual table. *)
Lemma DetachAt_run (os : OS) (h : t) (aState : Z) (w w1 : World) (c : Z -> Z) (ck : nat) :
  vstate w w1 c ck -> aState <> 0 -> c aState <> 0 ->
  wp (DetachAt os h aState)
     (fun r w' =>
        fst r = protect_ok os ck /\ snd r = h /\
        if fst r
        then vstate w w'
               (swapped c (c aState) (orig (m_onEnter h)) (orig (m_onUpdate h))
                        (orig (m_onExit h))) (S (S ck))
        else vstate w w' c (S ck)) w1.
Proof.
  intros E Na Nv. unfold DetachAt.
  apply wp_bind. apply (wp_load_cell_vs _ _ _ _ E); [exact Na|].
  apply wp_bind. apply (wp_log_vs _ _ _ _ E). intros w2 E2.
  apply wp_bind. eapply wp_mono; [|apply (SwapVFuncs_run _ _ _ _ _ _ _ _ _ E2 Na Nv)].
  cbv beta. intros ok w3 [-> R].
  destruct (protect_ok os ck).
  - apply wp_bind. apply (wp_log_vs _ _ _ _ R). intros w4 E4. apply wp_ret.
    cbn [fst snd]. repeat split; apply E4.
  - apply wp_ret. cbn [fst snd]. repeat split; apply R.
Qed.

Lemma swapped_entries (c : Z -> Z) (v e u x : Z) :
  swapped c v e u x (v + 8 * 3) = e /\
  swapped c v e u x (v + 8 * 4) = u /\
  swapped c v e u x (v + 8 * 5) = x.
Proof.
  unfold swapped. repeat split.
  - replace (v + 8 * 3 =? v + 8 * 5) with false by (symmetry; apply Z.eqb_neq; lia).
    replace (v + 8 * 3 =? v + 8 * 4) with false by (symmetry; apply Z.eqb_neq; lia).
    now rewrite Z.eqb_refl.
  - replace (v + 8 * 4 =? v + 8 * 5) with false by (symmetry; apply Z.eqb_neq; lia).
    now rewrite Z.eqb_refl.
  - now rewrite Z.eqb_refl.
Qed.

Lemma swapped_elsewhere (c : Z -> Z) (v e u x p : Z) :
  p <> v + 8 * 3 -> p <> v + 8 * 4 -> p <> v + 8 * 5 ->
  swapped c v e u x p = c p.
Proof.
  intros N3 N4 N5. unfold swapped.
  apply Z.eqb_neq in N3, N4, N5. now rewrite N3, N4, N5.
Qed.

Lemma swapped_back (c : Z -> Z) (v e u x p : Z) :
  swapped (swapped c v e u x) v (c (v + 8 * 3)) (c (v + 8 * 4)) (c (v + 8 * 5)) p
  = c p.
Proof.
  unfold swapped.
  destruct (p =? v + 8 * 5) eqn:E5; [apply Z.eqb_eq in E5; now subst p|].
  destruct (p =? v + 8 * 4) eqn:E4; [apply Z.eqb_eq in E4; now subst p|].
  destruct (p =? v + 8 * 3) eqn:E3; [apply Z.eqb_eq in E3; now subst p|].
  reflexivity.
Qed.

(** X12.  [AttachAt] on a state object with a virtual table succeeds
    exactly when the protection of the table can be changed.  Whether it
    succeeds or not, the hook object has captured the three entries 3, 4 and
    5 of the table as its originals and kept its detours and its flags.  On
    success the three entries hold the three detours and every other data
    cell is as before; on failure no data cell has changed.  The memory is
    untouched. *)
Theorem AttachAt_redirects_three_slots (os : OS) (h : t) (aState : Z) (w : World)
    (Hstate : aState <> 0) (Htable : cells w aState <> 0) :
  wp (AttachAt os h aState)
     (fun r w' =>
        let vtbl := cells w aState in
        fst r = protect_ok os (clock w) /\
        (forall s, orig (get_slot s (snd r)) = cells w (vtbl + 8 * slot_index s) /\
                   detour (get_slot s (snd r)) = detour (get_slot s h) /\
                   shouldExecute (get_slot s (snd r)) = shouldExecute (get_slot s h)) /\
        mem w' = mem w /\
        if fst r
        then (forall s, cells w' (vtbl + 8 * slot_index s) = detour (get_slot s h)) /\
             (forall p, (forall s, p <> vtbl + 8 * slot_index s) ->
                        cells w' p = cells w p)
        else cells w' = cells w) w.
Proof.
  eapply wp_mono; [|apply (AttachAt_run os h aState w w _ _ (vstate_start w) Hstate Htable)].
  cbv beta zeta. intros [ok h'] w' (R & -> & V). cbn [fst snd] in *.
  split; [exact R|]. split; [intros []; cbn; auto|].
  destruct ok; destruct V as (C & _ & M & _); (split; [exact M|]); [|exact C].
  rewrite C. split.
  - intros []; cbn [slot_index get_slot]; apply swapped_entries.
  - intros p Hp. apply swapped_elsewhere.
    + apply (Hp Enter). + apply (Hp Update). + apply (Hp Exit).
Qed.

Lemma AttachAt_redirects_three_slots_witness :
  wp (AttachAt os_ok (new 0x11 0x12 0x13) 0x100)
     (fun r w' =>
        let vtbl := cells world_game 0x100 in
        fst r = protect_ok os_ok (clock world_game) /\
        (forall s, orig (get_slot s (snd r)) = cells world_game (vtbl + 8 * slot_index s) /\
                   detour (get_slot s (snd r)) = detour (get_slot s (new 0x11 0x12 0x13)) /\
                   shouldExecute (get_slot s (snd r))
                   = shouldExecute (get_slot s (new 0x11 0x12 0x13))) /\
        mem w' = mem world_game /\
        if fst r
        then (forall s, cells w' (vtbl + 8 * slot_index s)
                        = detour (get_slot s (new 0x11 0x12 0x13))) /\
             (forall p, (forall s, p <> vtbl + 8 * slot_index s) ->
                        cells w' p = cells world_game p)
        else cells w' = cells world_game) world_game.
Proof.
  apply (AttachAt_redirects_three_slots os_ok (new 0x11 0x12 0x13) 0x100 world_game);
    cbn; discriminate.
Defined.

(** X13.  [DetachAt] undoes [AttachAt].  On a state object with a virtual
    table, whose own pointer cell is not one of the three entries, an
    [AttachAt] followed by a [DetachAt] that succeeds leaves every data cell,
    the three entries of the table among them, as it was before the attach -
    also when the attach itself had failed.  The detach succeeds exactly
    when its own change of protection does. *)
Theorem DetachAt_restores_the_table (os : OS) (h : t) (aState : Z) (w : World)
    (Hstate : aState <> 0) (Htable : cells w aState <> 0)
    (Hobject : forall s, aState <> cells w aState + 8 * slot_index s) :
  wp (vtable_round_trip os h aState)
     (fun r w' =>
        fst (fst r) = protect_ok os (clock w) /\
        snd (fst r) =
          protect_ok os (if fst (fst r) then S (S (clock w)) else S (clock w)) /\
        (snd (fst r) = true -> forall p, cells w' p = cells w p) /\
        (snd (fst r) = false -> fst (fst r) = true ->
         forall s, cells w' (cells w aState + 8 * slot_index s)
                   = detour (get_slot s h))) w.
Proof.
  unfold vtable_round_trip. apply wp_bind.
  eapply wp_mono; [|apply (AttachAt_run os h aState w w _ _ (vstate_start w) Hstate Htable)].
  cbv beta. intros [ok1 h1] w1 (R1 & -> & V1). cbn [fst snd] in *.
  set (v := cells w aState) in *.
  assert (A : swapped (cells w) v (detour (m_onEnter h)) (detour (m_onUpdate h))
                      (detour (m_onExit h)) aState = v).
  { apply swapped_elsewhere.
    - apply (Hobject Enter). - apply (Hobject Update). - apply (Hobject Exit). }
  apply wp_bind. destruct ok1.
  - eapply wp_mono; [|apply (DetachAt_run os _ aState w w1 _ _ V1 Hstate)].
    2: { rewrite A. exact Htable. }
    cbv beta. intros [ok2 h2] w2 (R2 & -> & V2). cbn [fst snd] in *.
    apply wp_ret. cbn [fst snd]. rewrite A in V2.
    cbn [m_onEnter m_onUpdate m_onExit orig set_orig] in V2.
    split; [exact R1|]. split; [exact R2|]. split.
    + intros ->. destruct V2 as (C & _). rewrite C. intros p. apply swapped_back.
    + intros -> _. destruct V2 as (C & _). rewrite C.
      intros []; cbn [slot_index get_slot]; apply swapped_entries.
  - eapply wp_mono; [|apply (DetachAt_run os _ aState w w1 _ _ V1 Hstate Htable)].
    cbv beta. intros [ok2 h2] w2 (R2 & -> & V2). cbn [fst snd] in *.
    apply wp_ret. cbn [fst snd].
    cbn [m_onEnter m_onUpdate m_onExit orig set_orig] in V2.
    split; [exact R1|]. split; [exact R2|]. split; [|intros _ C; discriminate].
    intros ->. destruct V2 as (C & _). rewrite C. intros p. fold v.
    unfold swapped.
    destruct (p =? v + 8 * 5) eqn:E5; [apply Z.eqb_eq in E5; now subst p|].
    destruct (p =? v + 8 * 4) eqn:E4; [apply Z.eqb_eq in E4; now subst p|].
    destruct (p =? v + 8 * 3) eqn:E3; [apply Z.eqb_eq in E3; now subst p|].
    reflexivity.
Qed.

Lemma DetachAt_restores_the_table_witness :
  wp (vtable_round_trip os_ok (new 0x11 0x12 0x13) 0x100)
     (fun r w' =>
        fst (fst r) = protect_ok os_ok (clock world_game) /\
        snd (fst r) =
          protect_ok os_ok
            (if fst (fst r) then S (S (clock world_game)) else S (clock world_game)) /\
        (snd (fst r) = true -> forall p, cells w' p = cells world_game p) /\
        (snd (fst r) = false -> fst (fst r) = true ->
         forall s, cells w' (cells world_game 0x100 + 8 * slot_index s)
                   = detour (get_slot s (new 0x11 0x12 0x13)))) world_game.
Proof.
  apply (DetachAt_restores_the_table os_ok (new 0x11 0x12 0x13) 0x100 world_game).
  - discriminate.
  - cbn. discriminate.
  - intros []; cbn; discriminate.
Defined.

(** X14.  [AttachAt] reads its originals from the table as it finds it.
    When it is called a second time on a state object whose table is still
    hooked (no [DetachAt] in between, both calls succeeding; the pointer
    cell of the object is not one of the three entries of its table), the
    originals that the hook object holds afterwards are its own three
    detours: the first originals are lost. *)
Theorem second_attach_captures_the_detours (os : OS) (h : t) (aState : Z) (w : World)
    (Hstate : aState <> 0) (Htable : cells w aState <> 0)
    (Hobject : forall s, aState <> cells w aState + 8 * slot_index s) :
  wp (vtable_attach_twice os h aState)
     (fun r _ =>
        fst (fst r) = true -> snd (fst r) = true ->
        forall s, orig (get_slot s (snd r)) = detour (get_slot s h)) w.
Proof.
  unfold vtable_attach_twice. apply wp_bind.
  eapply wp_mono; [|apply (AttachAt_run os h aState w w _ _ (vstate_start w) Hstate Htable)].
  cbv beta. intros [ok1 h1] w1 (R1 & -> & V1). cbn [fst snd] in *.
  set (v := cells w aState) in *.
  assert (A : swapped (cells w) v (detour (m_onEnter h)) (detour (m_onUpdate h))
                      (detour (m_onExit h)) aState = v).
  { apply swapped_elsewhere.
    - apply (Hobject Enter). - apply (Hobject Update). - apply (Hobject Exit). }
  apply wp_bind. destruct ok1.
  - eapply wp_mono; [|apply (AttachAt_run os _ aState w w1 _ _ V1 Hstate)].
    2: { rewrite A. exact Htable. }
    cbv beta. intros [ok2 h2] w2 (R2 & -> & V2). cbn [fst snd] in *.
    apply wp_ret. cbn [fst snd]. intros _ _. rewrite A.
    intros []; cbn [get_slot m_onEnter m_onUpdate m_onExit orig set_orig];
      apply swapped_entries.
  - eapply wp_mono; [|apply (AttachAt_run os _ aState w w1 _ _ V1 Hstate Htable)].
    cbv beta. intros r2 w2 _. apply wp_ret. cbn [fst snd]. intros C. discriminate.
Qed.

Lemma second_attach_captures_the_detours_witness :
  wp (vtable_attach_twice os_ok (new 0x11 0x12 0x13) 0x100)
     (fun r _ =>
        fst (fst r) = true -> snd (fst r) = true ->
        forall s, orig (get_slot s (snd r)) = detour (get_slot s (new 0x11 0x12 0x13)))
     world_game.
Proof.
  apply (second_attach_captures_the_detours os_ok (new 0x11 0x12 0x13) 0x100 world_game).
  - discriminate.
  - cbn. discriminate.
  - intros []; cbn; discriminate.
Defined.

(** ** More on the hook registry *)

Lemma has_match_of_may_match (c : Z -> Z) (aPlugin aTarget : Z) (l : HookingSystem.Map_t) :
  existsb (may_match aPlugin aTarget) l = false ->
  has_match c aPlugin aTarget l = false.
Proof.
  unfold has_match. induction l as [|[plugin item] rest IH]; cbn; [reflexivity|].
  intros H. apply orb_false_elim in H. destruct H as [H1 H2].
  rewrite (IH H2), orb_false_r.
  unfold may_match, matches_in in *. cbn [fst snd] in *.
  destruct (plugin =? aPlugin); [|reflexivity]. cbn [andb] in *.
  apply orb_false_elim in H1. destruct H1 as [-> H1].
  destruct (HookingSystem.symbol item); [discriminate|reflexivity].
Qed.

Lemma detach_queue_skip_prefix
    (backend : Backend) (os : OS) (aPlugin aTarget : Z) (l1 l2 : HookingSystem.Map_t) :
  forall (count : nat) (hasHook : bool) (w : World),
    has_match (cells w) aPlugin aTarget l1 = false ->
    HookingSystem.detach_queue backend os aPlugin aTarget (l1 ++ l2) count hasHook w
    = bind (HookingSystem.detach_queue backend os aPlugin aTarget l2 count hasHook)
           (fun r => ret (l1 ++ fst r, snd r)) w.
Proof.
  induction l1 as [|[plugin item] rest IH]; intros count hasHook w H.
  - cbn [app]. unfold bind, ret.
    destruct (HookingSystem.detach_queue backend os aPlugin aTarget l2 count hasHook w)
      as [[[l r] w']|]; reflexivity.
  - cbn in H. apply orb_false_elim in H. destruct H as [H1 H2].
    cbn [app HookingSystem.detach_queue].
    destruct (plugin =? aPlugin); cbn [andb] in H1.
    + unfold bind at 1. rewrite matches_run, H1.
      unfold bind at 1. rewrite (IH count hasHook w H2). unfold bind, ret.
      destruct (HookingSystem.detach_queue backend os aPlugin aTarget l2 count hasHook w)
        as [[[l r] w']|]; reflexivity.
    + unfold bind at 1. rewrite (IH count hasHook w H2). unfold bind, ret.
      destruct (HookingSystem.detach_queue backend os aPlugin aTarget l2 count hasHook w)
        as [[[l r] w']|]; reflexivity.
Qed.

Lemma detach_erase_skip_prefix
    (backend : Backend) (os : OS) (aPlugin aTarget : Z) (l1 l2 : HookingSystem.Map_t) :
  forall (w : World),
    has_match (cells w) aPlugin aTarget l1 = false ->
    HookingSystem.detach_erase aPlugin aTarget (l1 ++ l2) w
    = bind (HookingSystem.detach_erase aPlugin aTarget l2)
           (fun r => ret (l1 ++ r)) w.
Proof.
  induction l1 as [|[plugin item] rest IH]; intros w H.
  - cbn [app]. unfold bind, ret.
    destruct (HookingSystem.detach_erase aPlugin aTarget l2 w) as [[l w']|]; reflexivity.
  - cbn in H. apply orb_false_elim in H. destruct H as [H1 H2].
    cbn [app HookingSystem.detach_erase].
    destruct (plugin =? aPlugin); cbn [andb] in H1.
    + unfold bind at 1. rewrite matches_run, H1.
      unfold bind at 1. rewrite (IH w H2). unfold bind, ret.
      destruct (HookingSystem.detach_erase aPlugin aTarget l2 w) as [[l w']|];
        reflexivity.
    + unfold bind at 1. rewrite (IH w H2). unfold bind, ret.
      destruct (HookingSystem.detach_erase aPlugin aTarget l2 w) as [[l w']|];
        reflexivity.
Qed.

(** A successful [Attach] by address ran in a transaction of its own, which
    it has committed. *)
Lemma Attach_true_closes
    (backend : Backend) (os : OS) (m_hooks : HookingSystem.Map_t)
    (aPlugin aTarget aDetour aOriginal : Z) (w : World) :
  wp (HookingSystem.Attach backend os m_hooks aPlugin aTarget aDetour aOriginal)
     (fun r w' => fst r = true -> g_inTransaction w' = false) w.
Proof.
  unfold HookingSystem.Attach.
  apply wp_bind, wp_log. apply wp_bind.
  eapply wp_mono; [|apply new_spec]. cbv beta. intros tr w2 _.
  apply wp_bind. eapply wp_mono; [|apply Hook_Attach_spec]. cbv beta.
  intros [code h] w3 _. cbn [fst snd].
  destruct (negb (code =? NO_ERROR)).
  - apply wp_bind, wp_log. apply wp_bind.
    eapply wp_mono; [|apply delete_spec]. cbv beta. intros tr' w5 _.
    apply wp_ret. cbn. discriminate.
  - apply wp_bind. eapply wp_mono; [|apply Commit_obj_spec]. cbv beta.
    intros [ok tr'] w4 (_ & _ & _ & R). cbn [fst snd].
    destruct ok.
    + assert (G : g_inTransaction w4 = false /\ tr' = DetourTransaction.mk Committed []).
      { destruct (DetourTransaction.m_state tr);
          try (destruct R as [R _]; discriminate).
        - destruct R as [G R]. split; [exact G|].
          destruct (g_inTransaction w3); congruence.
        - destruct R as [G R]. split; [exact G|].
          destruct (g_inTransaction w3); congruence. }
      destruct G as [G ->].
      apply wp_bind.
      assert (K : forall w5, g_inTransaction w5 = false ->
                   wp (log trace "The hook requested by '{}' at {} has been successfully attached" ;;;
                       _ <- DetourTransaction.delete backend
                              (DetourTransaction.mk Committed []) ;;
                       ret (true, m_hooks ++
                              [(aPlugin,
                                HookingSystem.set_hook h
                                  (HookingSystem.Item_of_target aTarget aDetour aOriginal))]))
                      (fun r w' => fst r = true -> g_inTransaction w' = false) w5).
      { intros w5 G5. apply wp_bind, wp_log. apply wp_bind.
        eapply wp_mono; [|apply delete_spec]. cbv beta. cbn [DetourTransaction.m_state].
        intros tr'' w6 (_ & _ & ->). apply wp_ret. intros _. exact G5. }
      destruct (negb (aOriginal =? 0)) eqn:O.
      * unfold store_cell. apply negb_true_iff in O. rewrite O.
        apply wp_modify. apply K. exact G.
      * apply wp_ret. apply K. exact G.
    + apply wp_bind, wp_log. apply wp_bind.
      eapply wp_mono; [|apply delete_spec]. cbv beta. intros tr'' w6 _.
      apply wp_ret. cbn. discriminate.
Qed.

Lemma wp_bind_eq {A B : Type} (m m' : M A) (k : A -> M B)
    (Q : B -> World -> Prop) (w : World) :
  m w = m' w -> wp m' (fun a w' => wp (k a) Q w') w -> wp (bind m k) Q w.
Proof.
  intros E H. apply wp_bind. unfold wp in *. now rewrite E.
Qed.

Lemma wp_matches (item : HookingSystem.Item) (aTarget : Z)
    (Q : bool -> World -> Prop) (w : World) :
  Q (matches_in (cells w) item aTarget) w ->
  wp (HookingSystem.matches item aTarget) Q w.
Proof. intros H. unfold wp. now rewrite matches_run. Qed.

(** In the Frida Gadget build, inside a transaction, a record by address is
    always queued for detaching, and the record is not changed. *)
Lemma QueueForDetach_frida
    (os : OS) (aPlugin : Z) (aItem : HookingSystem.Item) (w : World) :
  HookingSystem.symbol aItem = None -> g_inTransaction w = true ->
  wp (HookingSystem.QueueForDetach FridaGadget os aPlugin aItem)
     (fun r w' => r = (true, aItem) /\ steady w w') w.
Proof.
  intros Sy G. unfold HookingSystem.QueueForDetach. rewrite Sy.
  apply wp_bind, wp_log_steady. intros w1 S1.
  apply wp_bind. unfold Hook.Detach. apply wp_bind.
  eapply wp_mono;
    [|apply wp_conj; [apply DetourDetach_frida_run | apply DetourDetach_spec]].
  cbv beta. intros r w2 [(R & G2 & H2 & T2 & _) (Q2 & _)].
  assert (G1 : g_inTransaction w1 = true) by (destruct S1 as (_ & -> & _); exact G).
  rewrite G1 in R. subst r. apply wp_ret. cbn [fst snd].
  change (negb (NO_ERROR =? NO_ERROR)) with false. cbv iota.
  apply wp_bind, wp_log_steady. intros w3 S3. apply wp_ret. split.
  - destruct aItem as [tg sy og [ad dt]]. reflexivity.
  - eapply steady_trans; [exact S1|]. eapply steady_trans; [|exact S3].
    split; [exact Q2|]. auto.
Qed.

(** The detach of the record that the same plugin attached last, in the
    Frida Gadget build. *)
Lemma Detach_last_record_frida
    (os : OS) (m_hooks : HookingSystem.Map_t)
    (aPlugin aTarget aDetour aOriginal address : Z) (w : World) :
  existsb (may_match aPlugin aTarget) m_hooks = false ->
  g_inTransaction w = false ->
  wp (HookingSystem.Detach FridaGadget os
        (m_hooks ++ [(aPlugin, HookingSystem.mkItem aTarget None aOriginal
                                 (Hook.mk address aDetour))]) aPlugin aTarget)
     (fun r w' =>
        r = (true, m_hooks) /\ g_inTransaction w' = false /\
        (aOriginal <> 0 -> cells w' aOriginal = 0) /\
        (forall p, p <> aOriginal -> cells w' p = cells w p)) w.
Proof.
  intros NM G. unfold HookingSystem.Detach.
  set (item := HookingSystem.mkItem aTarget None aOriginal (Hook.mk address aDetour)).
  apply wp_bind, wp_log_steady. intros w1 ((_ & C1 & _) & G1 & _).
  apply wp_bind. eapply wp_mono; [|apply new_spec]. cbv beta.
  intros tr w2 ((_ & C2 & _) & G2 & _ & _ & St).
  rewrite G1, G in St.
  eapply wp_bind_eq.
  { apply detach_queue_skip_prefix. apply has_match_of_may_match, NM. }
  apply wp_bind. cbn [HookingSystem.detach_queue]. rewrite Z.eqb_refl.
  apply wp_bind, wp_matches.
  assert (Mt : forall c, matches_in c item aTarget = true).
  { intros c. unfold matches_in. cbn. now rewrite Z.eqb_refl. }
  rewrite Mt.
  apply wp_bind. eapply wp_mono; [|apply QueueForDetach_frida; [reflexivity|exact G2]].
  cbv beta. intros r w3 [-> ((_ & C3 & _) & G3 & _)]. cbn [fst snd].
  apply wp_bind, wp_ret, wp_ret, wp_ret. cbn [fst snd negb Nat.eqb].
  apply wp_bind. eapply wp_mono; [|apply Commit_obj_spec]. cbv beta.
  rewrite St, G3, G2. intros c w4 ((_ & C4 & _) & _ & _ & G4 & ->). cbn [fst snd].
  apply wp_bind, wp_log_steady. intros w5 ((_ & C5 & _) & G5 & _).
  eapply wp_bind_eq.
  { apply detach_erase_skip_prefix; [exact FridaGadget | exact os |].
    apply has_match_of_may_match, NM. }
  apply wp_bind. cbn [HookingSystem.detach_erase]. rewrite Z.eqb_refl.
  apply wp_bind, wp_matches. rewrite Mt.
  assert (Cw : cells w5 = cells w) by congruence.
  assert (K : forall w6,
             g_inTransaction w6 = false ->
             (aOriginal <> 0 -> cells w6 aOriginal = 0) ->
             (forall p, p <> aOriginal -> cells w6 p = cells w p) ->
             wp (HookingSystem.detach_erase aPlugin aTarget [])
                (fun a w' =>
                   wp (ret (m_hooks ++ a))
                      (fun a0 w'0 =>
                         wp (_ <- DetourTransaction.delete FridaGadget
                                    (snd (true, DetourTransaction.mk Committed [])) ;;
                             ret ((0 <? 1)%nat, a0))
                            (fun r w'' =>
                               r = (true, m_hooks) /\ g_inTransaction w'' = false /\
                               (aOriginal <> 0 -> cells w'' aOriginal = 0) /\
                               (forall p, p <> aOriginal -> cells w'' p = cells w p))
                            w'0) w') w6).
  { intros w6 G6 Z6 O6. apply wp_ret, wp_ret. rewrite app_nil_r.
    apply wp_bind. eapply wp_mono; [|apply delete_spec]. cbv beta.
    cbn [snd DetourTransaction.m_state]. intros tr' w7 (_ & _ & ->).
    apply wp_ret. auto. }
  cbn [HookingSystem.original item].
  destruct (aOriginal =? 0) eqn:O; cbn [negb].
  - apply Z.eqb_eq in O. apply wp_bind, wp_ret. apply K.
    + congruence.
    + intros N. contradiction.
    + intros p _. now rewrite Cw.
  - apply Z.eqb_neq in O. apply wp_bind, wp_store_cell; [exact O|]. apply K.
    + cbn. congruence.
    + intros _. cbn. now rewrite Z.eqb_refl.
    + intros p Np. cbn. apply Z.eqb_neq in Np. rewrite Np. now rewrite Cw.
Qed.

(** X16.  Attach, detach, detach again, in the Frida Gadget build.  A plugin
    that has no record at the target and no record by symbol attaches a
    hook by address; if the attach succeeds, the first [Detach] at that
    target returns [true], removes exactly that record - the hook map is
    the one from before the attach - and clears the caller's original slot
    to null; the second [Detach] returns [false], logs the warning that no
    hooks were found, and leaves the map as it is.  None of the three calls
    faults. *)
Theorem attach_detach_detach (os : OS) (m_hooks : HookingSystem.Map_t)
    (aPlugin aTarget aDetour aOriginal : Z) (w : World)
    (Hnew : existsb (may_match aPlugin aTarget) m_hooks = false) :
  wp (attach_detach_twice FridaGadget os m_hooks aPlugin aTarget aDetour aOriginal)
     (fun r w' =>
        fst (fst (fst r)) = true ->
        snd (fst (fst r)) = true /\ snd (fst r) = false /\ snd r = m_hooks /\
        (aOriginal <> 0 -> cells w' aOriginal = 0) /\
        In no_hooks_found (logs w')) w.
Proof.
  unfold attach_detach_twice. apply wp_bind.
  eapply wp_mono;
    [|apply wp_conj; [apply HookingSystem_Attach_spec | apply Attach_true_closes]].
  cbv beta. intros [ok hooks1] w1 [[_ A] G1]. cbn [fst snd] in *.
  destruct ok.
  - destruct A as (address & -> & _). specialize (G1 eq_refl).
    apply wp_bind.
    eapply wp_mono; [|apply (Detach_last_record_frida os m_hooks aPlugin aTarget
                               aDetour aOriginal address w1 Hnew G1)].
    cbv beta. intros r1 w2 (-> & G2 & Z2 & _). cbn [fst snd].
    apply wp_bind.
    eapply wp_mono; [|apply Detach_no_match; apply has_match_of_may_match, Hnew].
    cbv beta. intros r2 w3 (-> & L & C3 & _). apply wp_ret. cbn [fst snd].
    intros _. repeat split; auto. intros N. rewrite C3. auto.
  - (* the attach failed: nothing is promised, but the two detaches run *)
    destruct A as [_ ->].
    destruct (has_match (cells w1) aPlugin aTarget m_hooks) eqn:H.
    + rewrite has_match_of_may_match in H by exact Hnew. discriminate.
    + apply wp_bind. eapply wp_mono; [|apply Detach_no_match; exact H].
      cbv beta. intros r1 w2 (-> & _ & C2 & _). cbn [fst snd].
      apply wp_bind.
      eapply wp_mono; [|apply Detach_no_match; apply has_match_of_may_match, Hnew].
      cbv beta. intros r2 w3 _. apply wp_ret. cbn [fst snd]. discriminate.
Qed.

Lemma attach_detach_detach_witness :
  wp (attach_detach_twice FridaGadget os_ok [] 1 0x1000 0x2000 0x5000)
     (fun r w' =>
        fst (fst (fst r)) = true ->
        snd (fst (fst r)) = true /\ snd (fst r) = false /\ snd r = [] /\
        (0x5000 <> 0 -> cells w' 0x5000 = 0) /\
        In no_hooks_found (logs w')) world0.
Proof.
  apply (attach_detach_detach os_ok [] 1 0x1000 0x2000 0x5000 world0).
  reflexivity.
Defined.

(** The scenario at work: the attach succeeds, the first detach returns
    [true], the second [false], and the map is empty again. *)
Example attach_detach_detach_example :
  observe (attach_detach_twice FridaGadget os_ok [] 1 0x1000 0x2000 0x5000)
          (fun r w => (r, cells w 0x5000)) world0
  = Some ((true, true, false, []), 0).
Proof. reflexivity. Qed.

Lemma wlp_mono {A : Type} (m : M A) (Q Q' : A -> World -> Prop) (w : World) :
  (forall a w', Q a w' -> Q' a w') -> wlp m Q w -> wlp m Q' w.
Proof.
  unfold wlp. intros H. destruct (m w) as [[a w']|]; auto.
Qed.

Lemma wlp_ret {A : Type} (a : A) (Q : A -> World -> Prop) (w : World) :
  Q a w -> wlp (ret a) Q w.
Proof. intro H; exact H. Qed.

Lemma detach_queue_others
    (backend : Backend) (os : OS) (aPlugin aTarget : Z) (l : HookingSystem.Map_t) :
  forall (count : nat) (hasHook : bool) (w : World),
    wlp (HookingSystem.detach_queue backend os aPlugin aTarget l count hasHook)
        (fun r _ => others aPlugin (fst r) = others aPlugin l) w.
Proof.
  induction l as [|[plugin item] rest IH]; intros count hasHook w.
  - apply wlp_ret. reflexivity.
  - cbn [HookingSystem.detach_queue]. unfold others in *. cbn [filter fst].
    destruct (plugin =? aPlugin) eqn:P; cbn [negb].
    + apply wlp_bind, wlp_any. intros m w1. destruct m.
      * apply wlp_bind, wlp_any. intros r w2.
        apply wlp_bind. eapply wlp_mono; [|apply IH]. cbv beta.
        intros r' w3 H. apply wlp_ret. cbn [fst filter]. now rewrite P.
      * apply wlp_bind. eapply wlp_mono; [|apply IH]. cbv beta.
        intros r' w3 H. apply wlp_ret. cbn [fst filter]. now rewrite P.
    + apply wlp_bind. eapply wlp_mono; [|apply IH]. cbv beta.
      intros r' w3 H. apply wlp_ret. cbn [fst filter]. rewrite P. cbn [negb].
      now rewrite H.
Qed.

Lemma detach_erase_others (aPlugin aTarget : Z) (l : HookingSystem.Map_t) :
  forall (w : World),
    wlp (HookingSystem.detach_erase aPlugin aTarget l)
        (fun r _ => others aPlugin r = others aPlugin l) w.
Proof.
  induction l as [|[plugin item] rest IH]; intros w.
  - apply wlp_ret. reflexivity.
  - cbn [HookingSystem.detach_erase]. unfold others in *. cbn [filter fst].
    destruct (plugin =? aPlugin) eqn:P; cbn [negb].
    + apply wlp_bind, wlp_any. intros m w1. destruct m.
      * apply wlp_bind, wlp_any. intros _ w2. apply IH.
      * apply wlp_bind. eapply wlp_mono; [|apply IH]. cbv beta.
        intros r' w3 H. apply wlp_ret. cbn [fst filter]. now rewrite P.
    + apply wlp_bind. eapply wlp_mono; [|apply IH]. cbv beta.
      intros r' w3 H. apply wlp_ret. cbn [fst filter]. rewrite P. cbn [negb].
      now rewrite H.
Qed.

(** X17.  [Detach] only ever touches the records of the plugin it is called
    for.  Whatever it returns, in both builds and whatever the system calls
    report, the records of every other plugin are in the hook map
    afterwards, unchanged and in the same order. *)
Theorem Detach_keeps_the_other_plugins
    (backend : Backend) (os : OS) (m_hooks : HookingSystem.Map_t)
    (aPlugin aTarget : Z) (w : World) (r : bool * HookingSystem.Map_t) (w' : World)
    (Hrun : HookingSystem.Detach backend os m_hooks aPlugin aTarget w = Some (r, w')) :
  others aPlugin (snd r) = others aPlugin m_hooks.
Proof.
  revert r w' Hrun. apply wlp_run. unfold HookingSystem.Detach.
  apply wlp_bind, wlp_any. intros _ w1.
  apply wlp_bind, wlp_any. intros tr w2.
  apply wlp_bind. eapply wlp_mono; [|apply detach_queue_others]. cbv beta.
  intros [l [count hasHook]] w3 H. cbn [fst snd] in *.
  destruct (negb hasHook).
  { apply wlp_bind, wlp_any. intros _ w4. apply wlp_bind, wlp_any. intros _ w5.
    apply wlp_ret. exact H. }
  destruct (count =? 0)%nat.
  { apply wlp_bind, wlp_any. intros _ w4. apply wlp_bind, wlp_any. intros _ w5.
    apply wlp_ret. exact H. }
  apply wlp_bind, wlp_any. intros c w4. destruct (fst c).
  - apply wlp_bind, wlp_any. intros _ w5.
    apply wlp_bind. eapply wlp_mono; [|apply detach_erase_others]. cbv beta.
    intros l' w6 H'. apply wlp_bind, wlp_any. intros _ w7.
    apply wlp_ret. cbn [snd]. congruence.
  - apply wlp_bind, wlp_any. intros _ w5. apply wlp_ret. exact H.
Qed.

Lemma Detach_keeps_the_other_plugins_witness :
  others 1 (snd (false, [(2, HookingSystem.Item_of_target 0x1000 0x2000 0)]))
  = others 1 [(2, HookingSystem.Item_of_target 0x1000 0x2000 0)].
Proof.
  destruct (HookingSystem.Detach FridaGadget os_ok
              [(2, HookingSystem.Item_of_target 0x1000 0x2000 0)] 1 0x1000 world0)
    as [[r w']|] eqn:E; [|discriminate E].
  assert (R : r = (false, [(2, HookingSystem.Item_of_target 0x1000 0x2000 0)])).
  { vm_compute in E. injection E as <- _. reflexivity. }
  rewrite <- R.
  exact (Detach_keeps_the_other_plugins FridaGadget os_ok
           [(2, HookingSystem.Item_of_target 0x1000 0x2000 0)] 1 0x1000 world0
           r w' E).
Defined.

Lemma QueueForDetach_frame
    (backend : Backend) (os : OS) (aPlugin : Z) (aItem : HookingSystem.Item) (w : World) :
  match HookingSystem.symbol aItem with
  | Some _ => HookingSystem.original aItem <> 0
  | None => True
  end ->
  wp (HookingSystem.QueueForDetach backend os aPlugin aItem)
     (fun _ w' => quiet w w' /\ g_inTransaction w' = g_inTransaction w) w.
Proof.
  unfold HookingSystem.QueueForDetach.
  destruct (HookingSystem.symbol aItem) as [s|]; intros H.
  - apply wp_bind. unfold load_cell. apply Z.eqb_neq in H. rewrite H.
    apply wp_gets. apply wp_bind, wp_tick.
    destruct (negb (rebind_ok os (clock w)));
      apply wp_bind, wp_log, wp_ret; split; frame.
  - apply wp_bind, wp_log_steady. intros w1 (Q1 & G1 & _). apply wp_bind.
    eapply wp_mono; [|apply Hook_Detach_spec]. cbv beta.
    intros r w2 (Q2 & G2 & _).
    destruct (negb (fst r =? NO_ERROR));
      apply wp_bind, wp_log_steady; intros w3 (Q3 & G3 & _); apply wp_ret;
      (split; [eauto using quiet_trans | congruence]).
Qed.

Lemma detach_all_frame (backend : Backend) (os : OS) (l : HookingSystem.Map_t) :
  forall (count : nat) (w : World),
    slots_present l = true ->
    wp (HookingSystem.detach_all backend os l count)
       (fun _ w' => quiet w w' /\ g_inTransaction w' = g_inTransaction w) w.
Proof.
  induction l as [|[plugin item] rest IH]; intros count w H; cbn in *.
  - apply wp_ret. split; [apply quiet_refl | reflexivity].
  - apply andb_prop in H. destruct H as [H1 H2].
    apply wp_bind. eapply wp_mono; [|apply QueueForDetach_frame].
    + cbv beta. intros r w1 [Q1 G1]. apply wp_bind.
      eapply wp_mono; [|apply IH; exact H2]. cbv beta. intros r' w2 [Q2 G2].
      apply wp_ret. split; [eauto using quiet_trans | congruence].
    + destruct (HookingSystem.symbol item); [|exact I].
      apply Z.eqb_neq. now apply negb_true_iff.
Qed.

(** X18.  [Shutdown] on a registry in which every record by symbol has an
    original slot: it runs to its end in both builds, whatever the
    individual detaches and the commit report, and the hook map is empty
    afterwards; and it leaves the transaction flag of the C interface as it
    found it: no transaction is left open, and a transaction that was open
    when [Shutdown] was called is still open when it returns. *)
Theorem Shutdown_empties_the_registry
    (backend : Backend) (os : OS) (m_hooks : HookingSystem.Map_t) (w : World)
    (Hslots : slots_present m_hooks = true) :
  wp (HookingSystem.Shutdown backend os m_hooks)
     (fun r w' => r = [] /\ g_inTransaction w' = g_inTransaction w) w.
Proof.
  unfold HookingSystem.Shutdown.
  apply wp_bind, wp_log_steady. intros w1 (Q1 & G1 & _).
  apply wp_bind. eapply wp_mono; [|apply new_spec]. cbv beta.
  intros tr w2 (Q2 & G2 & _ & _ & St).
  apply wp_bind. eapply wp_mono; [|apply detach_all_frame; exact Hslots]. cbv beta.
  intros r w3 (Q3 & G3).
  apply wp_bind. eapply wp_mono; [|apply Commit_obj_spec]. cbv beta.
  intros c w4 (Q4 & _ & _ & R).
  assert (K : forall w5, g_inTransaction w5 = g_inTransaction w4 ->
              wp (_ <- DetourTransaction.delete backend (snd c) ;; ret [])
                 (fun (r0 : HookingSystem.Map_t) w' =>
                    r0 = [] /\ g_inTransaction w' = g_inTransaction w) w5).
  { intros w5 G5. apply wp_bind. eapply wp_mono; [|apply delete_spec]. cbv beta.
    intros tr' w6 (_ & D). apply wp_ret. split; [reflexivity|].
    rewrite G1 in St. destruct (g_inTransaction w) eqn:G.
    - subst tr. cbn [DetourTransaction.m_state] in R. destruct R as [-> G4].
      cbn [snd DetourTransaction.m_state] in D. destruct D as [_ ->]. congruence.
    - rewrite St, G3, G2 in R. destruct R as (G4 & ->).
      cbn [snd DetourTransaction.m_state] in D. destruct D as [_ ->]. congruence. }
  apply wp_bind. destruct (fst c); apply wp_log_steady;
    intros w5 (_ & G5 & _); apply K; assumption.
Qed.

Lemma Shutdown_empties_the_registry_witness :
  wp (HookingSystem.Shutdown Native os_ok
        [(1, HookingSystem.Item_of_target 0x1000 0x2000 0x5000);
         (2, HookingSystem.Item_of_symbol os_ok "open" 0x2100 0x5008)])
     (fun r w' => r = [] /\ g_inTransaction w' = g_inTransaction world0) world0.
Proof.
  apply (Shutdown_empties_the_registry Native os_ok
           [(1, HookingSystem.Item_of_target 0x1000 0x2000 0x5000);
            (2, HookingSystem.Item_of_symbol os_ok "open" 0x2100 0x5008)] world0).
  reflexivity.
Defined.

(** ** The hooks of the engine itself *)

(** X20.  The [Attach] and [Detach] of [Hooks/AssertionFailed.cpp] and of
    [Hooks/ExecuteProcess.cpp] keep their flag [isAttached] in step with
    what they return.  [Detach] on a hook that is not attached returns
    [false] and does nothing at all, not even logging.  [Attach] returns
    the new value of the flag, and [true] only inside a transaction with a
    non-null address and detour.  [Detach] returns [true] only for an
    attached hook inside a transaction; the flag is cleared exactly when it
    returns [true], so that a hook whose detach failed can be detached
    again. *)
Theorem engine_hook_flag_follows_result
    (backend : Backend) (os : OS) (msgs : Hooks.Messages) (s : Hooks.t) (w : World) :
  (Hooks.isAttached s = false ->
   Hooks.Detach backend os msgs s w = Some ((false, s), w)) /\
  wp (Hooks.Attach backend os msgs s)
     (fun r _ =>
        Hooks.isAttached (snd r) = fst r /\
        (fst r = true ->
         g_inTransaction w = true /\
         Hook.m_address (Hooks.fnc s) <> 0 /\ Hook.m_detour (Hooks.fnc s) <> 0)) w /\
  wp (Hooks.Detach backend os msgs s)
     (fun r _ =>
        Hooks.isAttached (snd r) = Hooks.isAttached s && negb (fst r) /\
        (fst r = true -> Hooks.isAttached s = true /\ g_inTransaction w = true)) w.
Proof.
  split; [|split].
  - intros F. unfold Hooks.Detach. now rewrite F.
  - unfold Hooks.Attach.
    apply wp_bind, wp_log_steady. intros w1 (_ & G1 & _).
    apply wp_bind. eapply wp_mono; [|apply Hook_Attach_spec]. cbv beta.
    intros [code h] w2 (_ & _ & _ & _ & _ & _ & S & _). cbn [fst snd] in *.
    apply wp_bind.
    assert (K : forall w3,
               wp (ret (code =? NO_ERROR, Hooks.mk (code =? NO_ERROR) h))
                  (fun r _ =>
                     Hooks.isAttached (snd r) = fst r /\
                     (fst r = true ->
                      g_inTransaction w = true /\
                      Hook.m_address (Hooks.fnc s) <> 0 /\
                      Hook.m_detour (Hooks.fnc s) <> 0)) w3).
    { intros w3. apply wp_ret. cbn [fst snd Hooks.isAttached].
      split; [reflexivity|]. intros E. apply Z.eqb_eq in E.
      destruct (S E) as (G & Na & Nd & _). rewrite G1 in G. auto. }
    destruct (negb (code =? NO_ERROR)); apply wp_log; apply K.
  - unfold Hooks.Detach. destruct (Hooks.isAttached s) eqn:F; cbn [negb andb].
    + apply wp_bind, wp_log_steady. intros w1 (_ & G1 & _).
      apply wp_bind. eapply wp_mono; [|apply Hook_Detach_spec]. cbv beta.
      intros [code h] w2 (_ & _ & _ & S). cbn [fst snd] in *.
      apply wp_bind.
      assert (K : forall w3,
                 wp (ret (negb (negb (code =? NO_ERROR)),
                          Hooks.mk (negb (code =? NO_ERROR)) h))
                    (fun r _ =>
                       Hooks.isAttached (snd r) = negb (fst r) /\
                       (fst r = true -> true = true /\ g_inTransaction w = true)) w3).
      { intros w3. apply wp_ret. cbn [fst snd Hooks.isAttached].
        split; [now rewrite negb_involutive|].
        intros E. rewrite negb_involutive in E.
        apply Z.eqb_eq in E. split; [reflexivity|].
        rewrite <- G1. apply S, E. }
      destruct (negb (code =? NO_ERROR)); apply wp_log; apply K.
    + apply wp_ret. cbn. split; [exact F|discriminate].
Qed.

Lemma engine_hook_flag_follows_result_witness :
  Hooks.Detach FridaGadget os_ok Hooks.AssertionFailed_messages
    (Hooks.mk false (Hook.mk 0x1000 0x2000)) world0
  = Some ((false, Hooks.mk false (Hook.mk 0x1000 0x2000)), world0).
Proof.
  apply (proj1 (engine_hook_flag_follows_result FridaGadget os_ok
                  Hooks.AssertionFailed_messages
                  (Hooks.mk false (Hook.mk 0x1000 0x2000)) world0)).
  reflexivity.
Defined.

(** ** Narrowing of wide strings *)

Lemma narrow_char_byte (c : Z) : 0 <= Log.narrow_char c < 256.
Proof.
  unfold Log.narrow_char, Log.question_mark.
  destruct (c <? 128); [|lia].
  change 255 with (Z.ones 8). rewrite Z.land_ones by lia.
  apply Z.mod_pos_bound. lia.
Qed.

Lemma narrow_char_ascii (c : Z) : 0 <= c -> 0 <= Log.narrow_char c < 128.
Proof.
  intros H. unfold Log.narrow_char, Log.question_mark.
  destruct (c <? 128) eqn:E; [|lia]. apply Z.ltb_lt in E.
  change 255 with (Z.ones 8). rewrite Z.land_ones by lia.
  rewrite Z.mod_small by lia. lia.
Qed.

Lemma narrow_char_id (c : Z) : 0 <= c < 128 -> Log.narrow_char c = c.
Proof.
  intros H. unfold Log.narrow_char.
  replace (c <? 128) with true by (symmetry; apply Z.ltb_lt; lia).
  change 255 with (Z.ones 8). rewrite Z.land_ones by lia.
  apply Z.mod_small. lia.
Qed.

(** X21.  [Narrow] of a wide string view keeps the length of the string
    and produces bytes; on a string of non-negative characters every byte
    is 7-bit ASCII, an ASCII string comes out as it is, everything else
    becomes ['?'], and narrowing the result again changes nothing. *)
Theorem Narrow_view_is_ascii (ws : list Z) (Hchars : Forall (fun c => 0 <= c) ws) :
  List.length (Log.Narrow_view ws) = List.length ws /\
  Forall (fun b => 0 <= b < 128) (Log.Narrow_view ws) /\
  (Forall (fun c => c < 128) ws -> Log.Narrow_view ws = ws) /\
  (forall i c, nth_error ws i = Some c -> 128 <= c ->
               nth_error (Log.Narrow_view ws) i = Some Log.question_mark) /\
  Log.Narrow_view (Log.Narrow_view ws) = Log.Narrow_view ws.
Proof.
  unfold Log.Narrow_view. split; [apply length_map|].
  split; [|split; [|split]].
  - induction Hchars as [|c l Hc _ IH]; cbn; constructor; auto.
    now apply narrow_char_ascii.
  - intros A. induction Hchars as [|c l Hc _ IH]; cbn; [reflexivity|].
    inversion A; subst. rewrite narrow_char_id by lia. f_equal. auto.
  - intros i c Hi Hc. rewrite nth_error_map, Hi. cbn.
    unfold Log.narrow_char.
    replace (c <? 128) with false by (symmetry; apply Z.ltb_ge; lia). reflexivity.
  - induction Hchars as [|c l Hc _ IH]; cbn; [reflexivity|].
    rewrite IH. f_equal. apply narrow_char_id.
    pose proof (narrow_char_ascii c Hc). lia.
Qed.

Lemma Narrow_view_is_ascii_witness :
  List.length (Log.Narrow_view [72; 233; 0x1F600]) = 3%nat /\
  Forall (fun b => 0 <= b < 128) (Log.Narrow_view [72; 233; 0x1F600]) /\
  (Forall (fun c => c < 128) [72; 233; 0x1F600] ->
   Log.Narrow_view [72; 233; 0x1F600] = [72; 233; 0x1F600]) /\
  (forall i c, nth_error [72; 233; 0x1F600] i = Some c -> 128 <= c ->
               nth_error (Log.Narrow_view [72; 233; 0x1F600]) i
               = Some Log.question_mark) /\
  Log.Narrow_view (Log.Narrow_view [72; 233; 0x1F600])
  = Log.Narrow_view [72; 233; 0x1F600].
Proof.
  apply (Narrow_view_is_ascii [72; 233; 0x1F600]).
  repeat constructor; lia.
Defined.

(** X22.  [Narrow] of a pointer to a zero-terminated wide string gives the
    empty string for the null pointer and otherwise narrows the characters
    before the first zero, as [Narrow] of the view of that text does; what
    follows the terminator is never read. *)
Theorem Narrow_stops_at_the_terminator (ws rest : list Z)
    (Htext : Forall (fun c => c <> 0) ws) :
  Log.Narrow None = [] /\
  Log.Narrow (Some (ws ++ 0 :: rest)) = Log.Narrow_view ws.
Proof.
  split; [reflexivity|]. unfold Log.Narrow, Log.Narrow_view.
  induction Htext as [|c l Hc _ IH]; cbn; [reflexivity|].
  apply Z.eqb_neq in Hc. rewrite Hc. now rewrite IH.
Qed.

Lemma Narrow_stops_at_the_terminator_witness :
  Log.Narrow None = [] /\
  Log.Narrow (Some ([72; 105] ++ 0 :: [33])) = Log.Narrow_view [72; 105].
Proof.
  apply (Narrow_stops_at_the_terminator [72; 105] [33]).
  repeat constructor; discriminate.
Defined.

(** ** Scopes *)

(** X23.  The destructor of [DetourTransaction] acts on a [Started] object
    only.  Such an object is aborted: it ends [Aborted], no transaction is
    open afterwards, and the abort has reset the count of registered hooks
    to zero (Frida Gadget build) or emptied the list of trampolines (native
    build), whatever earlier transactions had put there; if the C interface
    had no transaction open, the object ends [Failed] instead.  An object in
    any other state is destroyed without any effect: the world is exactly
    as it was. *)
Theorem destructor_aborts_only_started
    (backend : Backend) (tr : DetourTransaction.t) (w : World) :
  wp (DetourTransaction.delete backend tr)
     (fun tr' w' =>
        mem w' = mem w /\ cells w' = cells w /\
        if DetourTransaction.State_eqb (DetourTransaction.m_state tr) Started
        then g_inTransaction w' = false /\
             if g_inTransaction w
             then DetourTransaction.m_state tr' = Aborted /\
                  match backend with
                  | FridaGadget => g_hookCount w' = 0
                  | Native => g_trampolines w' = []
                  end
             else DetourTransaction.m_state tr' = Failed /\
                  g_hookCount w' = g_hookCount w /\
                  g_trampolines w' = g_trampolines w
        else tr' = tr /\ w' = w) w.
Proof.
  eapply wp_mono; [|apply delete_spec]. cbv beta.
  intros tr' w' ((M & C & _) & R). split; [exact M|]. split; [exact C|].
  destruct (DetourTransaction.m_state tr); cbn [DetourTransaction.State_eqb];
    try exact R.
  destruct R as [G R]. split; [exact G|].
  destruct (g_inTransaction w).
  - destruct R as [-> R]. split; [reflexivity|]. destruct backend; apply R.
  - destruct R as [-> R]. split; [reflexivity|]. exact R.
Qed.

(** X24.  A scope that constructs a transaction, commits it and leaves.  If
    no transaction was open, the commit returns [true], the object is
    destroyed [Committed], and no transaction is open afterwards.  If a
    transaction was already open, the object is [Invalid], its commit is
    refused, and the open transaction is not disturbed: it is still open.
    In both cases the count of hooks, the trampolines, the memory and the
    data cells are as before: an empty transaction changes nothing. *)
Theorem empty_transaction_changes_nothing (backend : Backend) (os : OS) (w : World) :
  wp (committed_scope backend os)
     (fun r w' =>
        r = (if g_inTransaction w then (false, Invalid) else (true, Committed)) /\
        g_inTransaction w' = g_inTransaction w /\
        g_hookCount w' = g_hookCount w /\ g_trampolines w' = g_trampolines w /\
        mem w' = mem w /\ cells w' = cells w) w.
Proof.
  unfold committed_scope.
  apply wp_bind. eapply wp_mono; [|apply new_spec]. cbv beta.
  intros tr w1 (Q1 & G1 & H1 & T1 & St).
  apply wp_bind. eapply wp_mono; [|apply Commit_obj_spec]. cbv beta.
  intros c w2 (Q2 & H2 & T2 & R).
  apply wp_bind. eapply wp_mono; [|apply delete_spec]. cbv beta.
  intros tr' w3 (Q3 & D). apply wp_ret.
  assert (Q : quiet w w3) by eauto using quiet_trans.
  destruct Q as (M & C & _).
  destruct (g_inTransaction w) eqn:G.
  - subst tr. cbn [DetourTransaction.m_state] in R. destruct R as [-> G2].
    cbn [snd fst DetourTransaction.m_state] in *. destruct D as [-> ->].
    repeat split; auto; congruence.
  - rewrite St, G1 in R. destruct R as [G2 ->].
    cbn [snd fst DetourTransaction.m_state] in *. destruct D as [-> ->].
    repeat split; auto; congruence.
Qed.

(** ** What [Detach] returns and what it erases *)

Lemma wp_wlp {A : Type} (m : M A) (Q : A -> World -> Prop) (w : World) :
  wp m Q w -> wlp m Q w.
Proof.
  unfold wp, wlp. destruct (m w) as [[a w']|]; [auto | contradiction].
Qed.

(** [QueueForDetach] leaves the target, the symbol and the original slot of
    its record alone, and a record that could not be queued is unchanged. *)
Lemma QueueForDetach_keeps
    (backend : Backend) (os : OS) (aPlugin : Z) (aItem : HookingSystem.Item) (w : World) :
  wlp (HookingSystem.QueueForDetach backend os aPlugin aItem)
      (fun r w' =>
         quiet w w' /\ g_inTransaction w' = g_inTransaction w /\
         (forall c t, matches_in c (snd r) t = matches_in c aItem t) /\
         (fst r = false -> snd r = aItem)) w.
Proof.
  unfold HookingSystem.QueueForDetach.
  destruct (HookingSystem.symbol aItem) as [s|] eqn:Sy.
  - unfold load_cell. destruct (HookingSystem.original aItem =? 0) eqn:O.
    + reflexivity.
    + apply wp_wlp. apply wp_bind, wp_gets. apply wp_bind, wp_tick.
      destruct (negb (rebind_ok os (clock w)));
        apply wp_bind, wp_log, wp_ret; cbn [fst snd]; (split; [frame|]);
        (split; [reflexivity|]); split; auto.
  - apply wp_wlp. apply wp_bind, wp_log_steady. intros w1 (Q1 & G1 & _).
    apply wp_bind. unfold Hook.Detach. apply wp_bind.
    eapply wp_mono; [|apply DetourDetach_spec]. cbv beta.
    intros r w2 (Q2 & G2 & _ & R & _). apply wp_ret. cbn [fst snd].
    assert (K : forall c t,
               matches_in c (HookingSystem.set_hook
                               (Hook.mk (snd r) (Hook.m_detour (HookingSystem.hook aItem)))
                               aItem) t
               = matches_in c aItem t) by reflexivity.
    destruct (negb (fst r =? NO_ERROR)) eqn:E;
      apply wp_bind, wp_log_steady; intros w3 (Q3 & G3 & _); apply wp_ret;
      cbn [fst snd];
      (split; [eauto using quiet_trans|]); (split; [congruence|]);
      (split; [exact K|]).
    + intros _. destruct R as [R|(_ & R & _)].
      * rewrite R in E. discriminate E.
      * rewrite R. destruct aItem as [tg sy og [ad dt]]. reflexivity.
    + discriminate.
Qed.

(** The first loop of [Detach]: it keeps the number of records and what
    they match, it does not write to the data cells, and its counter grows
    only at a record that matches. *)
Lemma detach_queue_inv
    (backend : Backend) (os : OS) (aPlugin aTarget : Z) (l : HookingSystem.Map_t) :
  forall (count : nat) (hasHook : bool) (w : World),
    wlp (HookingSystem.detach_queue backend os aPlugin aTarget l count hasHook)
        (fun r w' =>
           quiet w w' /\ g_inTransaction w' = g_inTransaction w /\
           List.length (fst r) = List.length l /\
           (forall c, has_match c aPlugin aTarget (fst r)
                      = has_match c aPlugin aTarget l) /\
           snd (snd r) = hasHook || has_match (cells w) aPlugin aTarget l /\
           (count <= fst (snd r))%nat /\
           (fst (snd r) = count -> fst r = l) /\
           ((count < fst (snd r))%nat ->
            has_match (cells w) aPlugin aTarget l = true)) w.
Proof.
  induction l as [|[plugin item] rest IH]; intros count hasHook w.
  - apply wlp_ret. cbn [fst snd has_match existsb List.length].
    rewrite orb_false_r.
    split; [apply quiet_refl|]. do 4 (split; [reflexivity|]).
    split; [lia|]. split; [reflexivity | intros E; lia].
  - cbn [HookingSystem.detach_queue]. unfold has_match in *.
    cbn [existsb fst snd].
    destruct (plugin =? aPlugin) eqn:P; cbn [andb orb].
    + apply wlp_bind, wp_wlp, wp_matches.
      destruct (matches_in (cells w) item aTarget) eqn:Mt; cbn [orb].
      * apply wlp_bind. eapply wlp_mono; [|apply QueueForDetach_keeps]. cbv beta.
        intros r w1 (Q1 & G1 & K1 & F1).
        apply wlp_bind. eapply wlp_mono; [|apply IH]. cbv beta.
        intros r' w2 (Q2 & G2 & L2 & K2 & H2 & C2 & E2 & _).
        apply wlp_ret. cbn [fst snd List.length existsb].
        split; [eauto using quiet_trans|]. split; [congruence|].
        split; [now rewrite L2|].
        split; [intros c; rewrite P, K1, K2; reflexivity|].
        split; [rewrite H2; cbn [orb]; now rewrite orb_true_r|].
        destruct (fst r) eqn:Fr.
        -- split; [lia|]. split; [intros E; lia | reflexivity].
        -- split; [lia|]. split; [|reflexivity].
           intros E. rewrite (E2 E). specialize (F1 eq_refl).
           destruct r as [b i]. cbn in F1. now subst i.
      * apply wlp_bind. eapply wlp_mono; [|apply IH]. cbv beta.
        intros r' w2 (Q2 & G2 & L2 & K2 & H2 & C2 & E2 & M2).
        apply wlp_ret. cbn [fst snd List.length existsb].
        split; [exact Q2|]. split; [exact G2|].
        split; [now rewrite L2|].
        split; [intros c; rewrite P, K2; reflexivity|].
        split; [exact H2|]. split; [exact C2|].
        split; [|exact M2]. intros E. now rewrite (E2 E).
    + apply wlp_bind. eapply wlp_mono; [|apply IH]. cbv beta.
      intros r' w2 (Q2 & G2 & L2 & K2 & H2 & C2 & E2 & M2).
      apply wlp_ret. cbn [fst snd List.length existsb].
      split; [exact Q2|]. split; [exact G2|].
      split; [now rewrite L2|].
      split; [intros c; rewrite P, K2; reflexivity|].
      split; [exact H2|]. split; [exact C2|].
      split; [|exact M2]. intros E. now rewrite (E2 E).
Qed.

(** The second loop of [Detach] erases, and it erases the first record that
    matches when it starts. *)
Lemma detach_erase_inv (aPlugin aTarget : Z) (l : HookingSystem.Map_t) :
  forall (w : World),
    wlp (HookingSystem.detach_erase aPlugin aTarget l)
        (fun r _ =>
           (List.length r <= List.length l)%nat /\
           (has_match (cells w) aPlugin aTarget l = true ->
            (List.length r < List.length l)%nat)) w.
Proof.
  induction l as [|[plugin item] rest IH]; intros w.
  - apply wlp_ret. cbn. split; [lia | discriminate].
  - cbn [HookingSystem.detach_erase]. unfold has_match in *.
    cbn [existsb fst snd List.length].
    destruct (plugin =? aPlugin) eqn:P; cbn [andb orb].
    + apply wlp_bind, wp_wlp, wp_matches.
      destruct (matches_in (cells w) item aTarget) eqn:Mt; cbn [orb].
      * apply wlp_bind, wlp_any. intros _ w1.
        eapply wlp_mono; [|apply IH]. cbv beta. intros r w2 [L _].
        split; [lia | intros _; lia].
      * apply wlp_bind. eapply wlp_mono; [|apply IH]. cbv beta.
        intros r w2 [L S]. apply wlp_ret. cbn [List.length].
        split; [lia | intros E; specialize (S E); lia].
    + apply wlp_bind. eapply wlp_mono; [|apply IH]. cbv beta.
      intros r w2 [L S]. apply wlp_ret. cbn [List.length].
      split; [lia | intros E; specialize (S E); lia].
Qed.

(** A call that returns [false] has left the hook map as it was; a call
    that returns [true] had a record to detach and, made while no
    transaction is open, has erased at least one record. *)
Lemma Detach_false_or_erases
    (backend : Backend) (os : OS) (m_hooks : HookingSystem.Map_t)
    (aPlugin aTarget : Z) (w : World) :
  wlp (HookingSystem.Detach backend os m_hooks aPlugin aTarget)
      (fun r _ =>
         if fst r
         then has_match (cells w) aPlugin aTarget m_hooks = true /\
              (g_inTransaction w = false ->
               (List.length (snd r) < List.length m_hooks)%nat)
         else snd r = m_hooks) w.
Proof.
  unfold HookingSystem.Detach.
  apply wlp_bind, wp_wlp, wp_log_steady. intros w1 ((_ & C1 & _) & G1 & _).
  apply wlp_bind, wp_wlp. eapply wp_mono; [|apply new_spec]. cbv beta.
  intros tr w2 ((_ & C2 & _) & G2 & _ & _ & St).
  apply wlp_bind. eapply wlp_mono; [|apply detach_queue_inv]. cbv beta.
  intros [l [count hasHook]] w3 ((_ & C3 & _) & G3 & L3 & K3 & H3 & _ & E3 & M3).
  cbn [fst snd] in *.
  assert (Cw : cells w2 = cells w) by congruence.
  rewrite Cw in H3, M3. cbn [orb] in H3.
  destruct hasHook; cbn [negb].
  - destruct count as [|n].
    + cbn [Nat.eqb]. apply wlp_bind, wlp_any. intros _ w4.
      apply wlp_bind, wlp_any. intros _ w5. apply wlp_ret.
      cbn [fst snd Nat.ltb Nat.leb]. now apply E3.
    + cbn [Nat.eqb].
      assert (Hm : has_match (cells w) aPlugin aTarget m_hooks = true)
        by (apply M3; lia).
      apply wlp_bind, wp_wlp. eapply wp_mono; [|apply Commit_obj_spec]. cbv beta.
      intros c w4 ((_ & C4 & _) & _ & _ & R).
      destruct (fst c) eqn:Fc.
      * apply wlp_bind, wp_wlp, wp_log_steady. intros w5 ((_ & C5 & _) & _).
        apply wlp_bind. eapply wlp_mono; [|apply detach_erase_inv]. cbv beta.
        intros l' w6 [_ Lt].
        apply wlp_bind, wlp_any. intros _ w7. apply wlp_ret.
        cbn [fst snd Nat.ltb Nat.leb]. split; [exact Hm|]. intros _.
        rewrite <- L3. apply Lt. rewrite K3.
        replace (cells w5) with (cells w) by congruence. exact Hm.
      * apply wlp_bind, wlp_any. intros _ w5. apply wlp_ret.
        cbn [fst snd Nat.ltb Nat.leb]. split; [exact Hm|]. intros G.
        exfalso. rewrite G1, G in St. rewrite St, G3, G2 in R.
        destruct R as [_ R]. rewrite R in Fc. discriminate Fc.
  - destruct count as [|n].
    + apply wlp_bind, wlp_any. intros _ w4.
      apply wlp_bind, wlp_any. intros _ w5. apply wlp_ret.
      cbn [fst snd Nat.ltb Nat.leb]. now apply E3.
    + assert (Hm : has_match (cells w) aPlugin aTarget m_hooks = true)
        by (apply M3; lia).
      rewrite Hm in H3. discriminate H3.
Qed.

(** On the records by address of a plugin the selection does not depend on
    the data cells. *)
Lemma unselected_by_address (aPlugin aTarget : Z) (c c' : Z -> Z)
    (l : HookingSystem.Map_t) :
  by_address aPlugin l = true ->
  unselected c aPlugin aTarget l = unselected c' aPlugin aTarget l.
Proof.
  unfold unselected, by_address.
  induction l as [|[plugin item] rest IH]; intros H; cbn in *; [reflexivity|].
  apply andb_prop in H. destruct H as [H1 H2]. rewrite (IH H2).
  unfold selected, matches_in. cbn [fst snd].
  destruct (plugin =? aPlugin); cbn in *; [|reflexivity].
  destruct (HookingSystem.symbol item); [discriminate H1 | reflexivity].
Qed.

Lemma unselected_none (c : Z -> Z) (aPlugin aTarget : Z) (l : HookingSystem.Map_t) :
  has_match c aPlugin aTarget l = false -> unselected c aPlugin aTarget l = l.
Proof.
  unfold unselected, has_match, selected.
  induction l as [|e rest IH]; intros H; [reflexivity|].
  cbn [existsb] in H. apply orb_false_elim in H. destruct H as [H1 H2].
  cbv beta in H1. cbn [filter]. cbv beta.
  unfold HookingSystem.Plugin in *. rewrite H1. cbn [negb].
  now rewrite (IH H2).
Qed.

(** The first loop of [Detach] in the Frida Gadget build, inside a
    transaction, on records by address: every record that matches is
    queued, and no record is changed. *)
Lemma detach_queue_by_address
    (os : OS) (aPlugin aTarget : Z) (l : HookingSystem.Map_t) :
  forall (count : nat) (hasHook : bool) (w : World),
    by_address aPlugin l = true -> g_inTransaction w = true ->
    wp (HookingSystem.detach_queue FridaGadget os aPlugin aTarget l count hasHook)
       (fun r w' =>
          fst r = l /\ steady w w' /\
          snd (snd r) = hasHook || has_match (cells w) aPlugin aTarget l /\
          (count <= fst (snd r))%nat /\
          (has_match (cells w) aPlugin aTarget l = true ->
           (count < fst (snd r))%nat)) w.
Proof.
  induction l as [|[plugin item] rest IH]; intros count hasHook w B G.
  - apply wp_ret. cbn [fst snd has_match existsb]. rewrite orb_false_r.
    split; [reflexivity|]. split; [apply steady_refl|].
    split; [reflexivity|]. split; [lia | discriminate].
  - unfold by_address in B. cbn [forallb fst snd] in B.
    apply andb_prop in B. destruct B as [B1 B2]. fold (by_address aPlugin rest) in B2.
    cbn [HookingSystem.detach_queue]. unfold has_match in *.
    cbn [existsb fst snd].
    destruct (plugin =? aPlugin) eqn:P; cbn [andb orb negb] in *.
    + assert (Sy : HookingSystem.symbol item = None)
        by (destruct (HookingSystem.symbol item); [discriminate B1 | reflexivity]).
      apply wp_bind, wp_matches.
      destruct (matches_in (cells w) item aTarget) eqn:Mt; cbn [orb].
      * apply wp_bind.
        eapply wp_mono; [|apply QueueForDetach_frida; [exact Sy | exact G]].
        cbv beta. intros r w1 [-> S1]. cbn [fst snd].
        assert (G1 : g_inTransaction w1 = true)
          by (destruct S1 as (_ & -> & _); exact G).
        apply wp_bind. eapply wp_mono; [|apply (IH (S count) true w1 B2 G1)].
        cbv beta. intros r' w2 (E2 & S2 & H2 & C2 & _). apply wp_ret.
        cbn [fst snd]. split; [now rewrite E2|].
        split; [eauto using steady_trans|].
        split; [rewrite H2; cbn [orb]; now rewrite orb_true_r|].
        split; [lia | intros _; lia].
      * apply wp_bind. eapply wp_mono; [|apply (IH count hasHook w B2 G)].
        cbv beta. intros r' w2 (E2 & S2 & H2 & C2 & M2). apply wp_ret.
        cbn [fst snd]. split; [now rewrite E2|]. auto.
    + apply wp_bind. eapply wp_mono; [|apply (IH count hasHook w B2 G)].
      cbv beta. intros r' w2 (E2 & S2 & H2 & C2 & M2). apply wp_ret.
      cbn [fst snd]. split; [now rewrite E2|]. auto.
Qed.

(** The second loop of [Detach] on records by address: it erases the
    records that the request selects, and no other. *)
Lemma detach_erase_by_address (aPlugin aTarget : Z) (l : HookingSystem.Map_t) :
  forall (w : World),
    by_address aPlugin l = true ->
    wp (HookingSystem.detach_erase aPlugin aTarget l)
       (fun r _ => r = unselected (cells w) aPlugin aTarget l) w.
Proof.
  induction l as [|[plugin item] rest IH]; intros w B.
  - apply wp_ret. reflexivity.
  - pose proof B as B'. unfold by_address in B. cbn [forallb fst snd] in B.
    apply andb_prop in B. destruct B as [B1 B2]. fold (by_address aPlugin rest) in B2.
    cbn [HookingSystem.detach_erase]. unfold unselected, selected.
    cbn [filter fst snd].
    destruct (plugin =? aPlugin) eqn:P; cbn [andb negb].
    + apply wp_bind, wp_matches.
      destruct (matches_in (cells w) item aTarget) eqn:Mt; cbn [negb].
      * assert (K : forall w1,
                   wp (HookingSystem.detach_erase aPlugin aTarget rest)
                      (fun r _ => r = unselected (cells w) aPlugin aTarget rest) w1).
        { intros w1. eapply wp_mono; [|apply (IH w1 B2)]. cbv beta.
          intros r w2 ->. now apply unselected_by_address. }
        apply wp_bind.
        destruct (HookingSystem.original item =? 0) eqn:O; cbn [negb].
        -- apply wp_ret, K.
        -- apply wp_store_cell; [now apply Z.eqb_neq|]. apply K.
      * apply wp_bind. eapply wp_mono; [|apply (IH w B2)]. cbv beta.
        intros r w2 ->. apply wp_ret. reflexivity.
    + apply wp_bind. eapply wp_mono; [|apply (IH w B2)]. cbv beta.
      intros r w2 ->. apply wp_ret. reflexivity.
Qed.

(** [Detach] in the Frida Gadget build on a plugin whose records are all by
    address. *)
Lemma Detach_by_address
    (os : OS) (m_hooks : HookingSystem.Map_t) (aPlugin aTarget : Z) (w : World) :
  by_address aPlugin m_hooks = true ->
  wp (HookingSystem.Detach FridaGadget os m_hooks aPlugin aTarget)
     (fun r _ =>
        fst r = has_match (cells w) aPlugin aTarget m_hooks /\
        snd r = if g_inTransaction w then m_hooks
                else unselected (cells w) aPlugin aTarget m_hooks) w.
Proof.
  intros B. destruct (has_match (cells w) aPlugin aTarget m_hooks) eqn:Hm.
  - unfold HookingSystem.Detach.
    apply wp_bind, wp_log_steady. intros w1 ((_ & C1 & _) & G1 & _).
    apply wp_bind. eapply wp_mono; [|apply new_spec]. cbv beta.
    intros tr w2 ((_ & C2 & _) & G2 & _ & _ & St).
    assert (Cw : cells w2 = cells w) by congruence.
    apply wp_bind.
    eapply wp_mono; [|apply (detach_queue_by_address os aPlugin aTarget m_hooks
                               0%nat false w2 B G2)].
    cbv beta. intros [l [count hasHook]] w3 (E3 & (Q3 & G3 & _) & H3 & _ & M3).
    cbn [fst snd] in *. subst l. rewrite Cw, Hm in H3, M3. cbn [orb] in H3.
    subst hasHook. cbn [negb]. specialize (M3 eq_refl).
    destruct count as [|n]; [lia|]. cbn [Nat.eqb Nat.ltb Nat.leb].
    apply wp_bind. eapply wp_mono; [|apply Commit_obj_spec]. cbv beta.
    intros c w4 ((_ & C4 & _) & _ & _ & R).
    rewrite G1 in St. destruct (g_inTransaction w) eqn:G.
    + subst tr. cbn [DetourTransaction.m_state] in R. destruct R as [-> _].
      cbn [fst snd]. apply wp_bind. eapply wp_mono; [|apply delete_spec].
      cbv beta. intros tr' w5 _. apply wp_ret. split; reflexivity.
    + rewrite St, G3, G2 in R. destruct R as [_ ->]. cbn [fst snd].
      apply wp_bind, wp_log_steady. intros w5 ((_ & C5 & _) & _).
      apply wp_bind.
      eapply wp_mono; [|apply (detach_erase_by_address aPlugin aTarget m_hooks w5 B)].
      cbv beta. intros l' w6 ->.
      apply wp_bind. eapply wp_mono; [|apply delete_spec].
      cbv beta. intros tr' w7 _. apply wp_ret. cbn [fst snd].
      split; [reflexivity|].
      destruct Q3 as (_ & C3 & _).
      replace (cells w5) with (cells w) by congruence. reflexivity.
  - eapply wp_mono; [|apply Detach_no_match; exact Hm]. cbv beta.
    intros r w' (-> & _). cbn [fst snd]. split; [reflexivity|].
    destruct (g_inTransaction w); [reflexivity|].
    symmetry. now apply unselected_none.
Qed.

(** C8, amended: [Detach] returns a boolean, not a count.  When the plugin
    has no record that matches the target, directly or through the stored
    original, the call does not fault, returns [false], logs the warning
    that no hooks were found, and leaves the hook map, the data cells and
    the memory as they were.  Whatever the records are, in both builds: a
    call that returns [false] leaves the hook map as it was, so that records
    are erased only by a call that returns [true]; a call that returns
    [true] had a matching record; and made while no transaction is open it
    has erased at least one record.  In the Frida Gadget build, when the
    records of the plugin are all by address, the call does not fault and
    returns [true] exactly when the plugin has a matching record; made
    while no transaction is open it erases all the matching records of the
    plugin, however many, and keeps every other record, and made inside an
    open transaction it erases none. *)
Theorem C8_detach_without_match
    (backend : Backend) (os : OS) (m_hooks : HookingSystem.Map_t)
    (aPlugin aTarget : Z) (w : World) :
  (has_match (cells w) aPlugin aTarget m_hooks = false ->
   wp (HookingSystem.Detach backend os m_hooks aPlugin aTarget)
      (fun r w' =>
         r = (false, m_hooks) /\ In no_hooks_found (logs w') /\
         cells w' = cells w /\ mem w' = mem w) w) /\
  (forall r w',
     HookingSystem.Detach backend os m_hooks aPlugin aTarget w = Some (r, w') ->
     if fst r
     then has_match (cells w) aPlugin aTarget m_hooks = true /\
          (g_inTransaction w = false ->
           (List.length (snd r) < List.length m_hooks)%nat)
     else snd r = m_hooks) /\
  (backend = FridaGadget -> by_address aPlugin m_hooks = true ->
   wp (HookingSystem.Detach backend os m_hooks aPlugin aTarget)
      (fun r _ =>
         fst r = has_match (cells w) aPlugin aTarget m_hooks /\
         snd r = if g_inTransaction w then m_hooks
                 else unselected (cells w) aPlugin aTarget m_hooks) w).
Proof.
  split; [|split].
  - apply Detach_no_match.
  - apply wlp_run. apply Detach_false_or_erases.
  - intros ->. apply Detach_by_address.
Qed.

Lemma C8_witness :
  wp (HookingSystem.Detach FridaGadget os_ok registry_of_two 1 0x3000)
     (fun r w' =>
        r = (false, registry_of_two) /\ In no_hooks_found (logs w') /\
        cells w' = cells world0 /\ mem w' = mem world0) world0 /\
  (exists r w',
     HookingSystem.Detach FridaGadget os_ok registry_of_two 1 0x1000 world0
     = Some (r, w') /\
     fst r = true /\
     has_match (cells world0) 1 0x1000 registry_of_two = true /\
     (List.length (snd r) < List.length registry_of_two)%nat) /\
  wp (HookingSystem.Detach FridaGadget os_ok registry_of_two 1 0x1000)
     (fun r _ =>
        fst r = has_match (cells world0) 1 0x1000 registry_of_two /\
        snd r = if g_inTransaction world0 then registry_of_two
                else unselected (cells world0) 1 0x1000 registry_of_two) world0.
Proof.
  split; [|split].
  - apply (proj1 (C8_detach_without_match FridaGadget os_ok registry_of_two
                    1 0x3000 world0)).
    reflexivity.
  - destruct (HookingSystem.Detach FridaGadget os_ok registry_of_two 1 0x1000 world0)
      as [[r w']|] eqn:E; [|discriminate E].
    pose proof (proj1 (proj2 (C8_detach_without_match FridaGadget os_ok
                                registry_of_two 1 0x1000 world0)) r w' E) as H.
    assert (R : fst r = true) by (vm_compute in E; injection E as <- _; reflexivity).
    rewrite R in H. destruct H as [H1 H2].
    exists r, w'. split; [reflexivity|]. split; [exact R|]. split; [exact H1|].
    apply H2. reflexivity.
  - apply (proj2 (proj2 (C8_detach_without_match FridaGadget os_ok registry_of_two
                           1 0x1000 world0))); reflexivity.
Defined.
